(** * Generative furniture design tool: geometry synthesis core

    A shallow embedding of [utils/noise.ts] (the lattice hash) and of
    [utils/geometry.ts] (shape classifier, pattern generators, frame
    transport and serpentine deformation), with the properties of the
    generated node/edge graphs and of the deformation pipeline.

    Numbers.  Coordinates, dimensions and random draws are real numbers
    ([R]), following the data model ("triple of real-valued coordinates",
    "all are positive reals"); arithmetic is exact.  The lattice hash works
    on 32-bit integers carried by doubles; it is modelled on [Z] with the
    binary64 rounding of integer-valued results written out.  Node ids and
    grid ids are integers ([Z]): the source computes some of them by
    subtraction from [nodes.length].

    Exact arithmetic and binary64 arithmetic can disagree where a real
    result is turned into an integer or a truth value: [Math.ceil] of a
    quotient, [Math.floor] of a product, a comparison at a tie.  The
    volumetric generators are therefore also given with these values as
    parameters ([gyroidGraphOn], [triangularGraphOn], [voronoiGraphOn]);
    properties of grid sizes, node counts and node lists are stated over
    them, for all values of the parameters. *)

From Stdlib Require Import Reals ZArith List Lia Lra Bool Arith Sorted.
Import ListNotations.

Open Scope R_scope.

(* ================================================================== *)
(** * Part I: definitions                                              *)
(* ================================================================== *)

(** ** Comparisons of numbers, as booleans *)

Definition ltb (a b : R) : bool := if Rlt_dec a b then true else false.
Definition leb (a b : R) : bool := if Rle_dec a b then true else false.
Definition gtb (a b : R) : bool := ltb b a.
Definition geb (a b : R) : bool := leb b a.

(** ** noise.ts: the integer lattice hash *)

(** A JS number holding an integer-valued result: either a finite integer
    (a double with an integral value) or one of [Infinity], [-Infinity],
    [NaN], which the 32-bit conversions all send to 0. *)
Inductive jsint : Type :=
| Fin (v : Z)
| NonFinite.

(** Round an integer to the nearest binary64 value (53-bit significand,
    ties to even), exponent unbounded. *)
Definition round53 (v : Z) : Z :=
  let a := Z.abs v in
  let e := (Z.log2 a - 52)%Z in
  if (e <=? 0)%Z then v
  else
    let q := Z.shiftr a e in
    let r := (a - Z.shiftl q e)%Z in
    let half := Z.shiftl 1 (e - 1) in
    let q' := if (half <? r)%Z || ((r =? half)%Z && Z.odd q)
              then (q + 1)%Z else q in
    (Z.sgn v * Z.shiftl q' e)%Z.

(** The double nearest to an exact integer result; overflow gives an
    infinity. *)
Definition to_double (v : Z) : jsint :=
  let r := round53 v in
  if (Z.abs r <? 2 ^ 1024)%Z then Fin r else NonFinite.

Definition js_mul (a : jsint) (c : Z) : jsint :=
  match a with
  | Fin v => to_double (v * c)
  | NonFinite => NonFinite
  end.

Definition js_add (a b : jsint) : jsint :=
  match a, b with
  | Fin v, Fin w => to_double (v + w)
  | _, _ => NonFinite
  end.

(** [ToInt32] and [ToUint32] of ECMAScript. *)
Definition ToInt32 (a : jsint) : Z :=
  match a with
  | Fin v => ((v + 2 ^ 31) mod 2 ^ 32 - 2 ^ 31)%Z
  | NonFinite => 0%Z
  end.

Definition ToUint32 (a : jsint) : Z :=
  match a with
  | Fin v => (v mod 2 ^ 32)%Z
  | NonFinite => 0%Z
  end.

(** [(n ^ (n >> k)) >>> 0]: both operands of [^] and the left operand of
    [>>] go through [ToInt32]; [>>] is the arithmetic shift. *)
Definition xorshift (n : jsint) (k : Z) : Z :=
  let i := ToInt32 n in
  ToUint32 (Fin (Z.lxor i (Z.shiftr i k))).

(** The 32-bit value that [hash3i] normalises. *)
Definition hash3i_bits (x y z : Z) : Z :=
  let n := js_add (js_add (js_mul (Fin x) 374761393)
                          (js_mul (Fin y) 668265263))
                  (js_mul (Fin z) 2147483647) in
  let n := xorshift n 13 in
  let n := ToUint32 (js_mul (Fin n) 1274126177) in
  xorshift (Fin n) 16.

Definition hash3i (x y z : Z) : R :=
  IZR (hash3i_bits x y z) / 4294967296.

(** ** geometry.ts: data model *)

Record Vector3 : Type := vec3 { vx : R; vy : R; vz : R }.

Record NetworkData : Type := mkNet {
  nodes : list Vector3;
  edges : list (Z * Z)
}.

Inductive FurnitureType : Type :=
| Chair | Table | Stool | Bench | Shelf | Vase | Recliner | Lamp | Mobius.

Inductive FurniturePattern : Type :=
| Linear | Voronoi | Gyroid | Triangular.

Record FurnitureParams : Type := mkParams {
  width : R;
  height : R;
  depth : R;
  seatHeight : R;
  pattern : FurniturePattern
}.

(** ** Helpers *)

(** [nodes.push(v) - 1]: the new node's id is the length before the push. *)
Definition addNode (g : NetworkData) (x y z : R) : NetworkData * Z :=
  (mkNet (nodes g ++ [vec3 x y z]) (edges g), Z.of_nat (length (nodes g))).

Definition link (g : NetworkData) (a b : Z) : NetworkData :=
  mkNet (nodes g) (edges g ++ [(a, b)]).

(** [for (let i = 0; i < n; i++)] over an integer bound. *)
Definition range (n : Z) : list Z := map Z.of_nat (seq 0 (Z.to_nat n)).

(** [MathUtils.lerp] and [MathUtils.clamp] of three.js. *)
Definition lerp (x y t : R) : R := (1 - t) * x + t * y.
Definition clamp (value lo hi : R) : R := Rmax lo (Rmin hi value).

(** ** Volume definitions *)

Definition isInsideFurniture (type : FurnitureType) (x y z : R)
    (params : FurnitureParams) : bool :=
  let width := width params in
  let height := height params in
  let depth := depth params in
  let seatHeight := seatHeight params in
  let w2 := width / 2 in
  let d2 := depth / 2 in
  let inBox (bx by_ bz bw bh bd : R) : bool :=
    leb (Rabs (x - bx)) (bw / 2) && geb y by_ && leb y (by_ + bh)
    && leb (Rabs (z - bz)) (bd / 2) in
  match type with
  | Table =>
      let legThick := width * 0.15 in
      let topThick := height * 0.1 in
      let inTop := inBox 0 (height - topThick) 0 width topThick depth in
      let inLegFL := inBox (- w2 + legThick / 2) 0 (d2 - legThick / 2)
                           legThick height legThick in
      let inLegFR := inBox (w2 - legThick / 2) 0 (d2 - legThick / 2)
                           legThick height legThick in
      let inLegBL := inBox (- w2 + legThick / 2) 0 (- d2 + legThick / 2)
                           legThick height legThick in
      let inLegBR := inBox (w2 - legThick / 2) 0 (- d2 + legThick / 2)
                           legThick height legThick in
      inTop || inLegFL || inLegFR || inLegBL || inLegBR
  | Chair =>
      let legThick := width * 0.12 in
      let seatThick := height * 0.08 in
      let backThick := depth * 0.15 in
      let inLegFL := inBox (- w2 + legThick / 2) 0 (d2 - legThick / 2)
                           legThick seatHeight legThick in
      let inLegFR := inBox (w2 - legThick / 2) 0 (d2 - legThick / 2)
                           legThick seatHeight legThick in
      let inLegBL := inBox (- w2 + legThick / 2) 0 (- d2 + legThick / 2)
                           legThick seatHeight legThick in
      let inLegBR := inBox (w2 - legThick / 2) 0 (- d2 + legThick / 2)
                           legThick seatHeight legThick in
      let inSeat := inBox 0 seatHeight 0 width seatThick depth in
      let inBack := inBox 0 seatHeight (- d2 + backThick / 2)
                          width (height - seatHeight) backThick in
      inLegFL || inLegFR || inLegBL || inLegBR || inSeat || inBack
  | Stool =>
      let rTop := width / 2 in
      let rBot := width / 1.5 in
      let rAtY := lerp rBot rTop (y / height) in
      leb (x * x + z * z) (rAtY * rAtY) && geb y 0 && leb y height
  | Bench =>
      let topThick := height * 0.15 in
      let legThick := width * 0.1 in
      let inTop := inBox 0 (height - topThick) 0 width topThick depth in
      let inLegL := inBox (- w2 + legThick / 2) 0 0 legThick height depth in
      let inLegR := inBox (w2 - legThick / 2) 0 0 legThick height depth in
      inTop || inLegL || inLegR
  | Vase =>
      let baseRadius := width * 0.4 in
      let t := y / height in
      let bulge := sin (t * PI) * 0.3 in
      let rad := baseRadius + bulge + (t * 0.1) in
      leb (x * x + z * z) (rad * rad) && geb y 0 && leb y height
  | _ => inBox 0 0 0 width height depth
  end.

(** ** Pattern generators *)

(** The [Map<number, number>] from grid id to node id.  A JS [Map] iterates
    in insertion order, and [set] on a present key replaces the value in
    place: an association list without duplicate keys. *)
Definition NodeMap : Type := list (Z * Z).

Fixpoint map_set (m : NodeMap) (k v : Z) : NodeMap :=
  match m with
  | [] => [(k, v)]
  | (k', v') :: m' =>
      if (k =? k')%Z then (k, v) :: m' else (k', v') :: map_set m' k v
  end.

Fixpoint map_get (m : NodeMap) (k : Z) : option Z :=
  match m with
  | [] => None
  | (k', v') :: m' => if (k =? k')%Z then Some v' else map_get m' k
  end.

(** [idx] of both grid generators: the flattened grid id. *)
Definition idx (nx ny x y z : Z) : Z := (x + y * nx + z * nx * ny)%Z.

(** The grid coordinates the connection pass recovers from a grid id:
    [z = floor(gridId / (nx*ny))], [y = floor((gridId - z*nx*ny) / nx)],
    [x = gridId % nx].  When [nx * ny = 0] the JS divisions give [NaN] (or an
    infinity that the next product turns into [NaN]), so every neighbour id
    is [NaN], which is the key of no entry: [None]. *)
Definition gridCoords (nx ny gridId : Z) : option (Z * Z * Z) :=
  if (nx * ny =? 0)%Z then None
  else
    let z := (gridId / (nx * ny))%Z in
    let y := ((gridId - z * nx * ny) / nx)%Z in
    let x := Z.rem gridId nx in
    Some (x, y, z).

(** The inner [forEach] of the connection pass: link [realIdx] to the node
    of every listed grid position that the map holds. *)
Definition linkNeighbors (nx ny : Z) (nodeMap : NodeMap) (realIdx : Z)
    (neighbors : list (Z * Z * Z)) (g : NetworkData) : NetworkData :=
  fold_left
    (fun g n =>
       let '(nx_coord, ny_coord, nz_coord) := n in
       let nid := idx nx ny nx_coord ny_coord nz_coord in
       match map_get nodeMap nid with
       | Some j => link g realIdx j
       | None => g
       end)
    neighbors g.

(** *** Gyroid *)

Definition gyroidRes : R := 0.08.
Definition gyroidScale : R := 8.0.

(** The implicit surface value at a world position. *)
Definition gyroidVal (wx wy wz : R) : R :=
  let gx := wx * gyroidScale in
  let gy := wy * gyroidScale in
  let gz := wz * gyroidScale in
  sin gx * cos gy + sin gy * cos gz + sin gz * cos gx.

(** World position of a grid point. *)
Definition gyroidPos (params : FurnitureParams) (x y z : Z) : R * R * R :=
  let offsetX := - width params / 2 - gyroidRes in
  let offsetY := - gyroidRes in
  let offsetZ := - depth params / 2 - gyroidRes in
  (offsetX + IZR x * gyroidRes,
   offsetY + IZR y * gyroidRes,
   offsetZ + IZR z * gyroidRes).

(** Body of the innermost sampling loop. *)
Definition gyroidCell (params : FurnitureParams) (type : FurnitureType)
    (nx ny : Z) (x y z : Z) (st : NetworkData * NodeMap)
    : NetworkData * NodeMap :=
  let '(g, nodeMap) := st in
  let '(wx, wy, wz) := gyroidPos params x y z in
  if negb (isInsideFurniture type wx wy wz params) then st
  else
    let val := gyroidVal wx wy wz in
    if ltb (Rabs val) 0.5 then
      let '(g, realIdx) := addNode g wx wy wz in
      (g, map_set nodeMap (idx nx ny x y z) realIdx)
    else st.

(** Three nested [for] loops around a cell body, [x] outermost. *)
Definition gridLoop {S : Type} (xs ys zs : list Z)
    (body : Z -> Z -> Z -> S -> S) (st : S) : S :=
  fold_left
    (fun st x =>
       fold_left
         (fun st y => fold_left (fun st z => body x y z st) zs st)
         ys st)
    xs st.

(** Body of [nodeMap.forEach] in the Gyroid connection pass. *)
Definition gyroidConnect (nx ny : Z) (nodeMap : NodeMap)
    (g : NetworkData) (entry : Z * Z) : NetworkData :=
  let '(gridId, realIdx) := entry in
  match gridCoords nx ny gridId with
  | None => g
  | Some (x, y, z) =>
      let neighbors := [ ((x + 1)%Z, y, z);
                         (x, (y + 1)%Z, z);
                         (x, y, (z + 1)%Z) ] in
      linkNeighbors nx ny nodeMap realIdx neighbors g
  end.

Definition generateVolumeGyroid (g : NetworkData) (params : FurnitureParams)
    (type : FurnitureType) : NetworkData :=
  let nx := (Zceil (width params / gyroidRes) + 2)%Z in
  let ny := (Zceil (height params / gyroidRes) + 2)%Z in
  let nz := (Zceil (depth params / gyroidRes) + 2)%Z in
  let '(g, nodeMap) :=
    gridLoop (range nx) (range ny) (range nz)
             (gyroidCell params type nx ny) (g, []) in
  fold_left (gyroidConnect nx ny nodeMap) nodeMap g.

(** *** Triangular *)

Definition cellSize : R := 0.15.

Definition triangularPos (params : FurnitureParams) (x y z : Z)
    : R * R * R :=
  let offsetX := - width params / 2 in
  let offsetY := 0 in
  let offsetZ := - depth params / 2 in
  (offsetX + IZR x * cellSize,
   offsetY + IZR y * cellSize,
   offsetZ + IZR z * cellSize).

Definition triangularCell (params : FurnitureParams) (type : FurnitureType)
    (nx ny : Z) (x y z : Z) (st : NetworkData * NodeMap)
    : NetworkData * NodeMap :=
  let '(g, nodeMap) := st in
  let '(wx, wy, wz) := triangularPos params x y z in
  if isInsideFurniture type wx wy wz params then
    let '(g, realIdx) := addNode g wx wy wz in
    (g, map_set nodeMap (idx nx ny x y z) realIdx)
  else st.

Definition neighborOffsets : list (Z * Z * Z) :=
  [ (1, 0, 0); (0, 1, 0); (0, 0, 1);
    (1, 1, 0); (1, 0, 1); (0, 1, 1);
    (1, 1, 1) ]%Z.

Definition triangularConnect (nx ny : Z) (nodeMap : NodeMap)
    (g : NetworkData) (entry : Z * Z) : NetworkData :=
  let '(gridId, realIdx) := entry in
  match gridCoords nx ny gridId with
  | None => g
  | Some (x, y, z) =>
      let neighbors :=
        map (fun o => let '(dx, dy, dz) := o in
                      ((x + dx)%Z, (y + dy)%Z, (z + dz)%Z))
            neighborOffsets in
      linkNeighbors nx ny nodeMap realIdx neighbors g
  end.

(** The sampling loops run [0 <= x <= nx] (inclusive) while [idx] keeps the
    stride [nx]. *)
Definition generateVolumeTriangular (g : NetworkData)
    (params : FurnitureParams) (type : FurnitureType) : NetworkData :=
  let nx := Zceil (width params / cellSize) in
  let ny := Zceil (height params / cellSize) in
  let nz := Zceil (depth params / cellSize) in
  let '(g, nodeMap) :=
    gridLoop (range (nx + 1)) (range (ny + 1)) (range (nz + 1))
             (triangularCell params type nx ny) (g, []) in
  fold_left (triangularConnect nx ny nodeMap) nodeMap g.

(** ** Vector3 operations of three.js used by the core *)

Definition v_sub (a b : Vector3) : Vector3 :=
  vec3 (vx a - vx b) (vy a - vy b) (vz a - vz b).

Definition v_dot (a b : Vector3) : R :=
  vx a * vx b + vy a * vy b + vz a * vz b.

Definition v_length (v : Vector3) : R :=
  sqrt (vx v * vx v + vy v * vy v + vz v * vz v).

Definition multiplyScalar (v : Vector3) (s : R) : Vector3 :=
  vec3 (vx v * s) (vy v * s) (vz v * s).

Definition crossVectors (a b : Vector3) : Vector3 :=
  vec3 (vy a * vz b - vz a * vy b)
       (vz a * vx b - vx a * vz b)
       (vx a * vy b - vy a * vx b).

Definition addScaledVector (v w : Vector3) (s : R) : Vector3 :=
  vec3 (vx v + vx w * s) (vy v + vy w * s) (vz v + vz w * s).

Definition distanceTo (a b : Vector3) : R :=
  let dx := vx a - vx b in
  let dy := vy a - vy b in
  let dz := vz a - vz b in
  sqrt (dx * dx + dy * dy + dz * dz).

Definition cubicBezierPoint (p0 p1 p2 p3 : Vector3) (t : R) : Vector3 :=
  let it := 1 - t in
  let b0 := it * it * it in
  let b1 := 3 * it * it * t in
  let b2 := 3 * it * t * t in
  let b3 := t * t * t in
  vec3 (vx p0 * b0 + vx p1 * b1 + vx p2 * b2 + vx p3 * b3)
       (vy p0 * b0 + vy p1 * b1 + vy p2 * b2 + vy p3 * b3)
       (vz p0 * b0 + vz p1 * b1 + vz p2 * b2 + vz p3 * b3).

(** ** Randomness

    [Math.random()] is modelled by an oracle: the [k]-th call of a run
    returns [rnd k].  The generators thread the number of calls made. *)
Definition Oracle : Type := nat -> R.

(** A scattered point: [{ id, vec }]. *)
Definition Point : Type := (Z * Vector3)%type.

(** The two nested loops [for i ... for j = i+1 ...] that link every later
    candidate [q] of a point [p] when [close p q]; [window] selects, from the
    points after [p], those the inner loop visits. *)
Fixpoint linkClose (window : list Point -> list Point)
    (close : Vector3 -> Vector3 -> bool)
    (points : list Point) (g : NetworkData) : NetworkData :=
  match points with
  | [] => g
  | p :: rest =>
      linkClose window close rest
        (fold_left
           (fun g q =>
              if close (snd p) (snd q) then link g (fst p) (fst q) else g)
           (window rest) g)
  end.

(** *** Voronoi *)

Definition voronoiDensity : R := 600.

Definition voronoiCount (params : FurnitureParams) : Z :=
  let volumeApprox := width params * height params * depth params in
  Z.max 50 (Zfloor (volumeApprox * voronoiDensity)).

(** One pass of the rejection-sampling [while] loop; [fuel] is the number of
    attempts left before [attempts < count * 10] fails. *)
Fixpoint voronoiSample (rnd : Oracle) (params : FurnitureParams)
    (type : FurnitureType) (count : Z) (fuel : nat)
    (st : NetworkData * list Point * nat) : NetworkData * list Point * nat :=
  match fuel with
  | O => st
  | S fuel' =>
      let '(g, points, k) := st in
      if (Z.of_nat (length points) <? count)%Z then
        let x := (rnd k - 0.5) * width params in
        let y := rnd (k + 1)%nat * height params in
        let z := (rnd (k + 2)%nat - 0.5) * depth params in
        if isInsideFurniture type x y z params then
          let px := x + (rnd (k + 3)%nat - 0.5) * 0.05 in
          let py := y + (rnd (k + 4)%nat - 0.5) * 0.05 in
          let pz := z + (rnd (k + 5)%nat - 0.5) * 0.05 in
          let '(g, id) := addNode g px py pz in
          voronoiSample rnd params type count fuel'
            (g, points ++ [(id, vec3 px py pz)], (k + 6)%nat)
        else
          voronoiSample rnd params type count fuel' (g, points, (k + 3)%nat)
      else st
  end.

(** [Math.pow(b, 1/3)]; [None] is the [NaN] of a negative base. *)
Definition pow_third (b : R) : option R :=
  if ltb 0 b then Some (Rpower b (1 / 3))
  else if ltb b 0 then None
  else Some 0.

(** [d < threshold], false against [NaN]. *)
Definition below (threshold : option R) (d : R) : bool :=
  match threshold with
  | Some t => ltb d t
  | None => false
  end.

Definition generateVolumeVoronoi (rnd : Oracle) (g : NetworkData)
    (params : FurnitureParams) (type : FurnitureType) : NetworkData :=
  let volumeApprox := width params * height params * depth params in
  let count := voronoiCount params in
  let '(g, points, _) :=
    voronoiSample rnd params type count (Z.to_nat (count * 10))
                  (g, [], O) in
  let avgDist := pow_third (volumeApprox / IZR count) in
  let threshold := option_map (fun a => a * 1.8) avgDist in
  linkClose (fun rest => rest)
            (fun a b => below threshold (distanceTo a b))
            points g.

(** ** Linear (skeleton) generators *)

Definition generateLinearChair (g : NetworkData) (params : FurnitureParams)
    : NetworkData :=
  let width := width params in
  let height := height params in
  let depth := depth params in
  let seatHeight := seatHeight params in
  let w2 := width / 2 in
  let d2 := depth / 2 in
  let '(g, fl_b) := addNode g (- w2) 0 d2 in
  let '(g, fr_b) := addNode g w2 0 d2 in
  let '(g, bl_b) := addNode g (- w2) 0 (- d2) in
  let '(g, br_b) := addNode g w2 0 (- d2) in
  let '(g, fl_s) := addNode g (- w2) seatHeight d2 in
  let '(g, fr_s) := addNode g w2 seatHeight d2 in
  let '(g, bl_s) := addNode g (- w2) seatHeight (- d2) in
  let '(g, br_s) := addNode g w2 seatHeight (- d2) in
  let '(g, bl_t) := addNode g (- w2) height (- d2) in
  let '(g, br_t) := addNode g w2 height (- d2) in
  let g := link g fl_b fl_s in let g := link g fr_b fr_s in
  let g := link g bl_b bl_s in let g := link g br_b br_s in
  let g := link g fl_s fr_s in let g := link g fr_s br_s in
  let g := link g br_s bl_s in let g := link g bl_s fl_s in
  let g := link g fl_s br_s in let g := link g fr_s bl_s in
  let g := link g bl_s bl_t in let g := link g br_s br_t in
  let g := link g bl_t br_t in
  let g := link g bl_t br_s in let g := link g br_t bl_s in
  let stretch_h := seatHeight * 0.3 in
  let '(g, fl_str) := addNode g (- w2) stretch_h d2 in
  let '(g, fr_str) := addNode g w2 stretch_h d2 in
  let '(g, bl_str) := addNode g (- w2) stretch_h (- d2) in
  let '(g, br_str) := addNode g w2 stretch_h (- d2) in
  let g := link g fl_str bl_str in
  link g fr_str br_str.

Definition generateLinearTable (g : NetworkData) (params : FurnitureParams)
    : NetworkData :=
  let width := width params in
  let height := height params in
  let depth := depth params in
  let w2 := width / 2 in
  let d2 := depth / 2 in
  let '(g, fl_b) := addNode g (- w2) 0 d2 in
  let '(g, fr_b) := addNode g w2 0 d2 in
  let '(g, bl_b) := addNode g (- w2) 0 (- d2) in
  let '(g, br_b) := addNode g w2 0 (- d2) in
  let '(g, fl_t) := addNode g (- w2) height d2 in
  let '(g, fr_t) := addNode g w2 height d2 in
  let '(g, bl_t) := addNode g (- w2) height (- d2) in
  let '(g, br_t) := addNode g w2 height (- d2) in
  let g := link g fl_b fl_t in let g := link g fr_b fr_t in
  let g := link g bl_b bl_t in let g := link g br_b br_t in
  let g := link g fl_t fr_t in let g := link g fr_t br_t in
  let g := link g br_t bl_t in let g := link g bl_t fl_t in
  let '(g, tm_f) := addNode g 0 height d2 in
  let '(g, tm_b) := addNode g 0 height (- d2) in
  let '(g, tm_l) := addNode g (- w2) height 0 in
  let '(g, tm_r) := addNode g w2 height 0 in
  let '(g, center) := addNode g 0 height 0 in
  let g := link g fl_t tm_f in let g := link g tm_f fr_t in
  let g := link g bl_t tm_b in let g := link g tm_b br_t in
  let g := link g fl_t tm_l in let g := link g tm_l bl_t in
  let g := link g fr_t tm_r in let g := link g tm_r br_t in
  let g := link g tm_l center in let g := link g center tm_r in
  let g := link g tm_f center in
  link g center tm_b.

(** [a[i]] on an array of node ids. *)
Definition at_ (a : list Z) (i : nat) : Z := nth i a 0%Z.

Definition generateLinearStool (g : NetworkData) (params : FurnitureParams)
    : NetworkData :=
  let width := width params in
  let height := height params in
  let radiusTop := width / 2 in
  let radiusBot := width / 1.5 in
  let steps := 4%nat in
  let '(g, botIndices, topIndices) :=
    fold_left
      (fun st i =>
         let '(g, botIndices, topIndices) := st in
         let theta := (INR i / INR steps) * PI * 2 + (PI / 4) in
         let '(g, b) :=
           addNode g (cos theta * radiusBot) 0 (sin theta * radiusBot) in
         let '(g, t) :=
           addNode g (cos theta * radiusTop) height (sin theta * radiusTop) in
         (g, botIndices ++ [b], topIndices ++ [t]))
      (seq 0 steps) (g, [], []) in
  fold_left
    (fun g i =>
       let next := ((i + 1) mod steps)%nat in
       let g := link g (at_ botIndices i) (at_ topIndices i) in
       let g := link g (at_ topIndices i) (at_ topIndices next) in
       let g := link g (at_ botIndices i) (at_ topIndices next) in
       let restH := height * 0.3 in
       let rRest := lerp radiusBot radiusTop 0.3 in
       let '(g, restA) :=
         addNode g (cos ((INR i / INR steps) * PI * 2 + PI / 4) * rRest)
                   restH
                   (sin ((INR i / INR steps) * PI * 2 + PI / 4) * rRest) in
       let '(g, restB) :=
         addNode g
           (cos (((INR i + 1) / INR steps) * PI * 2 + PI / 4) * rRest)
           restH
           (sin (((INR i + 1) / INR steps) * PI * 2 + PI / 4) * rRest) in
       link g restA restB)
    (seq 0 steps) g.

(** [nodes.length] as a node id. *)
Definition nodeCount (g : NetworkData) : Z := Z.of_nat (length (nodes g)).

(** The Bench branch of [generateFurniture] (inline in the source). *)
Definition generateLinearBench (g : NetworkData) (params : FurnitureParams)
    : NetworkData :=
  let width := width params in
  let height := height params in
  let depth := depth params in
  let w2 := width / 2 in
  let d2 := depth / 2 in
  let legs := 3%nat in
  let dx := width / (INR legs - 1) in
  fold_left
    (fun g i =>
       let x := - w2 + INR i * dx in
       let '(g, f_b) := addNode g x 0 d2 in
       let '(g, b_b) := addNode g x 0 (- d2) in
       let '(g, f_t) := addNode g x height d2 in
       let '(g, b_t) := addNode g x height (- d2) in
       let g := link g f_b f_t in
       let g := link g b_b b_t in
       let g := link g f_t b_t in
       if (0 <? i)%nat then
         let prev_f_t := (nodeCount g - 6)%Z in
         let prev_b_t := (nodeCount g - 5)%Z in
         let g := link g prev_f_t f_t in let g := link g prev_b_t b_t in
         let g := link g prev_f_t b_t in
         link g prev_b_t f_t
       else g)
    (seq 0 legs) g.

(** The Shelf branch of [generateFurniture] (inline in the source). *)
Definition generateLinearShelf (g : NetworkData) (params : FurnitureParams)
    : NetworkData :=
  let width := width params in
  let height := height params in
  let depth := depth params in
  let w2 := width / 2 in
  let d2 := depth / 2 in
  let levels := 4%nat in
  let dy := height / (INR levels - 1) in
  fold_left
    (fun g i =>
       let y := INR i * dy in
       let '(g, fl) := addNode g (- w2) y d2 in
       let '(g, fr) := addNode g w2 y d2 in
       let '(g, bl) := addNode g (- w2) y (- d2) in
       let '(g, br) := addNode g w2 y (- d2) in
       let g := link g fl fr in let g := link g fr br in
       let g := link g br bl in let g := link g bl fl in
       let g := link g fl br in let g := link g fr bl in
       if (0 <? i)%nat then
         let prev_fl := (nodeCount g - 8)%Z in
         let prev_fr := (nodeCount g - 7)%Z in
         let prev_bl := (nodeCount g - 6)%Z in
         let prev_br := (nodeCount g - 5)%Z in
         let g := link g prev_fl fl in let g := link g prev_fr fr in
         let g := link g prev_bl bl in
         link g prev_br br
       else g)
    (seq 0 levels) g.

(** The Vase branch of [generateFurniture] (inline in the source). *)
Definition generateLinearVase (g : NetworkData) (params : FurnitureParams)
    : NetworkData :=
  let width := width params in
  let height := height params in
  let rings := 8%nat in
  let segments := 6%nat in
  let baseRadius := width * 0.4 in
  fst
    (fold_left
       (fun st r =>
          let '(g, prevIndices) := st in
          let y := (INR r / (INR rings - 1)) * height in
          let bulge := sin ((INR r / (INR rings - 1)) * PI) * 0.3 in
          let rad := baseRadius + bulge + (INR r / INR rings) * 0.1 in
          let '(g, currentIndices) :=
            fold_left
              (fun st s =>
                 let '(g, currentIndices) := st in
                 let theta := (INR s / INR segments) * PI * 2 in
                 let twist := INR r * 0.2 in
                 let nx := cos (theta + twist) * rad in
                 let nz := sin (theta + twist) * rad in
                 let '(g, id) := addNode g nx y nz in
                 (g, currentIndices ++ [id]))
              (seq 0 segments) (g, []) in
          let g :=
            fold_left
              (fun g s =>
                 let nextS := ((s + 1) mod segments)%nat in
                 let g :=
                   link g (at_ currentIndices s) (at_ currentIndices nextS) in
                 if (0 <? r)%nat then
                   let g :=
                     link g (at_ prevIndices s) (at_ currentIndices s) in
                   link g (at_ prevIndices s) (at_ currentIndices nextS)
                 else g)
              (seq 0 segments) g in
          (g, currentIndices))
       (seq 0 rings) (g, [])).

(** The Lamp branch of [generateFurniture] (inline in the source). *)
Definition generateLinearLamp (g : NetworkData) (params : FurnitureParams)
    : NetworkData :=
  let width := width params in
  let height := height params in
  let layers := 16%nat in
  let radBase := width * 0.4 in
  let radTop := width * 0.25 in
  let pointsPerLayer := 9%nat in
  fst
    (fold_left
       (fun st i =>
          let '(g, prevLayerIds) := st in
          let t := INR i / INR layers in
          let y := t * height in
          let waist := 0.5 in
          let profile := 1 - sin (t * PI) * waist in
          let currentRad := lerp radBase radTop t * profile in
          let '(g, layerIds) :=
            fold_left
              (fun st j =>
                 let '(g, layerIds) := st in
                 let angle := (INR j / INR pointsPerLayer) * PI * 2 in
                 let noiseX := sin (angle * 3 + t * 10) * 0.1 * width in
                 let noiseZ := cos (angle * 5 - t * 8) * 0.1 * width in
                 let twist := t * PI * 4 in
                 let x := cos (angle + twist) * currentRad + noiseX in
                 let z := sin (angle + twist) * currentRad + noiseZ in
                 let '(g, id) := addNode g x y z in
                 (g, layerIds ++ [id]))
              (seq 0 pointsPerLayer) (g, []) in
          let g :=
            if (0 <? i)%nat then
              fold_left
                (fun g j =>
                   let curr := at_ layerIds j in
                   let prev := at_ prevLayerIds j in
                   let prevNext :=
                     at_ prevLayerIds ((j + 1) mod pointsPerLayer)%nat in
                   let g := link g curr prev in
                   let g := link g curr prevNext in
                   link g curr (at_ layerIds ((j + 1) mod pointsPerLayer)%nat))
                (seq 0 pointsPerLayer) g
            else
              fold_left
                (fun g j =>
                   link g (at_ layerIds j)
                          (at_ layerIds ((j + 1) mod pointsPerLayer)%nat))
                (seq 0 pointsPerLayer) g in
          (g, layerIds))
       (seq 0 (layers + 1)) (g, [])).

(** [grid[i][j]] on the Mobius id grid. *)
Definition at2 (grid : list (list Z)) (i j : nat) : Z :=
  at_ (nth i grid []) j.

(** The Mobius branch of [generateFurniture] (inline in the source). *)
Definition generateLinearMobius (g : NetworkData) (params : FurnitureParams)
    : NetworkData :=
  let width := width params in
  let height := height params in
  let depth := depth params in
  let R_ := width * 0.8 in
  let segmentsT := 64%nat in
  let segmentsS := 4%nat in
  let stripWidth := depth * 0.4 in
  let '(g, grid) :=
    fold_left
      (fun st i =>
         let '(g, grid) := st in
         let t := (INR i / INR segmentsT) * PI * 2 in
         let '(g, row) :=
           fold_left
             (fun st j =>
                let '(g, row) := st in
                let sNormalized := (INR j / INR segmentsS) - 0.5 in
                let s := sNormalized * stripWidth in
                let mx := (R_ + s * cos (t / 2)) * cos t in
                let my := (R_ + s * cos (t / 2)) * sin t in
                let mz := s * sin (t / 2) in
                let '(g, id) := addNode g mx (mz + height / 2) (my * 0.6) in
                (g, row ++ [id]))
             (seq 0 (segmentsS + 1)) (g, []) in
         (g, grid ++ [row]))
      (seq 0 segmentsT) (g, []) in
  let g :=
    fold_left
      (fun g i =>
         let nextI := ((i + 1) mod segmentsT)%nat in
         fold_left
           (fun g j =>
              let curr := at2 grid i j in
              let g :=
                if (nextI =? 0)%nat then
                  let nextJ := (segmentsS - j)%nat in
                  link g curr (at2 grid 0 nextJ)
                else link g curr (at2 grid nextI j) in
              if (j <? segmentsS)%nat then
                let g := link g curr (at2 grid i (j + 1)) in
                if negb (nextI =? 0)%nat
                then link g curr (at2 grid nextI (j + 1))
                else g
              else g)
           (seq 0 (segmentsS + 1)) g)
      (seq 0 segmentsT) g in
  mkNet
    (map (fun n => if ltb (vy n) 0 then vec3 (vx n) 0 (vz n) else n)
         (nodes g))
    (edges g).

(** ** The Recliner surface generator *)

(** Body of [surfacePoints.forEach] (sparse leg drops): one random draw per
    surface point, the first operand of [&&]. *)
Definition reclinerLeg (rnd : Oracle) (height : R)
    (st : NetworkData * nat) (p : Point) : NetworkData * nat :=
  let '(g, k) := st in
  if gtb (rnd k) 0.97 && ltb (vy (snd p)) (height * 0.5) then
    let '(g, legId) := addNode g (vx (snd p)) 0 (vz (snd p)) in
    (link g (fst p) legId, S k)
  else (g, S k).

Definition generateVoronoiReclinerOriginal (rnd : Oracle) (g : NetworkData)
    (params : FurnitureParams) : NetworkData :=
  let width := width params in
  let height := height params in
  let depth := depth params in
  let p0 := vec3 0 (height * 0.9) (- depth / 2) in
  let p1 := vec3 0 (height * 0.2) (- depth / 4) in
  let p2 := vec3 0 (height * 0.6) (depth / 4) in
  let p3 := vec3 0 (height * 0.3) (depth / 2) in
  let densityU := 30%nat in
  let densityV := 12%nat in
  let '(g, surfacePoints, k) :=
    fold_left
      (fun st i =>
         let '(g, surfacePoints, k) := st in
         let t := INR i / INR densityU in
         let spineY := vy (cubicBezierPoint p0 p1 p2 p3 t) in
         let spineZ := lerp (- depth / 2) (depth / 2) t in
         let jitterZ := (rnd k - 0.5) * (depth / INR densityU) * 0.8 in
         fold_left
           (fun st j =>
              let '(g, surfacePoints, k) := st in
              let u := INR j / INR densityV in
              let x := (u - 0.5) * width in
              let jitterX := (rnd k - 0.5) * (width / INR densityV) * 0.8 in
              let finalX := x + jitterX in
              let finalZ := spineZ + jitterZ in
              let cradle := cos ((u - 0.5) * PI) * -0.1 * width in
              let finalY := spineY + cradle in
              let '(g, id) := addNode g finalX finalY finalZ in
              (g, surfacePoints ++ [(id, vec3 finalX finalY finalZ)], S k))
           (seq 0 (densityV + 1)) (g, surfacePoints, S k))
      (seq 0 (densityU + 1)) (g, [], O) in
  let connectionDist := (width / INR densityV) * 1.8 in
  let windowSize := (densityV * 3)%nat in
  let g :=
    linkClose (firstn (windowSize - 1))
              (fun a b => ltb (distanceTo a b) connectionDist)
              surfacePoints g in
  fst (fold_left (reclinerLeg rnd height) surfacePoints (g, k)).

(** ** Main export *)

Definition emptyNet : NetworkData := mkNet [] [].

Definition generateFurniture (rnd : Oracle) (type : FurnitureType)
    (params : FurnitureParams) : NetworkData :=
  let g := emptyNet in
  match pattern params with
  | Gyroid => generateVolumeGyroid g params type
  | Triangular => generateVolumeTriangular g params type
  | Voronoi => generateVolumeVoronoi rnd g params type
  | Linear =>
      match type with
      | Chair => generateLinearChair g params
      | Table => generateLinearTable g params
      | Stool => generateLinearStool g params
      | Recliner => generateVoronoiReclinerOriginal rnd g params
      | Bench => generateLinearBench g params
      | Shelf => generateLinearShelf g params
      | Vase => generateLinearVase g params
      | Lamp => generateLinearLamp g params
      | Mobius => generateLinearMobius g params
      end
  end.

(** ** Serpentine utilities *)

(** [Quaternion] of three.js: [setFromAxisAngle] and
    [Vector3.applyQuaternion], by the library's formulas. *)
Record Quaternion : Type := quat { qx : R; qy : R; qz : R; qw : R }.

Definition setFromAxisAngle (axis : Vector3) (angle : R) : Quaternion :=
  let halfAngle := angle / 2 in
  let s := sin halfAngle in
  quat (vx axis * s) (vy axis * s) (vz axis * s) (cos halfAngle).

Definition applyQuaternion (v : Vector3) (q : Quaternion) : Vector3 :=
  let tx := 2 * (qy q * vz v - qz q * vy v) in
  let ty := 2 * (qz q * vx v - qx q * vz v) in
  let tz := 2 * (qx q * vy v - qy q * vx v) in
  vec3 (vx v + qw q * tx + qy q * tz - qz q * ty)
       (vy v + qw q * ty + qz q * tx - qx q * tz)
       (vz v + qw q * tz + qx q * ty - qy q * tx).

Definition safeUnit (v fallback : Vector3) : Vector3 :=
  let len := v_length v in
  if ltb len 1e-9 then fallback
  else multiplyScalar v (1 / len).

(** The default [fallback] of [safeUnit]. *)
Definition unitX : Vector3 := vec3 1 0 0.

Definition initialNormalFromTangent (t : Vector3) : Vector3 :=
  let tn := safeUnit t unitX in
  let up := vec3 0 0 1 in
  let up := if gtb (Rabs (v_dot tn up)) 0.92 then vec3 1 0 0 else up in
  let n := crossVectors tn up in
  safeUnit n (vec3 0 1 0).

Definition transportNormal (prevT currT prevN : Vector3) : Vector3 :=
  let a := safeUnit prevT unitX in
  let b := safeUnit currT unitX in
  let axis := crossVectors a b in
  let axisLen := v_length axis in
  if ltb axisLen 1e-9 then prevN
  else
    let axis := multiplyScalar axis (1 / axisLen) in
    let dot := clamp (v_dot a b) (-1) 1 in
    let angle := acos dot in
    let q := setFromAxisAngle axis angle in
    let n := applyQuaternion prevN q in
    let n := addScaledVector n b (- v_dot n b) in
    safeUnit n prevN.

Definition sampleBezier (p0 h0 h1 p3 : Vector3) (samples : nat)
    : list Vector3 :=
  map (fun i => cubicBezierPoint p0 h0 h1 p3 (INR i / INR samples))
      (seq 0 (samples + 1)).

(** [points[i]] *)
Definition pointAt (points : list Vector3) (i : nat) : Vector3 :=
  nth i points (vec3 0 0 0).

(** The cumulative arc lengths [cum] and their last value [total]. *)
Definition arcLengths (points : list Vector3) : list R * R :=
  fold_left
    (fun st i =>
       let '(cum, total) := st in
       let total :=
         total + distanceTo (pointAt points (i + 1)) (pointAt points i) in
       (cum ++ [total], total))
    (seq 0 (length points - 1)) ([0], 0).

(** The taper envelope at normalised position [u]. *)
Definition taperEnvelope (taperFraction u : R) : R :=
  let envelope := 1.0 in
  if gtb taperFraction 0 then
    let envelope :=
      if ltb u taperFraction then u / taperFraction
      else if gtb u (1 - taperFraction) then (1 - u) / taperFraction
      else envelope in
    envelope * envelope * (3 - 2 * envelope)
  else envelope.

(** Body of the displacement loop; the state is [(out, prevT, prevN)]. *)
Definition serpentineStep (points : list Vector3) (cum : list R)
    (total frequency amplitude taperFraction : R)
    (st : list Vector3 * Vector3 * Vector3) (i : nat)
    : list Vector3 * Vector3 * Vector3 :=
  let '(out, prevT, prevN) := st in
  let len := length points in
  let t :=
    if (i =? 0)%nat then v_sub (pointAt points 1) (pointAt points 0)
    else if (i =? len - 1)%nat
         then v_sub (pointAt points (len - 1)) (pointAt points (len - 2))
         else v_sub (pointAt points (i + 1)) (pointAt points (i - 1)) in
  let n := transportNormal prevT t prevN in
  let u := nth i cum 0 / total in
  let envelope := taperEnvelope taperFraction u in
  let theta := (PI * 2) * frequency * u in
  let disp := sin theta * amplitude * envelope in
  (out ++ [addScaledVector (pointAt points i) n disp], t, n).

(** [taperFraction] defaults to [0.15] in the source. *)
Definition serpentinize (points : list Vector3)
    (frequency amplitude taperFraction : R) : list Vector3 :=
  if (length points <? 3)%nat then points
  else
    let '(cum, total) := arcLengths points in
    if ltb total 1e-9 then points
    else
      let prevT := v_sub (pointAt points 1) (pointAt points 0) in
      let prevN := initialNormalFromTangent prevT in
      let '(out, _, _) :=
        fold_left
          (serpentineStep points cum total frequency amplitude taperFraction)
          (seq 0 (length points)) ([], prevT, prevN) in
      out.

(** ** Vocabulary of the properties *)

(** An edge is valid in a graph of [n] nodes when both ends are node ids
    and differ. *)
Definition valid_edge (n : Z) (e : Z * Z) : Prop :=
  (0 <= fst e < n)%Z /\ (0 <= snd e < n)%Z /\ fst e <> snd e.

Definition wf_net (g : NetworkData) : Prop :=
  Forall (valid_edge (nodeCount g)) (edges g).

(** The same, as a check that computes. *)
Definition edge_ok (n : Z) (e : Z * Z) : bool :=
  ((0 <=? fst e) && (fst e <? n) && (0 <=? snd e) && (snd e <? n)
   && negb (fst e =? snd e))%Z.

Definition net_ok (g : NetworkData) : bool :=
  forallb (edge_ok (nodeCount g)) (edges g).

(** [nodes[i]] for a node id. *)
Definition nodeAt (g : NetworkData) (i : Z) : Vector3 :=
  nth (Z.to_nat i) (nodes g) (vec3 0 0 0).

(** The grid positions a sampling pass visits, in loop order. *)
Definition cells (xs ys zs : list Z) : list (Z * Z * Z) :=
  flat_map (fun x => flat_map (fun y => map (fun z => (x, y, z)) zs) ys) xs.

(** The common shape of the two sampling passes: a kept grid point becomes
    a node at its world position and is entered in the map. *)
Definition sampleCell (keep : Z -> Z -> Z -> bool)
    (pos : Z -> Z -> Z -> R * R * R) (nx ny : Z)
    (st : NetworkData * NodeMap) (c : Z * Z * Z) : NetworkData * NodeMap :=
  let '(x, y, z) := c in
  if keep x y z then
    let '(wx, wy, wz) := pos x y z in
    (fst (addNode (fst st) wx wy wz),
     map_set (snd st) (idx nx ny x y z) (nodeCount (fst st)))
  else st.

(** The Gyroid generator keeps a grid point when it passes the classifier
    and the surface value is within the shell threshold. *)
Definition gyroidKeep (params : FurnitureParams) (type : FurnitureType)
    (x y z : Z) : bool :=
  let '(wx, wy, wz) := gyroidPos params x y z in
  isInsideFurniture type wx wy wz params
  && ltb (Rabs (gyroidVal wx wy wz)) 0.5.

Definition triangularKeep (params : FurnitureParams) (type : FurnitureType)
    (x y z : Z) : bool :=
  let '(wx, wy, wz) := triangularPos params x y z in
  isInsideFurniture type wx wy wz params.

(** Map entries refer to nodes, to non-negative grid ids of a grid with
    non-negative strides, and no two entries share a node. *)
Definition entries_ok (nx ny n : Z) (m : NodeMap) : Prop :=
  (forall k v, In (k, v) m ->
               (0 <= v < n)%Z /\ (0 <= k)%Z /\ (0 <= nx)%Z /\ (0 <= ny)%Z)
  /\ NoDup (map snd m).

(** Scattered points carry node ids in increasing order. *)
Definition points_ok (n : Z) (points : list Point) : Prop :=
  Forall (fun p => (0 <= fst p < n)%Z) points
  /\ StronglySorted Z.lt (map fst points).

(** The arc length of a polyline: the sum of its segment lengths. *)
Fixpoint pathLength (points : list Vector3) : R :=
  match points with
  | [] => 0
  | p :: rest =>
      match rest with
      | [] => 0
      | q :: _ => distanceTo q p + pathLength rest
      end
  end.

(** The invariant of a sampling pass. *)
Definition grid_inv (nx ny : Z) (st : NetworkData * NodeMap) : Prop :=
  wf_net (fst st) /\ entries_ok nx ny (nodeCount (fst st)) (snd st).

(** The invariant of a scattering pass. *)
Definition scatter_inv (g : NetworkData) (points : list Point) : Prop :=
  wf_net g /\ points_ok (nodeCount g) points.

(** After sampling, grid point [c] has a node at its world position and
    the map sends its grid id to that node. *)
Definition has_node (pos : Z -> Z -> Z -> R * R * R) (nx ny : Z)
    (c : Z * Z * Z) (st : NetworkData * NodeMap) : Prop :=
  let '(x, y, z) := c in
  let '(wx, wy, wz) := pos x y z in
  exists v : Z,
    map_get (snd st) (idx nx ny x y z) = Some v
    /\ (0 <= v < nodeCount (fst st))%Z
    /\ nodeAt (fst st) v = vec3 wx wy wz.

(** The dimensions the scene starts with ([components/SensingScene.tsx]). *)
Definition sceneDefaults (p : FurniturePattern) : FurnitureParams :=
  mkParams 0.6 0.9 0.6 0.45 p.

(** ** noise.ts: value noise *)

Module Noise.

(** [hash3i] on arguments that are themselves results of double
    arithmetic ([xi + 1]); on finite integers it is [hash3i]. *)
Definition hash3i_bits_of (x y z : jsint) : Z :=
  let n := js_add (js_add (js_mul x 374761393)
                          (js_mul y 668265263))
                  (js_mul z 2147483647) in
  let n := xorshift n 13 in
  let n := ToUint32 (js_mul (Fin n) 1274126177) in
  xorshift (Fin n) 16.

Definition hash3i_of (x y z : jsint) : R :=
  IZR (hash3i_bits_of x y z) / 4294967296.

Definition smoothstep (t : R) : R := t * t * (3 - 2 * t).

Definition lerp (a b t : R) : R := a + (b - a) * t.

(** [xi + 1] on the double [xi]. *)
Definition succ_double (xi : Z) : jsint := to_double (xi + 1).

Definition noise3 (x y z : R) : R :=
  let xi := Zfloor x in
  let yi := Zfloor y in
  let zi := Zfloor z in
  let xf := x - IZR xi in
  let yf := y - IZR yi in
  let zf := z - IZR zi in
  let u := smoothstep xf in
  let v := smoothstep yf in
  let w := smoothstep zf in
  let v000 := hash3i_of (Fin xi) (Fin yi) (Fin zi) in
  let v100 := hash3i_of (succ_double xi) (Fin yi) (Fin zi) in
  let v010 := hash3i_of (Fin xi) (succ_double yi) (Fin zi) in
  let v110 := hash3i_of (succ_double xi) (succ_double yi) (Fin zi) in
  let v001 := hash3i_of (Fin xi) (Fin yi) (succ_double zi) in
  let v101 := hash3i_of (succ_double xi) (Fin yi) (succ_double zi) in
  let v011 := hash3i_of (Fin xi) (succ_double yi) (succ_double zi) in
  let v111 := hash3i_of (succ_double xi) (succ_double yi) (succ_double zi) in
  let x00 := lerp v000 v100 u in
  let x10 := lerp v010 v110 u in
  let x01 := lerp v001 v101 u in
  let x11 := lerp v011 v111 u in
  let y0 := lerp x00 x10 v in
  let y1 := lerp x01 x11 v in
  lerp y0 y1 w.

Definition noiseVec3 (p : Vector3) (scale : R) : Vector3 :=
  let x := noise3 (vx p * scale + 12.7) (vy p * scale + 78.2)
                  (vz p * scale + 3.1) in
  let y := noise3 (vx p * scale + 45.1) (vy p * scale + 10.5)
                  (vz p * scale + 91.7) in
  let z := noise3 (vx p * scale + 8.3) (vy p * scale + 63.9)
                  (vz p * scale + 27.4) in
  vec3 (x - 0.5) (y - 0.5) (z - 0.5).

End Noise.

(** ** SensingScene.tsx: the path of one strut

    The geometric part of the [data.edges.forEach] body of [rebuild]: from
    the two joint positions to the points handed to the tube builder;
    [None] where the body returns early. *)






(** ** Vocabulary of the further properties *)

Definition unit_vector (v : Vector3) : Prop := v_length v = 1.

(** The world position of a grid point, as a node. *)
Definition posVec (pos : Z -> Z -> Z -> R * R * R) (c : Z * Z * Z)
    : Vector3 :=
  let '(x, y, z) := c in
  let '(wx, wy, wz) := pos x y z in
  vec3 wx wy wz.

Definition keepAt (keep : Z -> Z -> Z -> bool) (c : Z * Z * Z) : bool :=
  let '(x, y, z) := c in keep x y z.

Definition idxAt (nx ny : Z) (c : Z * Z * Z) : Z :=
  let '(x, y, z) := c in idx nx ny x y z.

(** The grid of the Gyroid generator. *)
Definition gyroidNx (params : FurnitureParams) : Z :=
  (Zceil (width params / gyroidRes) + 2)%Z.
Definition gyroidNy (params : FurnitureParams) : Z :=
  (Zceil (height params / gyroidRes) + 2)%Z.
Definition gyroidNz (params : FurnitureParams) : Z :=
  (Zceil (depth params / gyroidRes) + 2)%Z.
Definition gyroidCells (params : FurnitureParams) : list (Z * Z * Z) :=
  cells (range (gyroidNx params)) (range (gyroidNy params))
        (range (gyroidNz params)).

(** The grid of the Triangular generator (both bounds included). *)
Definition triangularNx (params : FurnitureParams) : Z :=
  Zceil (width params / cellSize).
Definition triangularNy (params : FurnitureParams) : Z :=
  Zceil (height params / cellSize).
Definition triangularNz (params : FurnitureParams) : Z :=
  Zceil (depth params / cellSize).
Definition triangularCells (params : FurnitureParams) : list (Z * Z * Z) :=
  cells (range (triangularNx params + 1)) (range (triangularNy params + 1))
        (range (triangularNz params + 1)).

(** [c'] is the +x, +y or +z grid neighbour of [c]. *)
Definition grid_neighbour (c c' : Z * Z * Z) : Prop :=
  let '(x, y, z) := c in
  c' = ((x + 1)%Z, y, z) \/ c' = (x, (y + 1)%Z, z) \/ c' = (x, y, (z + 1)%Z).

(** The distance threshold of the Voronoi generator; [None] is [NaN]. *)
Definition voronoiThreshold (params : FurnitureParams) : option R :=
  let volumeApprox := width params * height params * depth params in
  option_map (fun a => a * 1.8)
             (pow_third (volumeApprox / IZR (voronoiCount params))).

(** The pairs the two nested loops of [linkClose] link, in order, when the
    inner loop visits every later point. *)
Fixpoint closePairs (close : Vector3 -> Vector3 -> bool)
    (points : list Point) : list (Z * Z) :=
  match points with
  | [] => []
  | p :: rest =>
      map (fun q => (fst p, fst q))
          (filter (fun q => close (snd p) (snd q)) rest)
      ++ closePairs close rest
  end.

(** Scattered points numbered as the nodes are. *)
Definition indexedNodes (g : NetworkData) : list Point :=
  map (fun i => (Z.of_nat i, nth i (nodes g) (vec3 0 0 0)))
      (seq 0 (length (nodes g))).

(** The displacement [serpentinize] applies at sample [i]. *)
Definition serpentineDisp (cum : list R)
    (total frequency amplitude taperFraction : R) (i : nat) : R :=
  let u := nth i cum 0 / total in
  let envelope := taperEnvelope taperFraction u in
  let theta := (PI * 2) * frequency * u in
  sin theta * amplitude * envelope.

(** ** The generators over the values a run computes

    The volumetric generators above evaluate quotients, products, grid
    positions and comparisons on exact reals.  The code evaluates them on
    binary64 numbers, where a quotient such as [0.56 / 0.08] or a product
    such as [0.41 * 600] can land on the other side of an integer, and a
    grid position on the other side of a box face.  The definitions below
    are the same loops with those values left as parameters: the size of
    the grid, the world position and the keep decision of a grid point, the
    target count of the scattering loop and its closeness test.  A property
    proved for all values of the parameters holds whichever values a run
    computes; the generators above are the instances at the exact values
    ([generateVolumeGyroid_on], [generateVolumeTriangular_on],
    [generateVolumeVoronoi_on]). *)

(** [generateVolumeGyroid] on an [nx * ny * nz] grid: the sampling loops
    turn each kept grid point into a node at its position, the
    [nodeMap.forEach] pass links the +x, +y and +z grid ids. *)
Definition gyroidGraphOn (keep : Z -> Z -> Z -> bool)
    (pos : Z -> Z -> Z -> R * R * R) (nx ny nz : Z) : NetworkData :=
  let '(g, nodeMap) :=
    gridLoop (range nx) (range ny) (range nz)
             (fun x y z st => sampleCell keep pos nx ny st (x, y, z))
             (emptyNet, []) in
  fold_left (gyroidConnect nx ny nodeMap) nodeMap g.

(** [generateVolumeTriangular] for the cell counts [nx], [ny], [nz]: the
    sampling loops include both bounds, [idx] keeps the stride [nx]. *)
Definition triangularGraphOn (keep : Z -> Z -> Z -> bool)
    (pos : Z -> Z -> Z -> R * R * R) (nx ny nz : Z) : NetworkData :=
  let '(g, nodeMap) :=
    gridLoop (range (nx + 1)) (range (ny + 1)) (range (nz + 1))
             (fun x y z st => sampleCell keep pos nx ny st (x, y, z))
             (emptyNet, []) in
  fold_left (triangularConnect nx ny nodeMap) nodeMap g.

(** [generateVolumeVoronoi] for a target [count] and a closeness test
    [close a b] (in the code [a.distanceTo(b) < threshold]). *)
Definition voronoiGraphOn (rnd : Oracle) (params : FurnitureParams)
    (type : FurnitureType) (count : Z)
    (close : Vector3 -> Vector3 -> bool) : NetworkData :=
  let '(g, points, _) :=
    voronoiSample rnd params type count (Z.to_nat (count * 10))
                  (emptyNet, [], O) in
  linkClose (fun rest => rest) close points g.

(* ================================================================== *)
(** * Part II: properties                                              *)
(* ================================================================== *)

(** ** Boolean comparisons *)

Lemma ltb_true_iff (a b : R) : ltb a b = true <-> a < b.
Proof. unfold ltb; destruct (Rlt_dec a b); split; intros; auto; discriminate. Qed.

Lemma ltb_false_iff (a b : R) : ltb a b = false <-> b <= a.
Proof.
  unfold ltb; destruct (Rlt_dec a b); split; intros; auto; try discriminate; lra.
Qed.

Lemma leb_true_iff (a b : R) : leb a b = true <-> a <= b.
Proof. unfold leb; destruct (Rle_dec a b); split; intros; auto; discriminate. Qed.

Lemma leb_false_iff (a b : R) : leb a b = false <-> b < a.
Proof.
  unfold leb; destruct (Rle_dec a b); split; intros; auto; try discriminate; lra.
Qed.

(** ** The lattice hash *)

Example hash3i_bits_origin : hash3i_bits 0 0 0 = 0%Z.
Proof. vm_compute. reflexivity. Qed.

Example hash3i_bits_123 : hash3i_bits 1 2 3 = 1285237403%Z.
Proof. vm_compute. reflexivity. Qed.

Example round53_tie_to_even :
  round53 (2 ^ 53 + 1) = (2 ^ 53)%Z /\ round53 (2 ^ 53 + 3) = (2 ^ 53 + 4)%Z.
Proof. split; vm_compute; reflexivity. Qed.

Lemma ToUint32_range (a : jsint) : (0 <= ToUint32 a < 2 ^ 32)%Z.
Proof.
  destruct a as [v|]; simpl.
  - apply Z.mod_pos_bound. lia.
  - lia.
Qed.

Lemma hash3i_bits_range (x y z : Z) : (0 <= hash3i_bits x y z < 2 ^ 32)%Z.
Proof. unfold hash3i_bits, xorshift. apply ToUint32_range. Qed.

(** C5. For all integers [x], [y], [z] the lattice hash is a function of its
    arguments alone (equal arguments give equal results) and its value, the
    mixed 32-bit word divided by 2^32, lies in the half-open interval
    [0, 1). *)
Theorem hash3i_deterministic_unit_interval :
  forall x y z : Z,
    (forall x' y' z' : Z,
        x = x' -> y = y' -> z = z' -> hash3i x y z = hash3i x' y' z')
    /\ 0 <= hash3i x y z < 1.
Proof.
  intros x y z. split.
  - intros x' y' z' -> -> ->. reflexivity.
  - unfold hash3i.
    destruct (hash3i_bits_range x y z) as [Hlo Hhi].
    apply IZR_le in Hlo. apply IZR_lt in Hhi.
    change (IZR (2 ^ 32)) with 4294967296 in Hhi.
    split.
    + apply Rmult_le_reg_r with 4294967296; [lra|].
      unfold Rdiv. rewrite Rmult_assoc, Rinv_l by lra. lra.
    + apply Rmult_lt_reg_r with 4294967296; [lra|].
      unfold Rdiv. rewrite Rmult_assoc, Rinv_l by lra. lra.
Qed.

Lemma hash3i_deterministic_unit_interval_witness :
  hash3i 1 2 3 = hash3i 1 2 3 /\ 0 <= hash3i 1 2 3 < 1.
Proof.
  split.
  - apply (proj1 (hash3i_deterministic_unit_interval 1 2 3) 1%Z 2%Z 3%Z);
      reflexivity.
  - apply (proj2 (hash3i_deterministic_unit_interval 1 2 3)).
Defined.

(** ** Frame transport and serpentine deformation *)

Lemma tiny_positive : 0 < 1e-9.
Proof. lra. Qed.

Lemma crossVectors_self (a : Vector3) : crossVectors a a = vec3 0 0 0.
Proof. unfold crossVectors. f_equal; ring. Qed.

Lemma v_length_zero : v_length (vec3 0 0 0) = 0.
Proof.
  unfold v_length; simpl.
  replace (0 * 0 + 0 * 0 + 0 * 0) with 0 by ring. apply sqrt_0.
Qed.

(** C9. With equal previous and current tangents the rotation axis, the
    cross product of the two normalised tangents, has length 0, which is
    below the parallel-tangent guard, and [transportNormal] returns the
    previous normal unchanged, for every tangent and every normal. *)
Theorem transportNormal_same_tangent :
  forall t prevN : Vector3,
    v_length (crossVectors (safeUnit t unitX) (safeUnit t unitX)) = 0
    /\ transportNormal t t prevN = prevN.
Proof.
  intros t prevN.
  assert (H0 : v_length (crossVectors (safeUnit t unitX) (safeUnit t unitX)) = 0)
    by (rewrite crossVectors_self; apply v_length_zero).
  split; [exact H0|].
  unfold transportNormal. cbv zeta. rewrite H0.
  replace (ltb 0 1e-9) with true; [reflexivity|].
  symmetry. apply ltb_true_iff. exact tiny_positive.
Qed.

Lemma addScaledVector_zero (p n : Vector3) : addScaledVector p n 0 = p.
Proof.
  destruct p as [x y z]. unfold addScaledVector; simpl. f_equal; ring.
Qed.

Lemma map_pointAt_seq (points : list Vector3) :
  map (pointAt points) (seq 0 (length points)) = points.
Proof.
  apply nth_ext with (d := vec3 0 0 0) (d' := vec3 0 0 0).
  - rewrite length_map, length_seq. reflexivity.
  - intros n Hn. rewrite length_map, length_seq in Hn.
    rewrite nth_indep with (d' := pointAt points 0)
      by (rewrite length_map, length_seq; exact Hn).
    rewrite map_nth with (f := pointAt points) (d := 0%nat).
    rewrite seq_nth by exact Hn. reflexivity.
Qed.

(** With zero amplitude every step of the displacement loop appends the
    input point itself. *)
Lemma serpentine_loop_zero_amplitude
      (points : list Vector3) (cum : list R) (total frequency taper : R) :
  forall (ixs : list nat) (out : list Vector3) (prevT prevN : Vector3),
    fst (fst (fold_left
                (serpentineStep points cum total frequency 0 taper)
                ixs (out, prevT, prevN)))
    = out ++ map (pointAt points) ixs.
Proof.
  induction ixs as [|i ixs IH]; intros out prevT prevN; simpl.
  - rewrite app_nil_r. reflexivity.
  - rewrite IH. rewrite <- app_assoc. simpl.
    replace (sin (PI * 2 * frequency * (nth i cum 0 / total)) * 0
             * taperEnvelope taper (nth i cum 0 / total)) with 0 by ring.
    rewrite addScaledVector_zero. reflexivity.
Qed.

(** The [total] that [serpentinize] accumulates is the arc length. *)
Lemma arcLengths_fold (l pre : list Vector3) :
  forall (cum : list R) (t : R),
    snd (fold_left
           (fun st i =>
              let '(cum, total) := st in
              let total :=
                total + distanceTo (pointAt (pre ++ l) (i + 1))
                                   (pointAt (pre ++ l) i) in
              (cum ++ [total], total))
           (seq (length pre) (length l - 1)) (cum, t))
    = t + pathLength l.
Proof.
  revert pre. induction l as [|p l IH]; intros pre cum t.
  - simpl. ring.
  - destruct l as [|q l'].
    + simpl. ring.
    + change (length (p :: q :: l') - 1)%nat with (S (length l')).
      rewrite <- cons_seq. cbn [fold_left].
      assert (Hp : pointAt (pre ++ p :: q :: l') (length pre) = p)
        by (unfold pointAt; apply nth_middle).
      assert (Hq : pointAt (pre ++ p :: q :: l') (length pre + 1) = q).
      { unfold pointAt.
        replace (pre ++ p :: q :: l') with ((pre ++ [p]) ++ q :: l')
          by (rewrite <- app_assoc; reflexivity).
        replace (length pre + 1)%nat with (length (pre ++ [p]))
          by (rewrite length_app; reflexivity).
        apply nth_middle. }
      specialize (IH (pre ++ [p]) (cum ++ [t + distanceTo q p])
                     (t + distanceTo q p)).
      replace ((pre ++ [p]) ++ q :: l') with (pre ++ p :: q :: l') in IH
        by (rewrite <- app_assoc; reflexivity).
      replace (length (pre ++ [p])) with (S (length pre)) in IH
        by (rewrite length_app; simpl; lia).
      change (length (q :: l') - 1)%nat with (length l' - 0)%nat in IH.
      rewrite Nat.sub_0_r in IH.
      change (pathLength (p :: q :: l'))
        with (distanceTo q p + pathLength (q :: l')).
      rewrite <- Rplus_assoc. rewrite <- IH.
      f_equal. f_equal. rewrite Hp, Hq. reflexivity.
Qed.

Lemma arcLengths_total (points : list Vector3) :
  snd (arcLengths points) = pathLength points.
Proof.
  unfold arcLengths.
  pose proof (arcLengths_fold points [] [0] 0) as H.
  cbn [app length] in H. rewrite H. ring.
Qed.

(** C7. A polyline of fewer than three points, and a polyline whose total
    arc length is below 1e-9, is returned as it is, whatever the frequency,
    the amplitude and the taper fraction. *)
Theorem serpentinize_degenerate_unchanged :
  forall (points : list Vector3) (frequency amplitude taperFraction : R),
    (length points < 3)%nat \/ pathLength points < 1e-9 ->
    serpentinize points frequency amplitude taperFraction = points.
Proof.
  intros points frequency amplitude taperFraction H.
  unfold serpentinize.
  destruct (length points <? 3)%nat eqn:Hlen; [reflexivity|].
  destruct H as [H|H].
  - apply Nat.ltb_ge in Hlen. lia.
  - rewrite <- arcLengths_total in H.
    destruct (arcLengths points) as [cum total]. simpl in H.
    apply ltb_true_iff in H. rewrite H. reflexivity.
Qed.

Lemma distanceTo_self (p : Vector3) : distanceTo p p = 0.
Proof.
  unfold distanceTo.
  replace ((vx p - vx p) * (vx p - vx p) + (vy p - vy p) * (vy p - vy p)
           + (vz p - vz p) * (vz p - vz p)) with 0 by ring.
  apply sqrt_0.
Qed.

Lemma serpentinize_degenerate_unchanged_witness :
  serpentinize [vec3 0 0 0; vec3 1 2 3] 4 0.05 0.15
  = [vec3 0 0 0; vec3 1 2 3]
  /\ serpentinize [vec3 1 2 3; vec3 1 2 3; vec3 1 2 3] 4 0.05 0.15
     = [vec3 1 2 3; vec3 1 2 3; vec3 1 2 3].
Proof.
  split.
  - apply serpentinize_degenerate_unchanged. left. simpl. lia.
  - apply serpentinize_degenerate_unchanged. right.
    simpl. rewrite distanceTo_self. lra.
Defined.

(** C8. With amplitude 0 the output polyline is the input polyline, for
    every input, frequency and taper fraction: each displacement is
    [sin(theta) * 0 * envelope = 0]. *)
Theorem serpentinize_zero_amplitude :
  forall (points : list Vector3) (frequency taperFraction : R),
    serpentinize points frequency 0 taperFraction = points.
Proof.
  intros points frequency taperFraction.
  unfold serpentinize.
  destruct (length points <? 3)%nat; [reflexivity|].
  destruct (arcLengths points) as [cum total].
  destruct (ltb total 1e-9); [reflexivity|].
  pose proof (serpentine_loop_zero_amplitude points cum total frequency
                taperFraction (seq 0 (length points)) []
                (v_sub (pointAt points 1) (pointAt points 0))
                (initialNormalFromTangent
                   (v_sub (pointAt points 1) (pointAt points 0)))) as H.
  destruct (fold_left _ _ _) as [[out pT] pN]. simpl in H.
  rewrite H. apply map_pointAt_seq.
Qed.

(** ** Well-formed graphs: general facts *)

Lemma edge_ok_valid (n : Z) (e : Z * Z) : edge_ok n e = true -> valid_edge n e.
Proof.
  unfold edge_ok, valid_edge. intros H.
  repeat (apply andb_prop in H; destruct H as [H ?]).
  apply negb_true_iff in H0.
  lia.
Qed.

Lemma net_ok_wf (g : NetworkData) : net_ok g = true -> wf_net g.
Proof.
  unfold net_ok, wf_net. intros H. apply Forall_forall. intros e He.
  apply edge_ok_valid. rewrite forallb_forall in H. auto.
Qed.

Lemma valid_edge_mono (n n' : Z) (e : Z * Z) :
  (n <= n')%Z -> valid_edge n e -> valid_edge n' e.
Proof. unfold valid_edge. intros. lia. Qed.

Lemma nodeCount_addNode (g : NetworkData) (x y z : R) :
  nodeCount (fst (addNode g x y z)) = (nodeCount g + 1)%Z.
Proof. unfold nodeCount, addNode. simpl. rewrite length_app. simpl. lia. Qed.

Lemma nodeCount_nonneg (g : NetworkData) : (0 <= nodeCount g)%Z.
Proof. unfold nodeCount. lia. Qed.

Lemma wf_net_addNode (g : NetworkData) (x y z : R) :
  wf_net g -> wf_net (fst (addNode g x y z)).
Proof.
  unfold wf_net. intros H. rewrite nodeCount_addNode. simpl.
  eapply Forall_impl; [|exact H]. intros e. apply valid_edge_mono. lia.
Qed.

Lemma wf_net_link (g : NetworkData) (a b : Z) :
  wf_net g -> (0 <= a < nodeCount g)%Z -> (0 <= b < nodeCount g)%Z ->
  a <> b -> wf_net (link g a b).
Proof.
  unfold wf_net, link. simpl. intros H Ha Hb Hab.
  apply Forall_app. split; [exact H|].
  constructor; [|constructor]. unfold valid_edge. simpl. auto.
Qed.

Lemma wf_net_empty : wf_net emptyNet.
Proof. constructor. Qed.

(** An invariant of a loop body is an invariant of the loop. *)
Lemma fold_left_invariant {S A : Type} (P : S -> Prop) (f : S -> A -> S)
      (l : list A) :
  (forall st a, In a l -> P st -> P (f st a)) ->
  forall st, P st -> P (fold_left f l st).
Proof.
  induction l as [|a l IH]; intros Hf st Hst; simpl; [exact Hst|].
  apply IH.
  - intros st' b Hb. apply Hf. right. exact Hb.
  - apply Hf; [left; reflexivity | exact Hst].
Qed.

(** ** The skeletal builders, by evaluation

    Their edge lists do not depend on the dimensions: the check runs on the
    graph with the coordinates left symbolic. *)

Lemma skeletal_wf (rnd : Oracle) (type : FurnitureType) (w h d s : R) :
  type <> Recliner ->
  wf_net (generateFurniture rnd type (mkParams w h d s Linear)).
Proof.
  intros Hr. apply net_ok_wf.
  destruct type; try reflexivity. contradiction Hr. reflexivity.
Qed.

Example stool_linear_edge_count (rnd : Oracle) (w h d s : R) :
  length (edges (generateFurniture rnd Stool (mkParams w h d s Linear)))
  = 16%nat.
Proof. reflexivity. Qed.

(** C3 (as the code has it). The Linear Stool of the example has 16 nodes:
    each of the 4 steps adds a bottom and a top ring node in the first
    loop, and the two ends of its rest-ring strut in the second. *)
Theorem stool_linear_sixteen_nodes :
  forall rnd : Oracle,
    length (nodes (generateFurniture rnd Stool
                     (mkParams 0.4 0.45 0.4 0.2 Linear))) = 16%nat.
Proof. intros rnd. reflexivity. Qed.

(** C3 as stated fails: the graph does not have exactly 8 nodes. *)
Lemma stool_linear_not_eight_nodes :
  length (nodes (generateFurniture (fun _ => 0) Stool
                   (mkParams 0.4 0.45 0.4 0.2 Linear))) <> 8%nat.
Proof. intros H. discriminate H. Qed.

(** C6. The Gyroid and Triangular paths draw no random number: for every
    archetype and all dimensions, two runs, whatever [Math.random] would
    return in each, give the same node sequence and the same edge
    sequence. *)
Theorem volumetric_grid_deterministic :
  forall (rnd1 rnd2 : Oracle) (type : FurnitureType) (w h d s : R),
    generateFurniture rnd1 type (mkParams w h d s Gyroid)
    = generateFurniture rnd2 type (mkParams w h d s Gyroid)
    /\ generateFurniture rnd1 type (mkParams w h d s Triangular)
       = generateFurniture rnd2 type (mkParams w h d s Triangular).
Proof. intros. split; reflexivity. Qed.

(** ** Node maps *)

Lemma map_set_In (m : NodeMap) (k v : Z) (e : Z * Z) :
  In e (map_set m k v) -> e = (k, v) \/ In e m.
Proof.
  induction m as [|[k' v'] m IH]; simpl.
  - intros [H|[]]. left. auto.
  - destruct (k =? k')%Z; simpl.
    + intros [H|H]; auto.
    + intros [H|H]; auto. destruct (IH H); auto.
Qed.

Lemma map_set_values_NoDup (m : NodeMap) (k v : Z) :
  ~ In v (map snd m) -> NoDup (map snd m) ->
  NoDup (map snd (map_set m k v)).
Proof.
  induction m as [|[k' v'] m IH]; simpl; intros Hv Hnd.
  - constructor; [intros []|constructor].
  - inversion Hnd as [|? ? Hn' Hnd']; subst.
    destruct (k =? k')%Z; simpl.
    + constructor; [tauto|exact Hnd'].
    + constructor.
      * intros Hin. apply in_map_iff in Hin. destruct Hin as [[k2 v2] [E Hin]].
        simpl in E. subst v2. apply map_set_In in Hin. destruct Hin as [Hin|Hin].
        -- inversion Hin; subst. tauto.
        -- apply Hn'. apply in_map_iff. exists (k2, v'). auto.
      * apply IH; tauto.
Qed.

Lemma map_get_In (m : NodeMap) (k v : Z) :
  map_get m k = Some v -> In (k, v) m.
Proof.
  induction m as [|[k' v'] m IH]; simpl; [discriminate|].
  destruct (k =? k')%Z eqn:E.
  - intros H. inversion H; subst. apply Z.eqb_eq in E. subst. auto.
  - auto.
Qed.

Lemma map_get_set (m : NodeMap) (k v k' : Z) :
  map_get (map_set m k v) k' =
  if (k' =? k)%Z then Some v else map_get m k'.
Proof.
  induction m as [|[k0 v0] m IH]; simpl.
  - reflexivity.
  - destruct (k =? k0)%Z eqn:E; simpl.
    + apply Z.eqb_eq in E. subst k0.
      destruct (k' =? k)%Z; reflexivity.
    + rewrite IH. destruct (k' =? k0)%Z eqn:E0; [|reflexivity].
      apply Z.eqb_eq in E0. subst k0.
      destruct (k' =? k)%Z eqn:E1; [|reflexivity].
      apply Z.eqb_eq in E1. subst. rewrite Z.eqb_refl in E. discriminate.
Qed.

Lemma values_injective (m : NodeMap) (k1 k2 v : Z) :
  NoDup (map snd m) -> In (k1, v) m -> In (k2, v) m -> k1 = k2.
Proof.
  induction m as [|[k0 v0] m IH]; simpl; intros Hnd H1 H2; [contradiction|].
  inversion Hnd as [|? ? Hn Hnd']; subst.
  destruct H1 as [H1|H1], H2 as [H2|H2].
  - congruence.
  - inversion H1; subst. exfalso. apply Hn. apply in_map_iff.
    exists (k2, v). auto.
  - inversion H2; subst. exfalso. apply Hn. apply in_map_iff.
    exists (k1, v). auto.
  - auto.
Qed.

(** ** Grids *)

Lemma In_range (n x : Z) : In x (range n) <-> (0 <= x < n)%Z.
Proof.
  unfold range. rewrite in_map_iff. split.
  - intros [i [E Hi]]. apply in_seq in Hi. lia.
  - intros H. exists (Z.to_nat x). split; [lia|]. apply in_seq. lia.
Qed.

Lemma In_cells (xs ys zs : list Z) (x y z : Z) :
  In (x, y, z) (cells xs ys zs) <-> In x xs /\ In y ys /\ In z zs.
Proof.
  unfold cells. rewrite in_flat_map. split.
  - intros [x' [Hx H]]. apply in_flat_map in H. destruct H as [y' [Hy H]].
    apply in_map_iff in H. destruct H as [z' [E Hz]]. inversion E; subst. auto.
  - intros [Hx [Hy Hz]]. exists x. split; [exact Hx|].
    apply in_flat_map. exists y. split; [exact Hy|].
    apply in_map_iff. exists z. auto.
Qed.

Lemma gridLoop_cells {S : Type} (xs ys zs : list Z)
      (body : Z -> Z -> Z -> S -> S) (st : S) :
  gridLoop xs ys zs body st
  = fold_left (fun st c => let '(x, y, z) := c in body x y z st)
              (cells xs ys zs) st.
Proof.
  unfold gridLoop, cells. revert st.
  induction xs as [|x xs IHx]; intros st; simpl; [reflexivity|].
  rewrite fold_left_app. rewrite <- IHx. f_equal.
  clear IHx. revert st.
  induction ys as [|y ys IHy]; intros st; simpl; [reflexivity|].
  rewrite fold_left_app. rewrite <- IHy. f_equal.
  clear IHy. revert st.
  induction zs as [|z zs IHz]; intros st; simpl; [reflexivity|].
  apply IHz.
Qed.

Lemma gyroidCell_sampleCell (params : FurnitureParams) (type : FurnitureType)
      (nx ny x y z : Z) (st : NetworkData * NodeMap) :
  gyroidCell params type nx ny x y z st
  = sampleCell (gyroidKeep params type) (gyroidPos params) nx ny st (x, y, z).
Proof.
  unfold gyroidCell, sampleCell, gyroidKeep. destruct st as [g m].
  destruct (gyroidPos params x y z) as [[wx wy] wz].
  destruct (isInsideFurniture type wx wy wz params); simpl; [|reflexivity].
  destruct (ltb (Rabs (gyroidVal wx wy wz)) 0.5); reflexivity.
Qed.

Lemma triangularCell_sampleCell (params : FurnitureParams)
      (type : FurnitureType) (nx ny x y z : Z) (st : NetworkData * NodeMap) :
  triangularCell params type nx ny x y z st
  = sampleCell (triangularKeep params type) (triangularPos params)
               nx ny st (x, y, z).
Proof.
  unfold triangularCell, sampleCell, triangularKeep. destruct st as [g m].
  destruct (triangularPos params x y z) as [[wx wy] wz].
  destruct (isInsideFurniture type wx wy wz params); reflexivity.
Qed.

Lemma idx_nonneg (nx ny x y z : Z) :
  (0 <= nx -> 0 <= ny -> 0 <= x -> 0 <= y -> 0 <= z ->
   0 <= idx nx ny x y z)%Z.
Proof. unfold idx. intros. nia. Qed.

Lemma sampleCell_inv (keep : Z -> Z -> Z -> bool)
      (pos : Z -> Z -> Z -> R * R * R) (nx ny x y z : Z)
      (st : NetworkData * NodeMap) :
  (0 <= nx)%Z -> (0 <= ny)%Z -> (0 <= x)%Z -> (0 <= y)%Z -> (0 <= z)%Z ->
  grid_inv nx ny st -> grid_inv nx ny (sampleCell keep pos nx ny st (x, y, z)).
Proof.
  intros Hnx Hny Hx Hy Hz [Hwf [Hent Hnd]]. unfold sampleCell.
  destruct (keep x y z); [|split; [exact Hwf|split; assumption]].
  destruct (pos x y z) as [[wx wy] wz]. destruct st as [g m].
  cbn [fst snd] in *. split; cbn [fst snd].
  - apply wf_net_addNode. exact Hwf.
  - rewrite nodeCount_addNode. split.
    + intros k v Hin. apply map_set_In in Hin. destruct Hin as [E|Hin].
      * inversion E; subst. pose proof (nodeCount_nonneg g).
        pose proof (idx_nonneg nx ny x y z Hnx Hny Hx Hy Hz). lia.
      * destruct (Hent k v Hin) as [? [? [? ?]]]. lia.
    + apply map_set_values_NoDup; [|exact Hnd].
      intros Hin. apply in_map_iff in Hin. destruct Hin as [[k v] [E Hin]].
      simpl in E. subst v. destruct (Hent _ _ Hin). lia.
Qed.

Lemma grid_inv_empty (nx ny : Z) : grid_inv nx ny (emptyNet, []).
Proof.
  split; [exact wf_net_empty|]. split; simpl.
  - intros k v [].
  - constructor.
Qed.

(** The sampling pass of a generator whose loops run over non-negative
    coordinates, and only when the strides are non-negative, keeps the
    invariant. *)
Lemma sampling_inv (keep : Z -> Z -> Z -> bool)
      (pos : Z -> Z -> Z -> R * R * R) (nx ny bx by_ bz : Z)
      (body : Z -> Z -> Z -> NetworkData * NodeMap -> NetworkData * NodeMap) :
  (forall x y z st, body x y z st = sampleCell keep pos nx ny st (x, y, z)) ->
  ((0 < bx)%Z -> (0 <= nx)%Z) -> ((0 < by_)%Z -> (0 <= ny)%Z) ->
  grid_inv nx ny
    (gridLoop (range bx) (range by_) (range bz) body (emptyNet, [])).
Proof.
  intros Hbody Hnx Hny. rewrite gridLoop_cells.
  apply fold_left_invariant; [|apply grid_inv_empty].
  intros st [[x y] z] Hin Hst. apply In_cells in Hin.
  destruct Hin as [Hx [Hy Hz]]. apply In_range in Hx, Hy, Hz.
  rewrite Hbody. apply sampleCell_inv; try lia; exact Hst.
Qed.

Lemma gridCoords_idx (nx ny k x y z : Z) :
  gridCoords nx ny k = Some (x, y, z) ->
  (0 <= k)%Z -> (0 <= nx)%Z -> (0 <= ny)%Z ->
  idx nx ny x y z = k /\ (0 < nx)%Z /\ (0 < ny)%Z.
Proof.
  unfold gridCoords. destruct (nx * ny =? 0)%Z eqn:E; [discriminate|].
  intros H Hk Hnx Hny. inversion H; subst; clear H.
  apply Z.eqb_neq in E.
  assert (Hx : (0 < nx)%Z) by nia. assert (Hy : (0 < ny)%Z) by nia.
  split; [|split; assumption].
  unfold idx. rewrite Z.rem_mod_nonneg by lia.
  set (q := (k / (nx * ny))%Z).
  set (r := (k - q * nx * ny)%Z).
  assert (Hr : (r mod nx = k mod nx)%Z).
  { unfold r. replace (k - q * nx * ny)%Z with (k + (- q * ny) * nx)%Z by ring.
    apply Z.mod_add. lia. }
  pose proof (Z.div_mod r nx ltac:(lia)) as Hdm.
  rewrite <- Hr. unfold r in *. lia.
Qed.

Lemma linkNeighbors_nodes (nx ny : Z) (m : NodeMap) (realIdx : Z)
      (neighbors : list (Z * Z * Z)) (g : NetworkData) :
  nodes (linkNeighbors nx ny m realIdx neighbors g) = nodes g.
Proof.
  unfold linkNeighbors. revert g.
  induction neighbors as [|[[a b] c] l IH]; intros g; simpl; [reflexivity|].
  rewrite IH. destruct (map_get m (idx nx ny a b c)); reflexivity.
Qed.

Lemma linkNeighbors_wf (nx ny : Z) (m : NodeMap) (gridId realIdx : Z)
      (neighbors : list (Z * Z * Z)) (g : NetworkData) :
  wf_net g -> entries_ok nx ny (nodeCount g) m -> In (gridId, realIdx) m ->
  (forall a b c, In (a, b, c) neighbors -> idx nx ny a b c <> gridId) ->
  wf_net (linkNeighbors nx ny m realIdx neighbors g).
Proof.
  unfold linkNeighbors. revert g.
  induction neighbors as [|[[a b] c] l IH]; intros g Hwf Hent Hin Hne; simpl;
    [exact Hwf|].
  assert (Hne' : forall a b c, In (a, b, c) l -> idx nx ny a b c <> gridId)
    by (intros; apply Hne; right; assumption).
  destruct (map_get m (idx nx ny a b c)) as [j|] eqn:Hget.
  - apply IH; auto.
    apply map_get_In in Hget. destruct Hent as [Hrange Hnd].
    apply wf_net_link; auto.
    + apply (Hrange _ _ Hin).
    + apply (Hrange _ _ Hget).
    + intros E. subst j.
      apply (Hne a b c); [left; reflexivity|].
      symmetry. exact (values_injective m _ _ _ Hnd Hin Hget).
  - apply IH; auto.
Qed.

Lemma gyroidConnect_wf (nx ny : Z) (m : NodeMap) (g : NetworkData)
      (entry : Z * Z) :
  wf_net g -> entries_ok nx ny (nodeCount g) m -> In entry m ->
  wf_net (gyroidConnect nx ny m g entry)
  /\ nodes (gyroidConnect nx ny m g entry) = nodes g.
Proof.
  intros Hwf Hent Hin. destruct entry as [k v]. unfold gyroidConnect.
  destruct (gridCoords nx ny k) as [[[x y] z]|] eqn:Hc; [|auto].
  split; [|apply linkNeighbors_nodes].
  destruct (proj1 Hent _ _ Hin) as [_ [Hk [Hnx Hny]]].
  destruct (gridCoords_idx _ _ _ _ _ _ Hc Hk Hnx Hny) as [E [Hx Hy]].
  apply linkNeighbors_wf with (gridId := k); auto.
  intros a b c [H|[H|[H|[]]]]; inversion H; subst a b c;
    unfold idx in *; nia.
Qed.

Lemma triangularConnect_wf (nx ny : Z) (m : NodeMap) (g : NetworkData)
      (entry : Z * Z) :
  wf_net g -> entries_ok nx ny (nodeCount g) m -> In entry m ->
  wf_net (triangularConnect nx ny m g entry)
  /\ nodes (triangularConnect nx ny m g entry) = nodes g.
Proof.
  intros Hwf Hent Hin. destruct entry as [k v]. unfold triangularConnect.
  destruct (gridCoords nx ny k) as [[[x y] z]|] eqn:Hc; [|auto].
  split; [|apply linkNeighbors_nodes].
  destruct (proj1 Hent _ _ Hin) as [_ [Hk [Hnx Hny]]].
  destruct (gridCoords_idx _ _ _ _ _ _ Hc Hk Hnx Hny) as [E [Hx Hy]].
  apply linkNeighbors_wf with (gridId := k); auto.
  intros a b c H. simpl in H.
  repeat (destruct H as [H|H]; [inversion H; subst a b c; unfold idx in *; nia|]).
  contradiction.
Qed.

(** The connection pass of a grid generator keeps the graph well formed. *)
Lemma connect_pass_wf (nx ny : Z) (m : NodeMap)
      (connect : NetworkData -> Z * Z -> NetworkData) (g : NetworkData) :
  (forall g e, wf_net g -> entries_ok nx ny (nodeCount g) m -> In e m ->
               wf_net (connect g e) /\ nodes (connect g e) = nodes g) ->
  wf_net g -> entries_ok nx ny (nodeCount g) m ->
  wf_net (fold_left connect m g).
Proof.
  intros Hc Hwf Hent.
  apply (fold_left_invariant
           (fun g' => wf_net g' /\ nodeCount g' = nodeCount g) connect m);
    [|auto].
  intros g' e Hin [Hwf' Hn]. rewrite <- Hn in Hent.
  destruct (Hc g' e Hwf' Hent Hin) as [H1 H2].
  split; [exact H1|]. unfold nodeCount in *. rewrite H2. exact Hn.
Qed.

Lemma generateVolumeGyroid_wf (params : FurnitureParams)
      (type : FurnitureType) :
  wf_net (generateVolumeGyroid emptyNet params type).
Proof.
  unfold generateVolumeGyroid.
  set (nx := (Zceil (width params / gyroidRes) + 2)%Z).
  set (ny := (Zceil (height params / gyroidRes) + 2)%Z).
  set (nz := (Zceil (depth params / gyroidRes) + 2)%Z).
  pose proof (sampling_inv (gyroidKeep params type) (gyroidPos params)
                nx ny nx ny nz (gyroidCell params type nx ny)
                (gyroidCell_sampleCell params type nx ny)
                ltac:(lia) ltac:(lia)) as Hinv.
  destruct (gridLoop _ _ _ _ _) as [g m]. destruct Hinv as [Hwf Hent].
  simpl in *.
  apply connect_pass_wf with (nx := nx) (ny := ny); auto.
  intros. apply gyroidConnect_wf; auto.
Qed.

Lemma generateVolumeTriangular_wf (params : FurnitureParams)
      (type : FurnitureType) :
  wf_net (generateVolumeTriangular emptyNet params type).
Proof.
  unfold generateVolumeTriangular.
  set (nx := Zceil (width params / cellSize)).
  set (ny := Zceil (height params / cellSize)).
  set (nz := Zceil (depth params / cellSize)).
  pose proof (sampling_inv (triangularKeep params type) (triangularPos params)
                nx ny (nx + 1) (ny + 1) (nz + 1)
                (triangularCell params type nx ny)
                (triangularCell_sampleCell params type nx ny)
                ltac:(lia) ltac:(lia)) as Hinv.
  destruct (gridLoop _ _ _ _ _) as [g m]. destruct Hinv as [Hwf Hent].
  simpl in *.
  apply connect_pass_wf with (nx := nx) (ny := ny); auto.
  intros. apply triangularConnect_wf; auto.
Qed.

(** ** Scattered points *)

Lemma StronglySorted_snoc (l : list Z) (x : Z) :
  StronglySorted Z.lt l -> Forall (fun a => (a < x)%Z) l ->
  StronglySorted Z.lt (l ++ [x]).
Proof.
  induction l as [|a l IH]; simpl; intros Hs Hf.
  - constructor; constructor.
  - inversion Hs as [|? ? Hs' Ha]; subst. inversion Hf as [|? ? Hax Hf']; subst.
    constructor; [apply IH; assumption|].
    apply Forall_app. split; [exact Ha|]. constructor; [exact Hax|constructor].
Qed.

Lemma scatter_inv_empty : scatter_inv emptyNet [].
Proof.
  split; [exact wf_net_empty|]. split; constructor.
Qed.

Lemma scatter_inv_push (g : NetworkData) (points : list Point)
      (x y z : R) (v : Vector3) :
  scatter_inv g points ->
  scatter_inv (fst (addNode g x y z)) (points ++ [(nodeCount g, v)]).
Proof.
  intros [Hwf [Hr Hs]]. split; [apply wf_net_addNode; exact Hwf|].
  rewrite nodeCount_addNode. pose proof (nodeCount_nonneg g). split.
  - apply Forall_app. split.
    + eapply Forall_impl; [|exact Hr]. simpl. intros. lia.
    + constructor; [simpl; lia|constructor].
  - rewrite map_app. simpl. apply StronglySorted_snoc; [exact Hs|].
    apply Forall_forall. intros a Ha. apply in_map_iff in Ha.
    destruct Ha as [p [E Hp]]. subst a.
    rewrite Forall_forall in Hr. specialize (Hr p Hp). lia.
Qed.

Lemma linkClose_wf (window : list Point -> list Point)
      (close : Vector3 -> Vector3 -> bool) :
  (forall l, incl (window l) l) ->
  forall (points : list Point) (g : NetworkData),
    scatter_inv g points ->
    wf_net (linkClose window close points g)
    /\ nodes (linkClose window close points g) = nodes g.
Proof.
  intros Hw. induction points as [|p rest IH]; intros g [Hwf [Hr Hs]]; simpl;
    [auto|].
  inversion Hr as [|? ? Hp Hr']; subst.
  simpl in Hs. inversion Hs as [|? ? Hs' Hlt]; subst.
  match goal with
  | |- context [linkClose window close rest ?x] => set (inner := x)
  end.
  assert (Hin : wf_net inner /\ nodes inner = nodes g).
  { unfold inner.
    apply (fold_left_invariant
             (fun g' => wf_net g' /\ nodes g' = nodes g)); [|auto].
    intros g' q Hq [Hwf' Hn]. apply Hw in Hq.
    destruct (close (snd p) (snd q)); [|auto].
    split; [|exact Hn].
    assert (Hc : nodeCount g' = nodeCount g)
      by (unfold nodeCount; rewrite Hn; reflexivity).
    rewrite Forall_forall in Hr'. specialize (Hr' q Hq).
    rewrite Forall_forall in Hlt.
    assert (fst p < fst q)%Z by (apply Hlt; apply in_map; exact Hq).
    apply wf_net_link; auto; lia. }
  destruct Hin as [Hwf1 Hn1].
  destruct (IH inner) as [H1 H2].
  - split; [exact Hwf1|].
    unfold nodeCount. rewrite Hn1. split; assumption.
  - split; [exact H1|]. rewrite H2. exact Hn1.
Qed.

Lemma voronoiSample_inv (rnd : Oracle) (params : FurnitureParams)
      (type : FurnitureType) (count : Z) (fuel : nat) :
  forall (g : NetworkData) (points : list Point) (k : nat),
    scatter_inv g points ->
    scatter_inv
      (fst (fst (voronoiSample rnd params type count fuel (g, points, k))))
      (snd (fst (voronoiSample rnd params type count fuel (g, points, k)))).
Proof.
  induction fuel as [|fuel IH]; intros g points k Hinv; simpl; [exact Hinv|].
  destruct (Z.of_nat (length points) <? count)%Z; [|exact Hinv].
  destruct (isInsideFurniture type _ _ _ params).
  - apply IH. apply scatter_inv_push. exact Hinv.
  - apply IH. exact Hinv.
Qed.

Lemma generateVolumeVoronoi_wf (rnd : Oracle) (params : FurnitureParams)
      (type : FurnitureType) :
  wf_net (generateVolumeVoronoi rnd emptyNet params type).
Proof.
  unfold generateVolumeVoronoi.
  pose proof (voronoiSample_inv rnd params type (voronoiCount params)
                (Z.to_nat (voronoiCount params * 10)) emptyNet [] O
                scatter_inv_empty) as Hinv.
  destruct (voronoiSample _ _ _ _ _ _) as [[g points] k]. simpl in Hinv.
  apply linkClose_wf; [|exact Hinv].
  intros l. apply incl_refl.
Qed.

Lemma firstn_incl {A : Type} (n : nat) (l : list A) : incl (firstn n l) l.
Proof.
  intros a Ha. rewrite <- (firstn_skipn n l). apply in_or_app. left. exact Ha.
Qed.

Lemma reclinerLeg_inv (rnd : Oracle) (height : R) (n0 : Z)
      (st : NetworkData * nat) (p : Point) :
  (0 <= fst p < n0)%Z ->
  wf_net (fst st) /\ (n0 <= nodeCount (fst st))%Z ->
  wf_net (fst (reclinerLeg rnd height st p))
  /\ (n0 <= nodeCount (fst (reclinerLeg rnd height st p)))%Z.
Proof.
  intros Hp [Hwf Hn]. destruct st as [g k]. unfold reclinerLeg.
  cbn [fst snd] in *.
  destruct (gtb (rnd k) 0.97 && ltb (vy (snd p)) (height * 0.5));
    [|cbn [fst]; auto].
  cbn [fst]. unfold addNode. cbn [fst snd].
  change (Z.of_nat (length (nodes g))) with (nodeCount g).
  pose proof (wf_net_addNode g (vx (snd p)) 0 (vz (snd p)) Hwf) as Hwf'.
  pose proof (nodeCount_addNode g (vx (snd p)) 0 (vz (snd p))) as Hc.
  unfold addNode in Hwf', Hc. cbn [fst snd] in Hwf', Hc.
  split.
  - apply wf_net_link; auto; rewrite ?Hc; lia.
  - unfold link. unfold nodeCount in *. cbn [nodes] in *. lia.
Qed.

Lemma generateVoronoiReclinerOriginal_wf (rnd : Oracle)
      (params : FurnitureParams) :
  wf_net (generateVoronoiReclinerOriginal rnd emptyNet params).
Proof.
  unfold generateVoronoiReclinerOriginal. cbv zeta.
  match goal with
  | |- context [fold_left ?f (seq 0 (30 + 1)) (emptyNet, [], O)] =>
      pose proof (fold_left_invariant
                    (fun st : NetworkData * list Point * nat =>
                       scatter_inv (fst (fst st)) (snd (fst st)))
                    f (seq 0 (30 + 1))) as Hsurf
  end.
  match type of Hsurf with
  | ?A -> _ =>
      assert (Hbody : A);
        [|specialize (Hsurf Hbody (emptyNet, [], O) scatter_inv_empty);
          clear Hbody]
  end.
  { intros [[g pts] k] i _ Hst. cbn [fst snd] in Hst.
    apply fold_left_invariant; [|exact Hst].
    intros [[g' pts'] k'] j _ Hst'. cbn [fst snd] in *.
    unfold addNode. cbn [fst snd].
    apply (scatter_inv_push g' pts'). exact Hst'. }
  destruct (fold_left _ (seq 0 (30 + 1)) _) as [[g pts] k].
  cbn [fst snd] in Hsurf.
  destruct (linkClose_wf (firstn (12 * 3 - 1))
              (fun a b => ltb (distanceTo a b) (width params / INR 12 * 1.8))
              (fun l => firstn_incl _ l) pts g Hsurf) as [Hwf Hn].
  destruct Hsurf as [_ [Hr _]].
  set (gl := linkClose _ _ pts g) in *.
  apply (fold_left_invariant
           (fun st : NetworkData * nat =>
              wf_net (fst st) /\ (nodeCount g <= nodeCount (fst st))%Z)
           (reclinerLeg rnd (height params)) pts).
  - intros st p Hp Hst. apply reclinerLeg_inv; [|exact Hst].
    rewrite Forall_forall in Hr. apply Hr. exact Hp.
  - cbn [fst]. split; [exact Hwf|]. unfold nodeCount. rewrite Hn. lia.
Qed.

(** ** Every generated graph is well formed *)

Lemma generateFurniture_wf (rnd : Oracle) (type : FurnitureType)
      (params : FurnitureParams) :
  wf_net (generateFurniture rnd type params).
Proof.
  destruct params as [w h d s pat]. destruct pat.
  - destruct type;
      try (apply skeletal_wf; discriminate).
    apply generateVoronoiReclinerOriginal_wf.
  - apply generateVolumeVoronoi_wf.
  - apply generateVolumeGyroid_wf.
  - apply generateVolumeTriangular_wf.
Qed.

(** C1. For every archetype, pattern family and parameters (and every
    outcome of the random draws) each index in each pair of [edges] of the
    returned graph is a node id: non-negative and strictly below
    [nodes.length].  This covers the Bench and Shelf builders, whose ids of
    the previous frame are [nodes.length] minus a fixed offset. *)
Theorem generateFurniture_edge_indices_in_range :
  forall (rnd : Oracle) (type : FurnitureType) (params : FurnitureParams),
    Forall
      (fun e : Z * Z =>
         (0 <= fst e
          < Z.of_nat (length (nodes (generateFurniture rnd type params))))%Z
         /\ (0 <= snd e
             < Z.of_nat (length (nodes (generateFurniture rnd type params))))%Z)
      (edges (generateFurniture rnd type params)).
Proof.
  intros rnd type params.
  eapply Forall_impl; [|apply (generateFurniture_wf rnd type params)].
  intros e [Ha [Hb _]]. split; assumption.
Qed.

(** C10. For every archetype, pattern family and parameters (and every
    outcome of the random draws) no edge of the returned graph is a
    self-loop: the two ids of each pair differ. *)
Theorem generateFurniture_no_self_loop :
  forall (rnd : Oracle) (type : FurnitureType) (params : FurnitureParams),
    Forall (fun e : Z * Z => fst e <> snd e)
           (edges (generateFurniture rnd type params)).
Proof.
  intros rnd type params.
  eapply Forall_impl; [|apply (generateFurniture_wf rnd type params)].
  intros e [_ [_ Hne]]. exact Hne.
Qed.

(** The Bench builder's back-computed ids are those of the previous
    frame's top nodes. *)
Example bench_linear_edges (rnd : Oracle) (w h d s : R) :
  edges (generateFurniture rnd Bench (mkParams w h d s Linear))
  = [ (0, 2); (1, 3); (2, 3);
      (4, 6); (5, 7); (6, 7); (2, 6); (3, 7); (2, 7); (3, 6);
      (8, 10); (9, 11); (10, 11); (6, 10); (7, 11); (6, 11); (7, 10) ]%Z.
Proof. reflexivity. Qed.

(** The Shelf builder's back-computed ids are the four nodes of the level
    below. *)
Example shelf_linear_edges (rnd : Oracle) (w h d s : R) :
  edges (generateFurniture rnd Shelf (mkParams w h d s Linear))
  = [ (0, 1); (1, 3); (3, 2); (2, 0); (0, 3); (1, 2);
      (4, 5); (5, 7); (7, 6); (6, 4); (4, 7); (5, 6);
      (0, 4); (1, 5); (2, 6); (3, 7);
      (8, 9); (9, 11); (11, 10); (10, 8); (8, 11); (9, 10);
      (4, 8); (5, 9); (6, 10); (7, 11);
      (12, 13); (13, 15); (15, 14); (14, 12); (12, 15); (13, 14);
      (8, 12); (9, 13); (10, 14); (11, 15) ]%Z.
Proof. reflexivity. Qed.

(** ** Node count of the Voronoi generator *)

Lemma linkClose_nodes (window : list Point -> list Point)
      (close : Vector3 -> Vector3 -> bool) :
  forall (points : list Point) (g : NetworkData),
    nodes (linkClose window close points g) = nodes g.
Proof.
  induction points as [|p rest IH]; intros g; simpl; [reflexivity|].
  rewrite IH.
  apply (fold_left_invariant (fun g' => nodes g' = nodes g)); [|reflexivity].
  intros g' q _ Hn. destruct (close (snd p) (snd q)); exact Hn.
Qed.

Lemma voronoiCount_at_least_50 (params : FurnitureParams) :
  (50 <= voronoiCount params)%Z.
Proof. unfold voronoiCount. lia. Qed.

(** One node per accepted sample, and never more than [count]. *)
Lemma voronoiSample_count (rnd : Oracle) (params : FurnitureParams)
      (type : FurnitureType) (count : Z) (fuel : nat) :
  forall (g : NetworkData) (points : list Point) (k : nat),
    length (nodes g) = length points ->
    (Z.of_nat (length points) <= count)%Z ->
    let '(g', points', _) :=
      voronoiSample rnd params type count fuel (g, points, k) in
    length (nodes g') = length points'
    /\ (Z.of_nat (length points') <= count)%Z.
Proof.
  induction fuel as [|fuel IH]; intros g points k Hlen Hle; simpl; [auto|].
  destruct (Z.of_nat (length points) <? count)%Z eqn:Hlt; [|auto].
  apply Z.ltb_lt in Hlt.
  destruct (isInsideFurniture type _ _ _ params).
  - apply IH.
    + simpl. rewrite !length_app. simpl. lia.
    + rewrite length_app. simpl. lia.
  - apply IH; assumption.
Qed.

(** When every candidate is accepted the target count is reached. *)
Lemma voronoiSample_all_accepted (rnd : Oracle) (params : FurnitureParams)
      (type : FurnitureType) (count : Z) :
  (forall k : nat,
      isInsideFurniture type ((rnd k - 0.5) * width params)
                        (rnd (k + 1)%nat * height params)
                        ((rnd (k + 2)%nat - 0.5) * depth params) params
      = true) ->
  forall (fuel : nat) (g : NetworkData) (points : list Point) (k : nat),
    (Z.of_nat (length points) <= count)%Z ->
    (count <= Z.of_nat (length points + fuel))%Z ->
    Z.of_nat
      (length (snd (fst (voronoiSample rnd params type count fuel
                                        (g, points, k))))) = count.
Proof.
  intros Hacc. induction fuel as [|fuel IH]; intros g points k Hle Hge; simpl.
  - lia.
  - destruct (Z.of_nat (length points) <? count)%Z eqn:Hlt.
    + apply Z.ltb_lt in Hlt. rewrite Hacc. apply IH.
      * rewrite length_app. simpl. lia.
      * rewrite length_app. simpl. lia.
    + apply Z.ltb_ge in Hlt. simpl. lia.
Qed.

(** When every candidate is rejected no node is created. *)
Lemma voronoiSample_all_rejected (rnd : Oracle) (params : FurnitureParams)
      (type : FurnitureType) (count : Z) :
  (forall k : nat,
      isInsideFurniture type ((rnd k - 0.5) * width params)
                        (rnd (k + 1)%nat * height params)
                        ((rnd (k + 2)%nat - 0.5) * depth params) params
      = false) ->
  forall (fuel : nat) (g : NetworkData) (points : list Point) (k : nat),
    fst (voronoiSample rnd params type count fuel (g, points, k))
    = (g, points).
Proof.
  intros Hrej. induction fuel as [|fuel IH]; intros g points k; simpl.
  - reflexivity.
  - destruct (Z.of_nat (length points) <? count)%Z; [|reflexivity].
    rewrite Hrej. apply IH.
Qed.

(** The bounding-box classifier accepts every candidate of the sampler. *)
Lemma box_accepts_samples (type : FurnitureType) (params : FurnitureParams)
      (r1 r2 r3 : R) :
  type = Shelf \/ type = Recliner \/ type = Lamp \/ type = Mobius ->
  0 < width params -> 0 < height params -> 0 < depth params ->
  0 <= r1 < 1 -> 0 <= r2 < 1 -> 0 <= r3 < 1 ->
  isInsideFurniture type ((r1 - 0.5) * width params) (r2 * height params)
                    ((r3 - 0.5) * depth params) params = true.
Proof.
  intros Ht Hw Hh Hd H1 H2 H3.
  assert (Hbox :
    leb (Rabs ((r1 - 0.5) * width params - 0)) (width params / 2)
    && geb (r2 * height params) 0
    && leb (r2 * height params) (0 + height params)
    && leb (Rabs ((r3 - 0.5) * depth params - 0)) (depth params / 2) = true).
  { repeat (apply andb_true_intro; split); unfold geb; apply leb_true_iff.
    - apply Rabs_le. split; nra.
    - nra.
    - nra.
    - apply Rabs_le. split; nra. }
  destruct Ht as [E|[E|[E|E]]]; subst type; exact Hbox.
Qed.

(** C4 (as the code has it). With pattern Voronoi the scattering loop
    aims at [count = Math.max(50, Math.floor(volumeApprox * 600))] nodes,
    a number that is at least 50 whatever the product rounds to.  For
    every such [count], every archetype, all parameters and every outcome
    of the random draws the graph has at most [count] nodes; for the
    archetypes classified by the bounding box (Shelf, Recliner, Lamp,
    Mobius), positive dimensions and draws in [0, 1), no sample is
    rejected and the graph has exactly [count] nodes.  So for these
    archetypes [generateFurniture] returns at least 50 nodes. *)
Theorem voronoi_node_count :
  forall (rnd : Oracle) (type : FurnitureType) (w h d s : R),
    (forall (count : Z) (close : Vector3 -> Vector3 -> bool),
        (50 <= count)%Z ->
        (Z.of_nat (length (nodes (voronoiGraphOn rnd (mkParams w h d s Voronoi)
                                                 type count close)))
         <= count)%Z
        /\ (0 < w -> 0 < h -> 0 < d ->
            (forall k : nat, 0 <= rnd k < 1) ->
            type = Shelf \/ type = Recliner \/ type = Lamp \/ type = Mobius ->
            Z.of_nat (length (nodes (voronoiGraphOn rnd
                                       (mkParams w h d s Voronoi)
                                       type count close)))
            = count))
    /\ (0 < w -> 0 < h -> 0 < d ->
        (forall k : nat, 0 <= rnd k < 1) ->
        type = Shelf \/ type = Recliner \/ type = Lamp \/ type = Mobius ->
        le 50 (length (nodes (generateFurniture rnd type
                                (mkParams w h d s Voronoi))))).
Proof.
  intros rnd type w h d s.
  set (params := mkParams w h d s Voronoi).
  assert (Hon : forall (count : Z) (close : Vector3 -> Vector3 -> bool),
             (50 <= count)%Z ->
             (Z.of_nat (length (nodes (voronoiGraphOn rnd params type count
                                                      close)))
              <= count)%Z
             /\ (0 < w -> 0 < h -> 0 < d ->
                 (forall k : nat, 0 <= rnd k < 1) ->
                 type = Shelf \/ type = Recliner \/ type = Lamp
                 \/ type = Mobius ->
                 Z.of_nat (length (nodes (voronoiGraphOn rnd params type count
                                                         close)))
                 = count)).
  { intros count close H50. unfold voronoiGraphOn.
    pose proof (voronoiSample_count rnd params type count
                  (Z.to_nat (count * 10)) emptyNet [] O eq_refl) as Hcount.
    pose proof (voronoiSample_all_accepted rnd params type count) as Hall.
    specialize (fun Hacc => Hall Hacc (Z.to_nat (count * 10)) emptyNet [] O).
    destruct (voronoiSample rnd params type count _ _) as [[g points] k].
    rewrite linkClose_nodes.
    destruct Hcount as [Hlen Hle]; [simpl; lia|].
    rewrite Hlen. split; [exact Hle|].
    intros Hw Hh Hd Hrnd Ht. cbn [fst snd] in Hall. apply Hall.
    - intros k'. apply box_accepts_samples; auto.
    - simpl. lia.
    - simpl. lia. }
  split; [exact Hon|].
  intros Hw Hh Hd Hrnd Ht.
  pose proof (voronoiCount_at_least_50 params) as H50.
  destruct (Hon (voronoiCount params)
                (fun a b =>
                   below (option_map (fun a0 => a0 * 1.8)
                            (pow_third (width params * height params
                                        * depth params
                                        / IZR (voronoiCount params))))
                         (distanceTo a b)) H50) as [_ Heq].
  specialize (Heq Hw Hh Hd Hrnd Ht).
  change (generateFurniture rnd type params)
    with (voronoiGraphOn rnd params type (voronoiCount params)
            (fun a b =>
               below (option_map (fun a0 => a0 * 1.8)
                        (pow_third (width params * height params
                                    * depth params
                                    / IZR (voronoiCount params))))
                     (distanceTo a b))).
  lia.
Qed.

Lemma voronoi_node_count_witness :
  Z.of_nat (length (nodes (voronoiGraphOn (fun _ => 0.5)
                             (mkParams 1 1 1 0.5 Voronoi) Shelf 600
                             (fun _ _ => false)))) = 600%Z
  /\ le 50 (length (nodes (generateFurniture (fun _ => 0.5) Shelf
                             (mkParams 1 1 1 0.5 Voronoi)))).
Proof.
  split.
  - apply (proj1 (voronoi_node_count (fun _ => 0.5) Shelf 1 1 1 0.5)
                 600%Z (fun _ _ => false)).
    + lia.
    + lra.
    + lra.
    + lra.
    + intros k. lra.
    + left. reflexivity.
  - apply (voronoi_node_count (fun _ => 0.5) Shelf 1 1 1 0.5).
    + lra.
    + lra.
    + lra.
    + intros k. lra.
    + left. reflexivity.
Defined.

(** Evaluate the comparisons of a classifier at a concrete point. *)
Ltac cmp_solve :=
  unfold Rabs;
  repeat match goal with |- context [Rcase_abs ?x] => destruct (Rcase_abs x) end;
  lra.

Ltac cmp_eval :=
  unfold geb, gtb;
  repeat match goal with
         | |- context [leb ?a ?b] =>
             first [ rewrite (proj2 (leb_true_iff a b)) by cmp_solve
                   | rewrite (proj2 (leb_false_iff a b)) by cmp_solve ]
         | |- context [ltb ?a ?b] =>
             first [ rewrite (proj2 (ltb_true_iff a b)) by cmp_solve
                   | rewrite (proj2 (ltb_false_iff a b)) by cmp_solve ]
         end.

(** The spec's own example: the centre of a unit table at mid height is in
    neither the top slab nor a leg. *)
Lemma table_centre_outside :
  isInsideFurniture Table ((0.5 - 0.5) * 1) (0.5 * 1) ((0.5 - 0.5) * 1)
                    (mkParams 1 1 1 0.5 Voronoi) = false.
Proof.
  unfold isInsideFurniture. cbn [width height depth seatHeight].
  cmp_eval. reflexivity.
Qed.

Example table_top_slab_inside :
  isInsideFurniture Table 0 0.95 0 (mkParams 1 1 1 0.5 Linear) = true.
Proof.
  unfold isInsideFurniture. cbn [width height depth seatHeight].
  cmp_eval. reflexivity.
Qed.

(** C4 as stated fails: for a unit Table and draws all equal to 0.5 every
    sample is the point (0, 0.5, 0), which the classifier rejects, so the
    attempt budget runs out with no node at all. *)
Lemma voronoi_table_no_nodes :
  0 < 1 /\ (forall k : nat, 0 <= (fun _ : nat => 0.5) k < 1)
  /\ length (nodes (generateFurniture (fun _ => 0.5) Table
                      (mkParams 1 1 1 0.5 Voronoi))) = 0%nat
  /\ ~ le 50 (length (nodes (generateFurniture (fun _ => 0.5) Table
                                (mkParams 1 1 1 0.5 Voronoi)))).
Proof.
  assert (H0 : length (nodes (generateFurniture (fun _ => 0.5) Table
                                (mkParams 1 1 1 0.5 Voronoi))) = 0%nat).
  { change (generateFurniture (fun _ => 0.5) Table (mkParams 1 1 1 0.5 Voronoi))
      with (generateVolumeVoronoi (fun _ => 0.5) emptyNet
              (mkParams 1 1 1 0.5 Voronoi) Table).
    unfold generateVolumeVoronoi.
    pose proof (voronoiSample_all_rejected (fun _ => 0.5)
                  (mkParams 1 1 1 0.5 Voronoi) Table
                  (voronoiCount (mkParams 1 1 1 0.5 Voronoi))
                  (fun _ => table_centre_outside)
                  (Z.to_nat (voronoiCount (mkParams 1 1 1 0.5 Voronoi) * 10))
                  emptyNet [] O) as Hrej.
    destruct (voronoiSample _ _ _ _ _ _) as [[g points] k].
    cbn [fst] in Hrej. inversion Hrej; subst. reflexivity. }
  split; [lra|]. split; [intros k; lra|]. split; [exact H0|].
  rewrite H0. lia.
Qed.

(** ** The Gyroid lattice: kept points and their links *)

Lemma nodeAt_addNode_new (g : NetworkData) (x y z : R) :
  nodeAt (fst (addNode g x y z)) (nodeCount g) = vec3 x y z.
Proof.
  unfold nodeAt, nodeCount, addNode. cbn [fst nodes].
  rewrite Nat2Z.id. apply nth_middle.
Qed.

Lemma nodeAt_addNode_old (g : NetworkData) (x y z : R) (v : Z) :
  (0 <= v < nodeCount g)%Z ->
  nodeAt (fst (addNode g x y z)) v = nodeAt g v.
Proof.
  unfold nodeAt, nodeCount, addNode. cbn [fst nodes]. intros Hv.
  apply app_nth1. lia.
Qed.

(** A sampling step gives the grid point it keeps a node, and leaves the
    node of any other grid point in place. *)
Lemma sampleCell_has_node (keep : Z -> Z -> Z -> bool)
      (pos : Z -> Z -> Z -> R * R * R) (nx ny : Z)
      (c c' : Z * Z * Z) (st : NetworkData * NodeMap) :
  (let '(x, y, z) := c in let '(x', y', z') := c' in
   idx nx ny x' y' z' = idx nx ny x y z -> c' = c) ->
  (let '(x, y, z) := c in keep x y z = true) ->
  has_node pos nx ny c st \/ c' = c ->
  has_node pos nx ny c (sampleCell keep pos nx ny st c').
Proof.
  destruct c as [[x y] z], c' as [[x' y'] z']. intros Hinj Hkeep H.
  unfold sampleCell.
  destruct (keep x' y' z') eqn:Hk'.
  - destruct (pos x' y' z') as [[wx' wy'] wz'] eqn:Hpos'.
    unfold has_node. destruct (pos x y z) as [[wx wy] wz] eqn:Hpos.
    cbn [fst snd]. rewrite map_get_set.
    destruct (idx nx ny x y z =? idx nx ny x' y' z')%Z eqn:E.
    + apply Z.eqb_eq in E. symmetry in E. specialize (Hinj E).
      inversion Hinj; subst x' y' z'. rewrite Hpos in Hpos'.
      inversion Hpos'; subst wx' wy' wz'.
      exists (nodeCount (fst st)). rewrite nodeCount_addNode.
      pose proof (nodeCount_nonneg (fst st)).
      split; [reflexivity|]. split; [lia|]. apply nodeAt_addNode_new.
    + destruct H as [H|H].
      * unfold has_node in H. rewrite Hpos in H.
        destruct H as [v [Hget [Hv Hn]]]. exists v.
        rewrite nodeCount_addNode. split; [exact Hget|]. split; [lia|].
        rewrite nodeAt_addNode_old by exact Hv. exact Hn.
      * inversion H; subst. rewrite Z.eqb_refl in E. discriminate.
  - destruct H as [H|H]; [exact H|].
    inversion H; subst. congruence.
Qed.

(** Every kept grid point of a sampling pass has its node. *)
Lemma sampling_has_node (keep : Z -> Z -> Z -> bool)
      (pos : Z -> Z -> Z -> R * R * R) (nx ny : Z) (c : Z * Z * Z) :
  (let '(x, y, z) := c in keep x y z = true) ->
  forall cs : list (Z * Z * Z),
    (forall c', In c' cs ->
                let '(x, y, z) := c in let '(x', y', z') := c' in
                idx nx ny x' y' z' = idx nx ny x y z -> c' = c) ->
    forall st : NetworkData * NodeMap,
      has_node pos nx ny c st \/ In c cs ->
      has_node pos nx ny c (fold_left (sampleCell keep pos nx ny) cs st).
Proof.
  intros Hkeep. induction cs as [|c' cs IH]; intros Hinj st H; simpl.
  - destruct H as [H|[]]. exact H.
  - apply IH.
    + intros c'' Hc''. apply Hinj. right. exact Hc''.
    + destruct H as [H|[H|H]].
      * left. apply sampleCell_has_node; auto. apply Hinj. left. reflexivity.
      * left. apply sampleCell_has_node; auto. apply Hinj. left. reflexivity.
      * right. exact H.
Qed.

Lemma linkNeighbors_edges_mono (nx ny : Z) (m : NodeMap) (realIdx : Z)
      (neighbors : list (Z * Z * Z)) (e : Z * Z) :
  forall g : NetworkData,
    In e (edges g) -> In e (edges (linkNeighbors nx ny m realIdx neighbors g)).
Proof.
  unfold linkNeighbors.
  induction neighbors as [|[[a b] c] l IH]; intros g He; simpl; [exact He|].
  apply IH. destruct (map_get m (idx nx ny a b c)); [|exact He].
  unfold link. cbn [edges]. apply in_or_app. left. exact He.
Qed.

Lemma linkNeighbors_adds (nx ny : Z) (m : NodeMap) (realIdx j a b c : Z)
      (neighbors : list (Z * Z * Z)) :
  In (a, b, c) neighbors -> map_get m (idx nx ny a b c) = Some j ->
  forall g : NetworkData,
    In (realIdx, j) (edges (linkNeighbors nx ny m realIdx neighbors g)).
Proof.
  intros Hin Hget.
  induction neighbors as [|n l IH]; intros g; [contradiction|].
  destruct Hin as [E|Hin].
  - subst n. unfold linkNeighbors. simpl. rewrite Hget.
    apply (linkNeighbors_edges_mono nx ny m realIdx l).
    unfold link. cbn [edges]. apply in_or_app. right. left. reflexivity.
  - unfold linkNeighbors in *. simpl. apply IH. exact Hin.
Qed.

Lemma gyroidConnect_edges_mono (nx ny : Z) (m : NodeMap) (e : Z * Z)
      (g : NetworkData) (entry : Z * Z) :
  In e (edges g) -> In e (edges (gyroidConnect nx ny m g entry)).
Proof.
  intros He. destruct entry as [k v]. unfold gyroidConnect.
  destruct (gridCoords nx ny k) as [[[x y] z]|]; [|exact He].
  apply linkNeighbors_edges_mono. exact He.
Qed.

Lemma gyroidConnect_nodes (nx ny : Z) (m : NodeMap) (g : NetworkData)
      (entry : Z * Z) :
  nodes (gyroidConnect nx ny m g entry) = nodes g.
Proof.
  destruct entry as [k v]. unfold gyroidConnect.
  destruct (gridCoords nx ny k) as [[[x y] z]|]; [|reflexivity].
  apply linkNeighbors_nodes.
Qed.

(** The connection pass links an entry to whatever the map holds at the
    grid id one past its own, its [x+1] neighbour id. *)
Lemma gyroid_connect_links_next_id (nx ny : Z) (m : NodeMap)
      (k r j x y z : Z) :
  gridCoords nx ny k = Some (x, y, z) ->
  map_get m (idx nx ny (x + 1) y z) = Some j ->
  forall (l : list (Z * Z)) (g : NetworkData),
    In (k, r) l ->
    In (r, j) (edges (fold_left (gyroidConnect nx ny m) l g)).
Proof.
  intros Hc Hget. induction l as [|e l IH]; intros g Hin; [contradiction|].
  simpl. destruct Hin as [E|Hin].
  - subst e.
    apply (fold_left_invariant (fun g' => In (r, j) (edges g'))).
    + intros g' e' _ H. apply gyroidConnect_edges_mono. exact H.
    + unfold gyroidConnect. rewrite Hc.
      apply linkNeighbors_adds with (a := (x + 1)%Z) (b := y) (c := z);
        [left; reflexivity|exact Hget].
  - apply IH. exact Hin.
Qed.

(** ** Bounds on sines and cosines

    Partial sums of the alternating series bound [sin] on [0, 4] and [cos]
    on [-2, 2]. *)

Lemma INR_fact_3 : INR (fact 3) = 6.
Proof. rewrite INR_IZR_INZ. reflexivity. Qed.
Lemma INR_fact_5 : INR (fact 5) = 120.
Proof. rewrite INR_IZR_INZ. reflexivity. Qed.
Lemma INR_fact_7 : INR (fact 7) = 5040.
Proof. rewrite INR_IZR_INZ. reflexivity. Qed.
Lemma INR_fact_2 : INR (fact 2) = 2.
Proof. rewrite INR_IZR_INZ. reflexivity. Qed.
Lemma INR_fact_4 : INR (fact 4) = 24.
Proof. rewrite INR_IZR_INZ. reflexivity. Qed.
Lemma INR_fact_6 : INR (fact 6) = 720.
Proof. rewrite INR_IZR_INZ. reflexivity. Qed.

Lemma sin_approx_3 a : sin_approx a 3 = a - a^3/6 + a^5/120 - a^7/5040.
Proof.
  unfold sin_approx, sin_term. cbn [sum_f_R0].
  change (2 * 0 + 1)%nat with 1%nat. change (2 * 1 + 1)%nat with 3%nat.
  change (2 * 2 + 1)%nat with 5%nat. change (2 * 3 + 1)%nat with 7%nat.
  rewrite INR_fact_3, INR_fact_5, INR_fact_7.
  change (fact 1) with 1%nat. change (INR 1) with 1.
  field.
Qed.
Lemma sin_approx_1 a : sin_approx a 1 = a - a^3/6.
Proof.
  unfold sin_approx, sin_term. cbn [sum_f_R0].
  change (2 * 0 + 1)%nat with 1%nat. change (2 * 1 + 1)%nat with 3%nat.
  rewrite INR_fact_3.
  change (fact 1) with 1%nat. change (INR 1) with 1.
  field.
Qed.
Lemma sin_approx_2 a : sin_approx a 2 = a - a^3/6 + a^5/120.
Proof.
  unfold sin_approx, sin_term. cbn [sum_f_R0].
  change (2 * 0 + 1)%nat with 1%nat. change (2 * 1 + 1)%nat with 3%nat.
  change (2 * 2 + 1)%nat with 5%nat. 
  rewrite INR_fact_3, INR_fact_5.
  change (fact 1) with 1%nat. change (INR 1) with 1.
  field.
Qed.
Lemma cos_approx_1 a : cos_approx a 1 = 1 - a^2/2.
Proof.
  unfold cos_approx, cos_term. cbn [sum_f_R0].
  change (2 * 0)%nat with 0%nat. change (2 * 1)%nat with 2%nat.
  rewrite INR_fact_2.
  change (fact 0) with 1%nat. change (INR 1) with 1.
  field.
Qed.
Lemma cos_approx_2 a : cos_approx a 2 = 1 - a^2/2 + a^4/24.
Proof.
  unfold cos_approx, cos_term. cbn [sum_f_R0].
  change (2 * 0)%nat with 0%nat. change (2 * 1)%nat with 2%nat.
  change (2 * 2)%nat with 4%nat.
  rewrite INR_fact_2, INR_fact_4.
  change (fact 0) with 1%nat. change (INR 1) with 1.
  field.
Qed.
Lemma cos_approx_3 a : cos_approx a 3 = 1 - a^2/2 + a^4/24 - a^6/720.
Proof.
  unfold cos_approx, cos_term. cbn [sum_f_R0].
  change (2 * 0)%nat with 0%nat. change (2 * 1)%nat with 2%nat.
  change (2 * 2)%nat with 4%nat. change (2 * 3)%nat with 6%nat.
  rewrite INR_fact_2, INR_fact_4, INR_fact_6.
  change (fact 0) with 1%nat. change (INR 1) with 1.
  field.
Qed.

Lemma sin_lower_1 a : 0 <= a <= 4 -> a - a^3/6 <= sin a.
Proof. intros [H1 H2]. destruct (pre_sin_bound a 0 H1 H2) as [H _].
  change (2 * 0 + 1)%nat with 1%nat in H. rewrite sin_approx_1 in H. exact H. Qed.
Lemma sin_lower_3 a : 0 <= a <= 4 -> a - a^3/6 + a^5/120 - a^7/5040 <= sin a.
Proof. intros [H1 H2]. destruct (pre_sin_bound a 1 H1 H2) as [H _].
  change (2 * 1 + 1)%nat with 3%nat in H. rewrite sin_approx_3 in H. exact H. Qed.
Lemma sin_upper_2 a : 0 <= a <= 4 -> sin a <= a - a^3/6 + a^5/120.
Proof. intros [H1 H2]. destruct (pre_sin_bound a 0 H1 H2) as [_ H].
  change (2 * (0 + 1))%nat with 2%nat in H. rewrite sin_approx_2 in H. exact H. Qed.
Lemma cos_lower_1 a : -2 <= a <= 2 -> 1 - a^2/2 <= cos a.
Proof. intros [H1 H2]. destruct (pre_cos_bound a 0 H1 H2) as [H _].
  change (2 * 0 + 1)%nat with 1%nat in H. rewrite cos_approx_1 in H. exact H. Qed.
Lemma cos_lower_3 a : -2 <= a <= 2 -> 1 - a^2/2 + a^4/24 - a^6/720 <= cos a.
Proof. intros [H1 H2]. destruct (pre_cos_bound a 1 H1 H2) as [H _].
  change (2 * 1 + 1)%nat with 3%nat in H. rewrite cos_approx_3 in H. exact H. Qed.
Lemma cos_upper_2 a : -2 <= a <= 2 -> cos a <= 1 - a^2/2 + a^4/24.
Proof. intros [H1 H2]. destruct (pre_cos_bound a 0 H1 H2) as [_ H].
  change (2 * (0 + 1))%nat with 2%nat in H. rewrite cos_approx_2 in H. exact H. Qed.

(** ** The Gyroid lattice at the scene's default Stool *)

Lemma Zceil_eq (z : Z) (x : R) : IZR z - 1 < x <= IZR z -> Zceil x = z.
Proof.
  intros H. unfold Zceil. rewrite (Zfloor_eq (- z) (- x)); [lia|].
  rewrite opp_IZR. lra.
Qed.

Lemma gyroid_val_9_1_5 : Rabs (gyroidVal 0.34 0 0.02) < 0.5.
Proof.
  unfold gyroidVal, gyroidScale.
  replace (0.34 * 8.0) with (2 * 1.36) by lra.
  replace (0 * 8.0) with 0 by lra.
  replace (0.02 * 8.0) with 0.16 by lra.
  rewrite sin_2a, cos_2a_sin, sin_0, cos_0.
  pose proof (sin_lower_1 1.36 ltac:(lra)) as S1.
  pose proof (SIN_bound 1.36) as S1'.
  pose proof (cos_lower_1 1.36 ltac:(lra)) as C1.
  pose proof (cos_upper_2 1.36 ltac:(lra)) as C1'.
  pose proof (sin_lower_1 0.16 ltac:(lra)) as S2.
  pose proof (sin_upper_2 0.16 ltac:(lra)) as S2'.
  pose proof (COS_bound 0.16) as C2.
  set (s := sin 1.36) in *. set (c := cos 1.36) in *.
  set (t := sin 0.16) in *. set (u := cos 0.16) in *.
  assert (0.94 <= s) by lra. assert (0.07 <= c <= 0.22) by lra.
  assert (0.159 <= t <= 0.16) by lra.
  apply Rabs_def1; nra.
Qed.

Lemma gyroid_val_0_2_5 : Rabs (gyroidVal (-0.38) 0.08 0.02) < 0.5.
Proof.
  unfold gyroidVal, gyroidScale.
  replace (-0.38 * 8.0) with (- (2 * 1.52)) by lra.
  replace (0.08 * 8.0) with 0.64 by lra.
  replace (0.02 * 8.0) with 0.16 by lra.
  rewrite sin_neg, cos_neg, sin_2a, cos_2a_sin.
  pose proof (sin_lower_3 1.52 ltac:(lra)) as S1.
  pose proof (SIN_bound 1.52) as S1'.
  pose proof (cos_lower_3 1.52 ltac:(lra)) as C1.
  pose proof (cos_upper_2 1.52 ltac:(lra)) as C1'.
  pose proof (sin_lower_1 0.16 ltac:(lra)) as S2.
  pose proof (sin_upper_2 0.16 ltac:(lra)) as S2'.
  pose proof (cos_lower_1 0.16 ltac:(lra)) as C2.
  pose proof (COS_bound 0.16) as C2'.
  pose proof (sin_lower_1 0.64 ltac:(lra)) as S3.
  pose proof (sin_upper_2 0.64 ltac:(lra)) as S3'.
  pose proof (cos_lower_1 0.64 ltac:(lra)) as C3.
  pose proof (COS_bound 0.64) as C3'.
  set (s := sin 1.52) in *. set (c := cos 1.52) in *.
  set (t := sin 0.16) in *. set (u := cos 0.16) in *.
  set (p := sin 0.64) in *. set (q := cos 0.64) in *.
  assert (0.998 <= s <= 1) by lra. assert (0.05 <= c <= 0.068) by lra.
  assert (0.159 <= t <= 0.16) by lra. assert (0.98 <= u <= 1) by lra.
  assert (0.59 <= p <= 0.598) by lra. assert (0.79 <= q <= 1) by lra.
  assert (0 <= 2 * s * c <= 0.136) by nra.
  assert (0.99 <= 2 * s * s) by nra.
  assert (0 <= 2 * s * c * q <= 0.136) by nra.
  assert (0.57 <= p * u <= 0.598) by nra.
  assert (-0.16 <= t * (1 - 2 * s * s) <= -0.15) by nra.
  apply Rabs_def1; lra.
Qed.

Lemma default_stool_keeps_9_1_5 : gyroidKeep (sceneDefaults Gyroid) Stool 9 1 5 = true.
Proof.
  unfold gyroidKeep, gyroidPos, sceneDefaults, gyroidRes.
  cbn [width height depth seatHeight].
  replace (- 0.6 / 2 - 0.08 + 9 * 0.08) with 0.34 by lra.
  replace (- 0.08 + 1 * 0.08) with 0 by lra.
  replace (- 0.6 / 2 - 0.08 + 5 * 0.08) with 0.02 by lra.
  apply andb_true_intro. split.
  - unfold isInsideFurniture, lerp. cbn [width height depth seatHeight].
    cmp_eval. reflexivity.
  - apply ltb_true_iff.
    match goal with
    | |- Rabs (gyroidVal ?a ?b ?c) < _ =>
        replace a with 0.34 by lra; replace b with 0 by lra;
        replace c with 0.02 by lra
    end.
    exact gyroid_val_9_1_5.
Qed.

Lemma default_stool_keeps_0_2_5 : gyroidKeep (sceneDefaults Gyroid) Stool 0 2 5 = true.
Proof.
  unfold gyroidKeep, gyroidPos, sceneDefaults, gyroidRes.
  cbn [width height depth seatHeight].
  replace (- 0.6 / 2 - 0.08 + 0 * 0.08) with (-0.38) by lra.
  replace (- 0.08 + 2 * 0.08) with 0.08 by lra.
  replace (- 0.6 / 2 - 0.08 + 5 * 0.08) with 0.02 by lra.
  apply andb_true_intro. split.
  - unfold isInsideFurniture, lerp. cbn [width height depth seatHeight].
    cmp_eval. reflexivity.
  - apply ltb_true_iff.
    match goal with
    | |- Rabs (gyroidVal ?a ?b ?c) < _ =>
        replace a with (-0.38) by lra; replace b with 0.08 by lra;
        replace c with 0.02 by lra
    end.
    exact gyroid_val_0_2_5.
Qed.

Lemma Zceil_width : Zceil (0.6 / gyroidRes) = 8%Z.
Proof. apply Zceil_eq. unfold gyroidRes. simpl. lra. Qed.
Lemma Zceil_height : Zceil (0.9 / gyroidRes) = 12%Z.
Proof. apply Zceil_eq. unfold gyroidRes. simpl. lra. Qed.


Lemma small_multiple_zero (n a d : Z) :
  (- n < a < n)%Z -> (a = n * d)%Z -> d = 0%Z.
Proof.
  intros Ha E.
  destruct (Z.eq_dec d 0) as [|Hd]; [assumption|].
  assert (Hc : (1 <= d \/ d <= -1)%Z) by lia.
  destruct Hc; nia.
Qed.

Lemma idx_injective (nx ny x y z x' y' z' : Z) :
  (0 <= x < nx)%Z -> (0 <= y < ny)%Z -> (0 <= x' < nx)%Z -> (0 <= y' < ny)%Z ->
  idx nx ny x' y' z' = idx nx ny x y z -> (x', y', z') = (x, y, z).
Proof.
  unfold idx. intros Hx Hy Hx' Hy' E.
  assert (E1 : ((y + z * ny) - (y' + z' * ny) = 0)%Z).
  { apply (small_multiple_zero nx (x' - x)); [lia|]. lia. }
  assert (Ex : x' = x) by lia. subst x'.
  assert (E2 : (z - z' = 0)%Z).
  { apply (small_multiple_zero ny (y' - y)); [lia|]. lia. }
  assert (Ez : z' = z) by lia. subst z'.
  assert (Ey : y' = y) by lia. subst y'.
  reflexivity.
Qed.

Lemma gridCoords_of_idx (nx ny x y z : Z) :
  (0 <= x < nx)%Z -> (0 <= y < ny)%Z -> (0 <= z)%Z ->
  gridCoords nx ny (idx nx ny x y z) = Some (x, y, z).
Proof.
  intros Hx Hy Hz. unfold gridCoords.
  assert (Hxy : (0 < nx * ny)%Z) by nia.
  destruct (nx * ny =? 0)%Z eqn:E; [apply Z.eqb_eq in E; lia|].
  assert (Ez : (idx nx ny x y z / (nx * ny) = z)%Z).
  { symmetry. apply Z.div_unique with (r := (x + y * nx)%Z); [|unfold idx; ring].
    left. nia. }
  rewrite Ez.
  assert (Ey : ((idx nx ny x y z - z * nx * ny) / nx = y)%Z).
  { symmetry. apply Z.div_unique with (r := x); [left; lia|unfold idx; ring]. }
  rewrite Ey.
  assert (Exx : Z.rem (idx nx ny x y z) nx = x).
  { rewrite Z.rem_mod_nonneg; [| |lia].
    - symmetry. apply Z.mod_unique with (q := (y + z * ny)%Z);
        [left; lia|unfold idx; ring].
    - apply idx_nonneg; lia. }
  rewrite Exx. reflexivity.
Qed.

Lemma fold_left_ext {S A : Type} (f f' : S -> A -> S) (l : list A) :
  (forall st a, f st a = f' st a) ->
  forall st, fold_left f l st = fold_left f' l st.
Proof.
  intros H. induction l as [|a l IH]; intros st; simpl; [reflexivity|].
  rewrite H. apply IH.
Qed.

(** Two kept grid points with consecutive grid ids are linked, whether or
    not they are neighbours in the grid. *)
Lemma gyroid_links_consecutive_ids (params : FurnitureParams)
      (type : FurnitureType) (x y z x' y' z' : Z) :
  let nx := (Zceil (width params / gyroidRes) + 2)%Z in
  let ny := (Zceil (height params / gyroidRes) + 2)%Z in
  let nz := (Zceil (depth params / gyroidRes) + 2)%Z in
  let G := generateVolumeGyroid emptyNet params type in
  (0 <= x < nx)%Z -> (0 <= y < ny)%Z -> (0 <= z < nz)%Z ->
  (0 <= x' < nx)%Z -> (0 <= y' < ny)%Z -> (0 <= z' < nz)%Z ->
  gyroidKeep params type x y z = true ->
  gyroidKeep params type x' y' z' = true ->
  idx nx ny x' y' z' = (idx nx ny x y z + 1)%Z ->
  exists i j : Z,
    In (i, j) (edges G)
    /\ (let '(wx, wy, wz) := gyroidPos params x y z in
        nodeAt G i = vec3 wx wy wz)
    /\ (let '(wx, wy, wz) := gyroidPos params x' y' z' in
        nodeAt G j = vec3 wx wy wz).
Proof.
  intros nx ny nz G Hx Hy Hz Hx' Hy' Hz' Hk Hk' Hnext.
  unfold G, generateVolumeGyroid. fold nx ny nz.
  rewrite gridLoop_cells.
  rewrite (fold_left_ext _
             (sampleCell (gyroidKeep params type) (gyroidPos params) nx ny))
    by (intros st [[a b] c]; apply gyroidCell_sampleCell).
  set (cs := cells (range nx) (range ny) (range nz)).
  assert (Hinj : forall c c', In c cs -> In c' cs ->
             let '(a, b, c0) := c in let '(a', b', c0') := c' in
             idx nx ny a' b' c0' = idx nx ny a b c0 -> c' = c).
  { intros [[a b] c] [[a' b'] c'] Hc Hc'. unfold cs in Hc, Hc'.
    apply In_cells in Hc, Hc'. rewrite !In_range in Hc, Hc'.
    apply idx_injective; tauto. }
  assert (Hin : In (x, y, z) cs)
    by (apply In_cells; rewrite !In_range; auto).
  assert (Hin' : In (x', y', z') cs)
    by (apply In_cells; rewrite !In_range; auto).
  pose proof (sampling_has_node (gyroidKeep params type) (gyroidPos params)
                nx ny (x, y, z) Hk cs (fun c' Hc' => Hinj _ c' Hin Hc')
                (emptyNet, []) (or_intror Hin)) as HP.
  pose proof (sampling_has_node (gyroidKeep params type) (gyroidPos params)
                nx ny (x', y', z') Hk' cs (fun c' Hc' => Hinj _ c' Hin' Hc')
                (emptyNet, []) (or_intror Hin')) as HQ.
  destruct (fold_left _ cs _) as [g m].
  unfold has_node in HP, HQ. cbn [fst snd] in HP, HQ.
  destruct (gyroidPos params x y z) as [[wx wy] wz].
  destruct (gyroidPos params x' y' z') as [[wx' wy'] wz'].
  destruct HP as [i [Hgi [Hi Hni]]]. destruct HQ as [j [Hgj [Hj Hnj]]].
  exists i, j.
  assert (Hnodes : nodes (fold_left (gyroidConnect nx ny m) m g) = nodes g).
  { apply (fold_left_invariant (fun g' => nodes g' = nodes g)); [|reflexivity].
    intros g' e _ H. rewrite gyroidConnect_nodes. exact H. }
  split; [|split].
  - apply gyroid_connect_links_next_id with (k := idx nx ny x y z)
                                            (x := x) (y := y) (z := z).
    + apply gridCoords_of_idx; lia.
    + replace (idx nx ny (x + 1) y z) with (idx nx ny x' y' z');
        [exact Hgj|rewrite Hnext; unfold idx; ring].
    + apply map_get_In. exact Hgi.
  - unfold nodeAt in *. rewrite Hnodes. exact Hni.
  - unfold nodeAt in *. rewrite Hnodes. exact Hnj.
Qed.

(** C2 (the code at a failing input). For the Stool at the scene's default
    dimensions the Gyroid generator emits an edge from the node of grid
    point (9, 1, 5), at world position (0.34, 0, 0.02), to the node of grid
    point (0, 2, 5), at (-0.38, 0.08, 0.02).  Both points are kept, and the
    second has the grid id one past the first: with [nx = 10] the id of the
    absent [x+1] neighbour (10, 1, 5) is the id of (0, 2, 5).  The two nodes
    are nine cells apart in [x] and one in [y]: neither is the +x, +y or +z
    grid neighbour of the other. *)
Theorem gyroid_stool_wraparound_edge :
  forall rnd : Oracle,
    exists i j : Z,
      In (i, j) (edges (generateFurniture rnd Stool (sceneDefaults Gyroid)))
      /\ nodeAt (generateFurniture rnd Stool (sceneDefaults Gyroid)) i
         = vec3 0.34 0 0.02
      /\ nodeAt (generateFurniture rnd Stool (sceneDefaults Gyroid)) j
         = vec3 (-0.38) 0.08 0.02.
Proof.
  intros rnd.
  change (generateFurniture rnd Stool (sceneDefaults Gyroid))
    with (generateVolumeGyroid emptyNet (sceneDefaults Gyroid) Stool).
  pose proof (gyroid_links_consecutive_ids (sceneDefaults Gyroid) Stool 9 1 5 0 2 5) as H.
  cbv zeta in H.
  change (width (sceneDefaults Gyroid)) with 0.6 in H.
  change (height (sceneDefaults Gyroid)) with 0.9 in H.
  change (depth (sceneDefaults Gyroid)) with 0.6 in H.
  rewrite Zceil_width, Zceil_height in H.
  destruct H as [i [j [He [Hi Hj]]]];
    try lia; try exact default_stool_keeps_9_1_5; try exact default_stool_keeps_0_2_5; try reflexivity.
  exists i, j. split; [exact He|].
  unfold gyroidPos, gyroidRes in Hi, Hj.
  change (width (sceneDefaults Gyroid)) with 0.6 in Hi, Hj.
  change (depth (sceneDefaults Gyroid)) with 0.6 in Hi, Hj.
  split.
  - rewrite Hi. f_equal; lra.
  - rewrite Hj. f_equal; lra.
Qed.

(** ** The Gyroid keep rule *)

Lemma sampleCell_nodes_kept (keep : Z -> Z -> Z -> bool)
      (pos : Z -> Z -> Z -> R * R * R) (nx ny : Z)
      (cs : list (Z * Z * Z)) :
  forall st : NetworkData * NodeMap,
    nodes (fst st) = [] ->
    Forall
      (fun v =>
         exists x y z,
           In (x, y, z) cs /\ keep x y z = true
           /\ (let '(wx, wy, wz) := pos x y z in v = vec3 wx wy wz))
      (nodes (fst (fold_left (sampleCell keep pos nx ny) cs st))).
Proof.
  intros st Hst.
  apply (fold_left_invariant
           (fun st' =>
              Forall
                (fun v =>
                   exists x y z,
                     In (x, y, z) cs /\ keep x y z = true
                     /\ (let '(wx, wy, wz) := pos x y z in v = vec3 wx wy wz))
                (nodes (fst st')))).
  - intros st' [[x y] z] Hin H. unfold sampleCell.
    destruct (keep x y z) eqn:Hk; [|exact H].
    destruct (pos x y z) as [[wx wy] wz] eqn:Hpos.
    unfold addNode. cbn [fst nodes].
    apply Forall_app. split; [exact H|].
    constructor; [|constructor].
    exists x, y, z. rewrite Hpos. auto.
  - rewrite Hst. constructor.
Qed.

(** The kept-point half of C2, which the code satisfies: the nodes of the
    Gyroid graph are the world positions of the grid points that pass the
    classifier and have a surface value of absolute value below 0.5, and
    every such grid point has a node. *)
Lemma gyroid_keeps_exactly (params : FurnitureParams) (type : FurnitureType) :
  let nx := (Zceil (width params / gyroidRes) + 2)%Z in
  let ny := (Zceil (height params / gyroidRes) + 2)%Z in
  let nz := (Zceil (depth params / gyroidRes) + 2)%Z in
  let G := generateVolumeGyroid emptyNet params type in
  (forall v, In v (nodes G) ->
     exists x y z,
       ((0 <= x < nx)%Z /\ (0 <= y < ny)%Z /\ (0 <= z < nz)%Z)
       /\ gyroidKeep params type x y z = true
       /\ (let '(wx, wy, wz) := gyroidPos params x y z in v = vec3 wx wy wz))
  /\ (forall x y z,
        (0 <= x < nx)%Z -> (0 <= y < ny)%Z -> (0 <= z < nz)%Z ->
        gyroidKeep params type x y z = true ->
        let '(wx, wy, wz) := gyroidPos params x y z in
        In (vec3 wx wy wz) (nodes G)).
Proof.
  intros nx ny nz G.
  assert (HG : exists g m,
             fold_left (sampleCell (gyroidKeep params type)
                                   (gyroidPos params) nx ny)
                       (cells (range nx) (range ny) (range nz))
                       (emptyNet, []) = (g, m)
             /\ nodes G = nodes g).
  { unfold G, generateVolumeGyroid. fold nx ny nz.
    rewrite gridLoop_cells.
    rewrite (fold_left_ext
               (fun st c =>
                  let '(x, y, z) := c in gyroidCell params type nx ny x y z st)
               (sampleCell (gyroidKeep params type) (gyroidPos params) nx ny))
      by (intros st [[a b] c]; apply gyroidCell_sampleCell).
    destruct (fold_left (sampleCell _ _ _ _) _ _) as [g m]. exists g, m.
    split; [reflexivity|].
    apply (fold_left_invariant (fun g' => nodes g' = nodes g)); [|reflexivity].
    intros g' e _ H. rewrite gyroidConnect_nodes. exact H. }
  destruct HG as [g [m [Hfold Hnodes]]]. rewrite Hnodes. split.
  - intros v Hv.
    pose proof (sampleCell_nodes_kept (gyroidKeep params type)
                  (gyroidPos params) nx ny
                  (cells (range nx) (range ny) (range nz))
                  (emptyNet, []) eq_refl) as Hall.
    rewrite Hfold in Hall. cbn [fst] in Hall.
    rewrite Forall_forall in Hall.
    destruct (Hall v Hv) as [x [y [z [Hin [Hk Hp]]]]].
    exists x, y, z. apply In_cells in Hin. rewrite !In_range in Hin.
    auto.
  - intros x y z Hx Hy Hz Hk.
    assert (Hin : In (x, y, z) (cells (range nx) (range ny) (range nz)))
      by (apply In_cells; rewrite !In_range; auto).
    pose proof (sampling_has_node (gyroidKeep params type) (gyroidPos params)
                  nx ny (x, y, z) Hk
                  (cells (range nx) (range ny) (range nz))) as HP.
    assert (Hinj : forall c', In c' (cells (range nx) (range ny) (range nz)) ->
               let '(x0, y0, z0) := (x, y, z) in
               let '(x', y', z') := c' in
               idx nx ny x' y' z' = idx nx ny x0 y0 z0 -> c' = (x, y, z)).
    { intros [[a b] c] Hc E. apply In_cells in Hc. rewrite !In_range in Hc.
      apply (idx_injective nx ny); tauto. }
    specialize (HP Hinj (emptyNet, []) (or_intror Hin)).
    rewrite Hfold in HP. unfold has_node in HP. cbn [fst snd] in HP.
    destruct (gyroidPos params x y z) as [[wx wy] wz].
    destruct HP as [i [_ [Hi Hn]]]. rewrite <- Hn.
    unfold nodeAt. apply nth_In. unfold nodeCount in Hi. lia.
Qed.


(* ================================================================== *)
(** * Part III: further properties                                     *)
(* ================================================================== *)

(** ** Value noise *)

Lemma hash3i_of_Fin (x y z : Z) :
  Noise.hash3i_of (Fin x) (Fin y) (Fin z) = hash3i x y z.
Proof.
  unfold Noise.hash3i_of, hash3i, Noise.hash3i_bits_of, hash3i_bits.
  reflexivity.
Qed.

Lemma hash3i_of_range (x y z : jsint) : 0 <= Noise.hash3i_of x y z < 1.
Proof.
  unfold Noise.hash3i_of.
  assert (H : (0 <= Noise.hash3i_bits_of x y z < 2 ^ 32)%Z)
    by (unfold Noise.hash3i_bits_of, xorshift; apply ToUint32_range).
  destruct H as [Hlo Hhi]. apply IZR_le in Hlo. apply IZR_lt in Hhi.
  change (IZR (2 ^ 32)) with 4294967296 in Hhi.
  split.
  - apply Rmult_le_reg_r with 4294967296; [lra|].
    unfold Rdiv. rewrite Rmult_assoc, Rinv_l by lra. lra.
  - apply Rmult_lt_reg_r with 4294967296; [lra|].
    unfold Rdiv. rewrite Rmult_assoc, Rinv_l by lra. lra.
Qed.

Lemma smoothstep_unit (t : R) : 0 <= t <= 1 -> 0 <= Noise.smoothstep t <= 1.
Proof.
  intros [H0 H1]. unfold Noise.smoothstep. split.
  - apply Rmult_le_pos; [apply Rmult_le_pos; lra | lra].
  - assert (H : 1 - t * t * (3 - 2 * t) = (1 - t) * (1 - t) * (1 + 2 * t))
      by ring.
    assert (0 <= (1 - t) * (1 - t) * (1 + 2 * t)).
    { apply Rmult_le_pos; [apply Rmult_le_pos; lra | lra]. }
    lra.
Qed.

Lemma noise_lerp_range (a b t : R) :
  0 <= a < 1 -> 0 <= b < 1 -> 0 <= t <= 1 -> 0 <= Noise.lerp a b t < 1.
Proof.
  intros Ha Hb Ht. unfold Noise.lerp.
  replace (a + (b - a) * t) with ((1 - t) * a + t * b) by ring.
  split.
  - apply Rplus_le_le_0_compat; apply Rmult_le_pos; lra.
  - destruct (Rle_lt_dec t 0) as [Hz|Hp].
    + assert (t = 0) by lra. subst t. lra.
    + assert ((1 - t) * a <= (1 - t) * 1) by (apply Rmult_le_compat_l; lra).
      assert (t * b < t * 1) by (apply Rmult_lt_compat_l; lra).
      lra.
Qed.

Lemma frac_unit (x : R) : 0 <= x - IZR (Zfloor x) <= 1.
Proof. pose proof (Zfloor_bound x). lra. Qed.

Lemma noise3_range :
  forall x y z : R, 0 <= Noise.noise3 x y z < 1.
Proof.
  intros x y z. unfold Noise.noise3. cbv zeta.
  pose proof (smoothstep_unit _ (frac_unit x)) as Hu.
  pose proof (smoothstep_unit _ (frac_unit y)) as Hv.
  pose proof (smoothstep_unit _ (frac_unit z)) as Hw.
  repeat apply noise_lerp_range; auto using hash3i_of_range.
Qed.

(** X1. The value noise lies in [0, 1) at every point: it is a trilinear
    blend, with eased weights in [0, 1], of eight hash values in
    [0, 1). *)
Theorem noise3_unit_interval :
  forall x y z : R, 0 <= Noise.noise3 x y z < 1.
Proof. exact noise3_range. Qed.

(** X2. At a lattice point the value noise is the hash of that point: the
    fractional offsets are zero and every interpolation returns its first
    argument. *)
Theorem noise3_at_lattice_point :
  forall i j k : Z,
    Noise.noise3 (IZR i) (IZR j) (IZR k) = hash3i i j k.
Proof.
  intros i j k. unfold Noise.noise3. cbv zeta.
  rewrite !ZfloorZ.
  replace (IZR i - IZR i) with 0 by ring.
  replace (IZR j - IZR j) with 0 by ring.
  replace (IZR k - IZR k) with 0 by ring.
  assert (H0 : Noise.smoothstep 0 = 0) by (unfold Noise.smoothstep; ring).
  rewrite H0.
  assert (HL : forall a b, Noise.lerp a b 0 = a)
    by (intros; unfold Noise.lerp; ring).
  rewrite !HL. apply hash3i_of_Fin.
Qed.

(** X3. Every channel of the vector noise lies in [-0.5, 0.5). *)
Theorem noiseVec3_centred :
  forall (p : Vector3) (scale : R),
    (-0.5 <= vx (Noise.noiseVec3 p scale) < 0.5)
    /\ (-0.5 <= vy (Noise.noiseVec3 p scale) < 0.5)
    /\ (-0.5 <= vz (Noise.noiseVec3 p scale) < 0.5).
Proof.
  intros p scale. unfold Noise.noiseVec3. cbn [vx vy vz].
  pose proof (noise3_range (vx p * scale + 12.7) (vy p * scale + 78.2)
                (vz p * scale + 3.1)).
  pose proof (noise3_range (vx p * scale + 45.1) (vy p * scale + 10.5)
                (vz p * scale + 91.7)).
  pose proof (noise3_range (vx p * scale + 8.3) (vy p * scale + 63.9)
                (vz p * scale + 27.4)).
  repeat split; lra.
Qed.


(** ** Unit vectors and frames *)

Lemma v_dot_self_nonneg (v : Vector3) : 0 <= v_dot v v.
Proof. unfold v_dot. nra. Qed.

Lemma v_length_dot (v : Vector3) : v_length v = sqrt (v_dot v v).
Proof. reflexivity. Qed.

Lemma v_length_nonneg (v : Vector3) : 0 <= v_length v.
Proof. apply sqrt_pos. Qed.

Lemma v_length_sqr (v : Vector3) : v_length v * v_length v = v_dot v v.
Proof. rewrite v_length_dot. apply sqrt_sqrt. apply v_dot_self_nonneg. Qed.

Lemma v_length_scale (v : Vector3) (s : R) :
  v_length (multiplyScalar v s) = Rabs s * v_length v.
Proof.
  rewrite !v_length_dot. unfold multiplyScalar, v_dot. cbn [vx vy vz].
  replace (vx v * s * (vx v * s) + vy v * s * (vy v * s)
           + vz v * s * (vz v * s))
    with (Rsqr s * (vx v * vx v + vy v * vy v + vz v * vz v))
    by (unfold Rsqr; ring).
  rewrite sqrt_mult; [|apply Rle_0_sqr|apply (v_dot_self_nonneg v)].
  rewrite sqrt_Rsqr_abs. reflexivity.
Qed.

Lemma unit_dot_self (v : Vector3) : unit_vector v -> v_dot v v = 1.
Proof. unfold unit_vector. intros H. rewrite <- v_length_sqr, H. ring. Qed.

Lemma dot_self_unit (v : Vector3) : v_dot v v = 1 -> unit_vector v.
Proof. unfold unit_vector. intros H. rewrite v_length_dot, H. apply sqrt_1. Qed.

Lemma normalised_unit (v : Vector3) :
  0 < v_length v -> unit_vector (multiplyScalar v (1 / v_length v)).
Proof.
  intros H. unfold unit_vector. rewrite v_length_scale.
  rewrite Rabs_pos_eq.
  - field. lra.
  - apply Rlt_le. apply Rdiv_lt_0_compat; lra.
Qed.

Lemma unitX_unit : unit_vector unitX.
Proof.
  apply dot_self_unit. unfold v_dot, unitX. cbn [vx vy vz]. ring.
Qed.

Lemma safeUnit_cases :
  forall v fallback : Vector3,
    (v_length v < 1e-9 -> safeUnit v fallback = fallback)
    /\ (1e-9 <= v_length v ->
        unit_vector (safeUnit v fallback)
        /\ multiplyScalar (safeUnit v fallback) (v_length v) = v).
Proof.
  intros v fallback. unfold safeUnit. split.
  - intros H. apply ltb_true_iff in H. rewrite H. reflexivity.
  - intros H. assert (Hpos : 0 < v_length v) by lra.
    apply ltb_false_iff in H. rewrite H. split.
    + apply normalised_unit. exact Hpos.
    + destruct v as [x y z]. unfold multiplyScalar. cbn [vx vy vz].
      set (len := v_length (vec3 x y z)) in *.
      f_equal; field; lra.
Qed.

(** X4. [safeUnit] returns the fallback for a vector shorter than 1e-9 and
    otherwise a vector of length 1 with the direction of its argument: the
    argument is the result scaled by its own length. *)
Theorem safeUnit_spec :
  forall v fallback : Vector3,
    (v_length v < 1e-9 -> safeUnit v fallback = fallback)
    /\ (1e-9 <= v_length v ->
        unit_vector (safeUnit v fallback)
        /\ multiplyScalar (safeUnit v fallback) (v_length v) = v).
Proof. exact safeUnit_cases. Qed.

Lemma safeUnit_spec_witness :
  safeUnit (vec3 0 0 0) (vec3 0 1 0) = vec3 0 1 0
  /\ unit_vector (safeUnit (vec3 3 4 0) unitX).
Proof.
  assert (H5 : v_length (vec3 3 4 0) = 5).
  { unfold v_length. cbn [vx vy vz].
    replace (3 * 3 + 4 * 4 + 0 * 0) with (Rsqr 5) by (unfold Rsqr; ring).
    apply sqrt_Rsqr. lra. }
  split.
  - apply (proj1 (safeUnit_spec (vec3 0 0 0) (vec3 0 1 0))).
    rewrite v_length_zero. lra.
  - apply (proj2 (safeUnit_spec (vec3 3 4 0) unitX)).
    rewrite H5. lra.
Defined.

Lemma safeUnit_unit (v fallback : Vector3) :
  unit_vector fallback -> unit_vector (safeUnit v fallback).
Proof.
  intros Hf. destruct (Rlt_le_dec (v_length v) 1e-9) as [H|H].
  - rewrite (proj1 (safeUnit_cases v fallback) H). exact Hf.
  - apply (proj2 (safeUnit_cases v fallback) H).
Qed.

Lemma long_enough (n : Vector3) (c : R) :
  v_dot n n = c -> 0.1 <= c -> ltb (v_length n) 1e-9 = false.
Proof.
  intros Hd Hc. apply ltb_false_iff.
  pose proof (v_length_sqr n) as Hs. pose proof (v_length_nonneg n) as Hn.
  rewrite Hd in Hs.
  destruct (Rle_lt_dec 1e-9 (v_length n)) as [|Hlt]; [assumption|].
  exfalso. assert (v_length n * v_length n <= 1e-9 * 1e-9) by nra. lra.
Qed.

Lemma v_dot_scale_l (v w : Vector3) (s : R) :
  v_dot (multiplyScalar v s) w = s * v_dot v w.
Proof. unfold v_dot, multiplyScalar. cbn [vx vy vz]. ring. Qed.

Lemma initialNormal_frame :
  forall t : Vector3,
    unit_vector (initialNormalFromTangent t)
    /\ v_dot (initialNormalFromTangent t) (safeUnit t unitX) = 0.
Proof.
  intros t. unfold initialNormalFromTangent. cbv zeta.
  pose proof (unit_dot_self _ (safeUnit_unit t unitX unitX_unit)) as Hu.
  set (tn := safeUnit t unitX) in *.
  destruct tn as [a b c]. unfold v_dot in Hu. cbn [vx vy vz] in Hu.
  unfold gtb.
  destruct (ltb 0.92 (Rabs (v_dot (vec3 a b c) (vec3 0 0 1)))) eqn:E.
  - apply ltb_true_iff in E. unfold v_dot in E. cbn [vx vy vz] in E.
    replace (a * 0 + b * 0 + c * 1) with c in E by ring.
    assert (Hc : 0.92 * 0.92 < c * c).
    { unfold Rabs in E. destruct (Rcase_abs c); nra. }
    set (n := crossVectors (vec3 a b c) (vec3 1 0 0)).
    assert (Hn : v_dot n n = b * b + c * c)
      by (unfold n, crossVectors, v_dot; cbn [vx vy vz]; ring).
    assert (Hlen : ltb (v_length n) 1e-9 = false)
      by (apply (long_enough n _ Hn); nra).
    unfold safeUnit. rewrite Hlen.
    assert (Hpos : 0 < v_length n) by (apply ltb_false_iff in Hlen; lra).
    split; [apply normalised_unit; exact Hpos|].
    rewrite v_dot_scale_l.
    replace (v_dot n (vec3 a b c)) with 0
      by (unfold n, crossVectors, v_dot; cbn [vx vy vz]; ring).
    ring.
  - apply ltb_false_iff in E. unfold v_dot in E. cbn [vx vy vz] in E.
    replace (a * 0 + b * 0 + c * 1) with c in E by ring.
    assert (Hc : c * c <= 0.92 * 0.92).
    { unfold Rabs in E. destruct (Rcase_abs c); nra. }
    set (n := crossVectors (vec3 a b c) (vec3 0 0 1)).
    assert (Hn : v_dot n n = a * a + b * b)
      by (unfold n, crossVectors, v_dot; cbn [vx vy vz]; ring).
    assert (Hlen : ltb (v_length n) 1e-9 = false)
      by (apply (long_enough n _ Hn); nra).
    unfold safeUnit. rewrite Hlen.
    assert (Hpos : 0 < v_length n) by (apply ltb_false_iff in Hlen; lra).
    split; [apply normalised_unit; exact Hpos|].
    rewrite v_dot_scale_l.
    replace (v_dot n (vec3 a b c)) with 0
      by (unfold n, crossVectors, v_dot; cbn [vx vy vz]; ring).
    ring.
Qed.

(** X5. For every tangent, [initialNormalFromTangent] returns a vector of
    length 1 orthogonal to the normalised tangent; its own fallback is
    never taken. *)
Theorem initialNormalFromTangent_unit_orthogonal :
  forall t : Vector3,
    unit_vector (initialNormalFromTangent t)
    /\ v_dot (initialNormalFromTangent t) (safeUnit t unitX) = 0.
Proof. exact initialNormal_frame. Qed.

Lemma transportNormal_frame :
  forall prevT currT prevN : Vector3,
    (unit_vector prevN -> unit_vector (transportNormal prevT currT prevN))
    /\ (transportNormal prevT currT prevN = prevN
        \/ (unit_vector (transportNormal prevT currT prevN)
            /\ v_dot (transportNormal prevT currT prevN)
                     (safeUnit currT unitX) = 0)).
Proof.
  intros prevT currT prevN. unfold transportNormal. cbv zeta.
  set (a := safeUnit prevT unitX). set (b := safeUnit currT unitX).
  destruct (ltb (v_length (crossVectors a b)) 1e-9); [split; auto|].
  set (n := addScaledVector _ b _).
  assert (Hb : v_dot b b = 1)
    by (apply unit_dot_self; apply safeUnit_unit; exact unitX_unit).
  assert (Hnb : v_dot n b = 0).
  { unfold n. set (r := applyQuaternion _ _).
    unfold addScaledVector, v_dot in *. cbn [vx vy vz] in *. 
    transitivity ((vx r * vx b + vy r * vy b + vz r * vz b)
                  * (1 - (vx b * vx b + vy b * vy b + vz b * vz b)));
      [ring|rewrite Hb; ring]. }
  destruct (Rlt_le_dec (v_length n) 1e-9) as [H|H].
  - rewrite (proj1 (safeUnit_cases n prevN) H). split; auto.
  - destruct (proj2 (safeUnit_cases n prevN) H) as [Hu _].
    split; [intros _; exact Hu|]. right. split; [exact Hu|].
    unfold safeUnit. apply ltb_false_iff in H. rewrite H.
    rewrite v_dot_scale_l, Hnb. ring.
Qed.

(** X6. [transportNormal] keeps a unit normal a unit vector, and whenever
    it does not hand back the previous normal its result is orthogonal to
    the normalised current tangent. *)
Theorem transportNormal_unit_orthogonal :
  forall prevT currT prevN : Vector3,
    (unit_vector prevN -> unit_vector (transportNormal prevT currT prevN))
    /\ (transportNormal prevT currT prevN = prevN
        \/ (unit_vector (transportNormal prevT currT prevN)
            /\ v_dot (transportNormal prevT currT prevN)
                     (safeUnit currT unitX) = 0)).
Proof. exact transportNormal_frame. Qed.

Lemma transportNormal_unit_orthogonal_witness :
  unit_vector (transportNormal (vec3 1 0 0) (vec3 0 1 0) (vec3 0 0 1)).
Proof.
  apply (proj1 (transportNormal_unit_orthogonal
                  (vec3 1 0 0) (vec3 0 1 0) (vec3 0 0 1))).
  apply dot_self_unit. unfold v_dot. cbn [vx vy vz]. ring.
Defined.


(** ** Bezier sampling *)

Lemma cubicBezierPoint_0 (p0 p1 p2 p3 : Vector3) :
  cubicBezierPoint p0 p1 p2 p3 0 = p0.
Proof.
  destruct p0 as [x y z]. unfold cubicBezierPoint. cbn [vx vy vz].
  f_equal; ring.
Qed.

Lemma cubicBezierPoint_1 (p0 p1 p2 p3 : Vector3) :
  cubicBezierPoint p0 p1 p2 p3 1 = p3.
Proof.
  destruct p3 as [x y z]. unfold cubicBezierPoint. cbn [vx vy vz].
  f_equal; ring.
Qed.

Lemma sampleBezier_ends :
  forall (p0 h0 h1 p3 : Vector3) (samples : nat),
    length (sampleBezier p0 h0 h1 p3 samples) = (samples + 1)%nat
    /\ ((1 <= samples)%nat ->
        hd (vec3 0 0 0) (sampleBezier p0 h0 h1 p3 samples) = p0
        /\ last (sampleBezier p0 h0 h1 p3 samples) (vec3 0 0 0) = p3).
Proof.
  intros p0 h0 h1 p3 samples. unfold sampleBezier. split.
  - rewrite length_map, length_seq. reflexivity.
  - intros Hs. split.
    + replace (samples + 1)%nat with (S samples) by lia. cbn [seq map hd].
      replace (INR 0 / INR samples) with 0 by (simpl; unfold Rdiv; ring).
      apply cubicBezierPoint_0.
    + rewrite seq_app, map_app. cbn [seq map]. rewrite last_last.
      replace (INR (0 + samples) / INR samples) with 1.
      * apply cubicBezierPoint_1.
      * rewrite Nat.add_0_l. field. apply not_0_INR. lia.
Qed.

(** X7. [sampleBezier] returns [samples + 1] points; with at least one
    segment the first is the start point and the last is the end point. *)
Theorem sampleBezier_endpoints :
  forall (p0 h0 h1 p3 : Vector3) (samples : nat),
    length (sampleBezier p0 h0 h1 p3 samples) = (samples + 1)%nat
    /\ ((1 <= samples)%nat ->
        hd (vec3 0 0 0) (sampleBezier p0 h0 h1 p3 samples) = p0
        /\ last (sampleBezier p0 h0 h1 p3 samples) (vec3 0 0 0) = p3).
Proof. exact sampleBezier_ends. Qed.

Lemma sampleBezier_endpoints_witness :
  hd (vec3 0 0 0) (sampleBezier (vec3 0 0 0) (vec3 1 0 0) (vec3 2 0 0)
                                (vec3 3 0 0) 4) = vec3 0 0 0
  /\ last (sampleBezier (vec3 0 0 0) (vec3 1 0 0) (vec3 2 0 0)
                        (vec3 3 0 0) 4) (vec3 0 0 0) = vec3 3 0 0.
Proof.
  apply (proj2 (sampleBezier_endpoints (vec3 0 0 0) (vec3 1 0 0) (vec3 2 0 0)
                                       (vec3 3 0 0) 4)).
  lia.
Defined.

(** ** The shape of a serpentine *)

Lemma distanceTo_nonneg (a b : Vector3) : 0 <= distanceTo a b.
Proof. unfold distanceTo. apply sqrt_pos. Qed.

Lemma last_as_nth {A : Type} (l : list A) (d : A) :
  last l d = nth (length l - 1) l d.
Proof.
  induction l as [|a l IH]; [reflexivity|].
  destruct l as [|b l']; [reflexivity|].
  change (last (a :: b :: l') d) with (last (b :: l') d).
  rewrite IH. cbn [length].
  replace (S (S (length l')) - 1)%nat with (S (S (length l') - 1)) by lia.
  reflexivity.
Qed.

(** The cumulative lengths start at 0, end at the total, grow up to it and
    number as many as the points. *)
Lemma arc_fold_shape (points : list Vector3) :
  forall (ixs : list nat) (cum : list R) (total : R),
    Forall (fun c => 0 <= c <= total) cum ->
    (forall d, last cum d = total) ->
    nth 0 cum 1 = 0 ->
    let st :=
      fold_left
        (fun st i =>
           let '(cum, total) := st in
           let total :=
             total + distanceTo (pointAt points (i + 1)) (pointAt points i) in
           (cum ++ [total], total))
        ixs (cum, total) in
    Forall (fun c => 0 <= c <= snd st) (fst st)
    /\ (forall d, last (fst st) d = snd st)
    /\ nth 0 (fst st) 1 = 0
    /\ length (fst st) = (length cum + length ixs)%nat.
Proof.
  induction ixs as [|i ixs IH]; intros cum total Hall Hlast H0; cbn [fold_left].
  - cbn [fst snd length]. rewrite Nat.add_0_r. auto.
  - set (t' := total + distanceTo (pointAt points (i + 1)) (pointAt points i)).
    pose proof (distanceTo_nonneg (pointAt points (i + 1)) (pointAt points i)).
    assert (Hcum : cum <> []) by (intros E; subst cum; simpl in H0; lra).
    assert (Ht : 0 <= total).
    { destruct cum as [|c cum']; [contradiction|].
      rewrite Forall_forall in Hall.
      specialize (Hall (last (c :: cum') 0)).
      rewrite Hlast in Hall. apply Hall.
      rewrite <- (Hlast 0).
      destruct (exists_last Hcum) as [l' [a E]]. rewrite E.
      rewrite last_last. apply in_or_app. right. left. reflexivity. }
    specialize (IH (cum ++ [t']) t').
    destruct IH as [H1 [H2 [H3 H4]]].
    + apply Forall_app. split.
      * eapply Forall_impl; [|exact Hall]. cbv beta. intros c Hc.
        unfold t'. lra.
      * constructor; [unfold t'; lra|constructor].
    + intros d. apply last_last.
    + destruct cum as [|c cum']; [contradiction|]. exact H0.
    + split; [exact H1|]. split; [exact H2|]. split; [exact H3|].
      etransitivity; [exact H4|]. rewrite length_app. cbn [length]. lia.
Qed.

Lemma arcLengths_shape (points : list Vector3) :
  Forall (fun c => 0 <= c <= snd (arcLengths points)) (fst (arcLengths points))
  /\ nth 0 (fst (arcLengths points)) 0 = 0
  /\ nth (length points - 1) (fst (arcLengths points)) 0
     = snd (arcLengths points).
Proof.
  unfold arcLengths.
  destruct (arc_fold_shape points (seq 0 (length points - 1)) [0] 0)
    as [H1 [H2 [H3 H4]]].
  - constructor; [lra|constructor].
  - intros d. reflexivity.
  - reflexivity.
  - cbv zeta in *. split; [exact H1|]. split.
    + destruct (fst (fold_left _ _ _)) as [|c l]; [reflexivity|exact H3].
    + rewrite <- (H2 0). rewrite last_as_nth. rewrite H4.
      rewrite length_seq. cbn [length].
      replace (1 + (length points - 1) - 1)%nat with (length points - 1)%nat
        by lia.
      reflexivity.
Qed.


Lemma taperEnvelope_unit (taperFraction u : R) :
  0 <= u <= 1 -> 0 <= taperEnvelope taperFraction u <= 1.
Proof.
  intros Hu. unfold taperEnvelope, gtb.
  destruct (ltb 0 taperFraction) eqn:Ht; [|lra].
  apply ltb_true_iff in Ht.
  assert (He : forall e, 0 <= e <= 1 -> 0 <= e * e * (3 - 2 * e) <= 1)
    by (intros e H; apply (smoothstep_unit e H)).
  apply He.
  destruct (ltb u taperFraction) eqn:E1.
  - apply ltb_true_iff in E1. split.
    + apply Rmult_le_pos; [lra|]. apply Rlt_le, Rinv_0_lt_compat. exact Ht.
    + apply Rmult_le_reg_r with taperFraction; [exact Ht|].
      unfold Rdiv. rewrite Rmult_assoc, Rinv_l by lra. lra.
  - destruct (ltb (1 - taperFraction) u) eqn:E2; [|lra].
    apply ltb_true_iff in E2. split.
    + apply Rmult_le_pos; [lra|]. apply Rlt_le, Rinv_0_lt_compat. exact Ht.
    + apply Rmult_le_reg_r with taperFraction; [exact Ht|].
      unfold Rdiv. rewrite Rmult_assoc, Rinv_l by lra. lra.
Qed.

Lemma serpentineDisp_bound (cum : list R)
      (total frequency amplitude taperFraction : R) (i : nat) :
  0 < total -> Forall (fun c => 0 <= c <= total) cum ->
  Rabs (serpentineDisp cum total frequency amplitude taperFraction i)
  <= Rabs amplitude.
Proof.
  intros Ht Hall. unfold serpentineDisp. cbv zeta.
  set (u := nth i cum 0 / total).
  assert (Hc : 0 <= nth i cum 0 <= total).
  { destruct (nth_in_or_default i cum 0) as [Hin|Hd].
    - rewrite Forall_forall in Hall. apply Hall. exact Hin.
    - rewrite Hd. lra. }
  assert (Hu : 0 <= u <= 1).
  { unfold u. split.
    - apply Rmult_le_pos; [lra|]. apply Rlt_le, Rinv_0_lt_compat. exact Ht.
    - apply Rmult_le_reg_r with total; [exact Ht|].
      unfold Rdiv. rewrite Rmult_assoc, Rinv_l by lra. lra. }
  pose proof (taperEnvelope_unit taperFraction u Hu) as He.
  pose proof (SIN_bound (PI * 2 * frequency * u)) as Hs.
  rewrite !Rabs_mult.
  assert (Rabs (sin (PI * 2 * frequency * u)) <= 1)
    by (apply Rabs_le; lra).
  assert (Rabs (taperEnvelope taperFraction u) <= 1)
    by (apply Rabs_le; lra).
  pose proof (Rabs_pos amplitude).
  pose proof (Rabs_pos (sin (PI * 2 * frequency * u))).
  pose proof (Rabs_pos (taperEnvelope taperFraction u)).
  set (s := Rabs (sin (PI * 2 * frequency * u))) in *.
  set (e := Rabs (taperEnvelope taperFraction u)) in *.
  set (a := Rabs amplitude) in *.
  assert (s * a <= a) by nra.
  assert (0 <= s * a) by (apply Rmult_le_pos; lra).
  assert (s * a * e <= s * a * 1) by (apply Rmult_le_compat_l; lra).
  lra.
Qed.

Lemma distanceTo_addScaled (p n : Vector3) (d : R) :
  distanceTo (addScaledVector p n d) p = Rabs d * v_length n.
Proof.
  rewrite <- v_length_scale. unfold distanceTo, v_length, addScaledVector,
    multiplyScalar. cbn [vx vy vz]. f_equal. ring.
Qed.

(** The displacement loop moves sample [i] along a unit normal by the
    displacement of that sample. *)
Lemma serpentine_loop_shape (points : list Vector3) (cum : list R)
      (total frequency amplitude taper : R) :
  forall (ixs : list nat) (out : list Vector3) (prevT prevN : Vector3),
    unit_vector prevN ->
    exists ns : list Vector3,
      length ns = length ixs
      /\ Forall unit_vector ns
      /\ fst (fst (fold_left
                     (serpentineStep points cum total frequency amplitude taper)
                     ixs (out, prevT, prevN)))
         = out ++ map (fun p =>
                         addScaledVector (pointAt points (fst p)) (snd p)
                           (serpentineDisp cum total frequency amplitude taper
                                           (fst p)))
                      (combine ixs ns).
Proof.
  induction ixs as [|i ixs IH]; intros out prevT prevN Hu.
  - exists []. cbn. rewrite app_nil_r. auto.
  - cbn [fold_left]. unfold serpentineStep at 2. cbv zeta.
    match goal with
    | |- context [transportNormal prevT ?t prevN] =>
        set (tt := t); set (n := transportNormal prevT tt prevN)
    end.
    assert (Hn : unit_vector n)
      by (apply (proj1 (transportNormal_frame prevT tt prevN)); auto).
    destruct (IH (out ++ [addScaledVector (pointAt points i) n
                            (serpentineDisp cum total frequency amplitude
                                            taper i)]) tt n Hn)
      as [ns [Hlen [Hall Heq]]].
    exists (n :: ns). split; [cbn; lia|]. split; [constructor; auto|].
    etransitivity; [exact Heq|]. rewrite <- app_assoc. reflexivity.
Qed.

(** Either an early return gives the input back, or every sample is moved
    along a unit normal by its displacement. *)
Lemma serpentinize_shape (points : list Vector3)
      (frequency amplitude taper : R) :
  serpentinize points frequency amplitude taper = points
  \/ (3 <= length points)%nat
     /\ 1e-9 <= snd (arcLengths points)
     /\ exists ns : list Vector3,
          length ns = length points
          /\ Forall unit_vector ns
          /\ serpentinize points frequency amplitude taper
             = map (fun p =>
                      addScaledVector (pointAt points (fst p)) (snd p)
                        (serpentineDisp (fst (arcLengths points))
                           (snd (arcLengths points)) frequency amplitude taper
                           (fst p)))
                   (combine (seq 0 (length points)) ns).
Proof.
  unfold serpentinize.
  destruct (length points <? 3)%nat eqn:Hlen; [left; reflexivity|].
  apply Nat.ltb_ge in Hlen.
  destruct (arcLengths points) as [cum total] eqn:Harc. cbn [fst snd].
  destruct (ltb total 1e-9) eqn:Ht; [left; reflexivity|].
  apply ltb_false_iff in Ht. right. split; [exact Hlen|]. split; [exact Ht|].
  set (prevT := v_sub (pointAt points 1) (pointAt points 0)).
  destruct (serpentine_loop_shape points cum total frequency amplitude taper
              (seq 0 (length points)) [] prevT (initialNormalFromTangent prevT)
              (proj1 (initialNormal_frame prevT)))
    as [ns [Hl [Hall Heq]]].
  exists ns. rewrite length_seq in Hl. split; [exact Hl|]. split; [exact Hall|].
  destruct (fold_left _ _ _) as [[out pT] pN]. cbn [fst] in Heq.
  exact Heq.
Qed.

Lemma serpentinize_same_length :
  forall (points : list Vector3) (frequency amplitude taperFraction : R),
    length (serpentinize points frequency amplitude taperFraction)
    = length points.
Proof.
  intros points frequency amplitude taper.
  destruct (serpentinize_shape points frequency amplitude taper)
    as [E|[_ [_ [ns [Hl [_ E]]]]]]; rewrite E; [reflexivity|].
  rewrite length_map, length_combine, length_seq, Hl. apply Nat.min_id.
Qed.

(** X8. [serpentinize] returns as many points as it is given. *)
Theorem serpentinize_length :
  forall (points : list Vector3) (frequency amplitude taperFraction : R),
    length (serpentinize points frequency amplitude taperFraction)
    = length points.
Proof. exact serpentinize_same_length. Qed.

Lemma Forall2_map_combine {A B C : Type} (P : C -> C -> Prop)
      (g : A * B -> C) (h : A -> C) :
  forall (l : list A) (ns : list B),
    length ns = length l ->
    (forall a b, In a l -> In b ns -> P (g (a, b)) (h a)) ->
    Forall2 P (map g (combine l ns)) (map h l).
Proof.
  induction l as [|a l IH]; intros ns Hl H.
  - constructor.
  - destruct ns as [|b ns]; [discriminate|]. cbn.
    constructor.
    + apply H; left; reflexivity.
    + apply IH; [cbn in Hl; lia|].
      intros; apply H; right; assumption.
Qed.

(** X9. No sample is moved farther than the amplitude: each output point
    lies within [|amplitude|] of the input point at the same position in
    the polyline. *)
Theorem serpentinize_displacement_bounded :
  forall (points : list Vector3) (frequency amplitude taperFraction : R),
    Forall2 (fun o p => distanceTo o p <= Rabs amplitude)
            (serpentinize points frequency amplitude taperFraction) points.
Proof.
  intros points frequency amplitude taper.
  destruct (serpentinize_shape points frequency amplitude taper)
    as [E|[_ [Ht [ns [Hl [Hall E]]]]]]; rewrite E.
  - clear E. induction points as [|p l IH]; constructor; [|exact IH].
    rewrite distanceTo_self. apply Rabs_pos.
  - match goal with
    | |- Forall2 ?P (map ?g ?c) points =>
        assert (H : Forall2 P (map g c)
                            (map (pointAt points) (seq 0 (length points))));
          [|rewrite map_pointAt_seq in H; exact H]
    end.
    apply Forall2_map_combine; [rewrite length_seq; exact Hl|].
    intros i n _ Hn. cbn [fst snd].
    rewrite distanceTo_addScaled.
    rewrite Forall_forall in Hall. rewrite (Hall n Hn), Rmult_1_r.
    apply serpentineDisp_bound; [lra|].
    apply (proj1 (arcLengths_shape points)).
Qed.








(** ** The strut path of the scene *)



(** ** Grid generators: nodes *)

Lemma sampleCell_nodes (keep : Z -> Z -> Z -> bool)
      (pos : Z -> Z -> Z -> R * R * R) (nx ny : Z) :
  forall (cs : list (Z * Z * Z)) (st : NetworkData * NodeMap),
    nodes (fst (fold_left (sampleCell keep pos nx ny) cs st))
    = nodes (fst st) ++ map (posVec pos) (filter (keepAt keep) cs).
Proof.
  induction cs as [|[[x y] z] cs IH]; intros st; cbn [fold_left filter].
  - cbn. rewrite app_nil_r. reflexivity.
  - rewrite IH. unfold sampleCell.
    change (keepAt keep (x, y, z)) with (keep x y z).
    destruct (keep x y z); [|reflexivity].
    cbn [map].
    change (posVec pos (x, y, z))
      with (let '(wx, wy, wz) := pos x y z in vec3 wx wy wz).
    destruct (pos x y z) as [[wx wy] wz].
    unfold addNode. cbn [fst nodes]. rewrite <- app_assoc. reflexivity.
Qed.

Lemma gyroid_sampling_fold (params : FurnitureParams) (type : FurnitureType) :
  gridLoop (range (gyroidNx params)) (range (gyroidNy params))
           (range (gyroidNz params))
           (gyroidCell params type (gyroidNx params) (gyroidNy params))
           (emptyNet, [])
  = fold_left (sampleCell (gyroidKeep params type) (gyroidPos params)
                          (gyroidNx params) (gyroidNy params))
              (gyroidCells params) (emptyNet, []).
Proof.
  rewrite gridLoop_cells. apply fold_left_ext.
  intros st [[a b] c]. apply gyroidCell_sampleCell.
Qed.

Lemma triangular_sampling_fold (params : FurnitureParams)
      (type : FurnitureType) :
  gridLoop (range (triangularNx params + 1)) (range (triangularNy params + 1))
           (range (triangularNz params + 1))
           (triangularCell params type (triangularNx params)
                           (triangularNy params))
           (emptyNet, [])
  = fold_left (sampleCell (triangularKeep params type) (triangularPos params)
                          (triangularNx params) (triangularNy params))
              (triangularCells params) (emptyNet, []).
Proof.
  rewrite gridLoop_cells. apply fold_left_ext.
  intros st [[a b] c]. apply triangularCell_sampleCell.
Qed.

Lemma gyroid_connect_nodes (nx ny : Z) (m l : NodeMap) (g : NetworkData) :
  nodes (fold_left (gyroidConnect nx ny m) l g) = nodes g.
Proof.
  apply (fold_left_invariant (fun g' => nodes g' = nodes g)); [|reflexivity].
  intros g' e _ H. rewrite gyroidConnect_nodes. exact H.
Qed.

Lemma triangular_connect_nodes (nx ny : Z) (m l : NodeMap) (g : NetworkData) :
  nodes (fold_left (triangularConnect nx ny m) l g) = nodes g.
Proof.
  apply (fold_left_invariant (fun g' => nodes g' = nodes g)); [|reflexivity].
  intros g' [k v] _ H. unfold triangularConnect.
  destruct (gridCoords nx ny k) as [[[x y] z]|]; [|exact H].
  rewrite linkNeighbors_nodes. exact H.
Qed.

(** The generators are the instances at the exact values. *)
Lemma generateVolumeGyroid_on (params : FurnitureParams)
      (type : FurnitureType) :
  generateVolumeGyroid emptyNet params type
  = gyroidGraphOn (gyroidKeep params type) (gyroidPos params)
                  (gyroidNx params) (gyroidNy params) (gyroidNz params).
Proof.
  unfold generateVolumeGyroid, gyroidGraphOn.
  change (Zceil (width params / gyroidRes) + 2)%Z with (gyroidNx params).
  change (Zceil (height params / gyroidRes) + 2)%Z with (gyroidNy params).
  change (Zceil (depth params / gyroidRes) + 2)%Z with (gyroidNz params).
  rewrite !gridLoop_cells.
  rewrite (fold_left_ext
             (fun st c => let '(x, y, z) := c in
                          gyroidCell params type (gyroidNx params)
                                     (gyroidNy params) x y z st)
             (fun st c => let '(x, y, z) := c in
                          sampleCell (gyroidKeep params type)
                                     (gyroidPos params) (gyroidNx params)
                                     (gyroidNy params) st (x, y, z))).
  - reflexivity.
  - intros st [[a b] c]. apply gyroidCell_sampleCell.
Qed.

Lemma generateVolumeTriangular_on (params : FurnitureParams)
      (type : FurnitureType) :
  generateVolumeTriangular emptyNet params type
  = triangularGraphOn (triangularKeep params type) (triangularPos params)
                      (triangularNx params) (triangularNy params)
                      (triangularNz params).
Proof.
  unfold generateVolumeTriangular, triangularGraphOn.
  change (Zceil (width params / cellSize)) with (triangularNx params).
  change (Zceil (height params / cellSize)) with (triangularNy params).
  change (Zceil (depth params / cellSize)) with (triangularNz params).
  rewrite !gridLoop_cells.
  rewrite (fold_left_ext
             (fun st c => let '(x, y, z) := c in
                          triangularCell params type (triangularNx params)
                                         (triangularNy params) x y z st)
             (fun st c => let '(x, y, z) := c in
                          sampleCell (triangularKeep params type)
                                     (triangularPos params)
                                     (triangularNx params)
                                     (triangularNy params) st (x, y, z))).
  - reflexivity.
  - intros st [[a b] c]. apply triangularCell_sampleCell.
Qed.

Lemma sampling_on_fold (keep : Z -> Z -> Z -> bool)
      (pos : Z -> Z -> Z -> R * R * R) (nx ny : Z) (xs ys zs : list Z) :
  gridLoop xs ys zs (fun x y z st => sampleCell keep pos nx ny st (x, y, z))
           (emptyNet, [])
  = fold_left (sampleCell keep pos nx ny) (cells xs ys zs) (emptyNet, []).
Proof.
  rewrite gridLoop_cells. apply fold_left_ext.
  intros st [[a b] c]. reflexivity.
Qed.

Lemma sampling_no_edges (keep : Z -> Z -> Z -> bool)
      (pos : Z -> Z -> Z -> R * R * R) (nx ny : Z) (cs : list (Z * Z * Z)) :
  edges (fst (fold_left (sampleCell keep pos nx ny) cs (emptyNet, []))) = [].
Proof.
  apply (fold_left_invariant
           (fun st : NetworkData * NodeMap => edges (fst st) = []));
    [|reflexivity].
  intros [g m] [[x y] z] _ H. unfold sampleCell.
  destruct (keep x y z); [|exact H].
  destruct (pos x y z) as [[wx wy] wz]. exact H.
Qed.

(** X12. Whatever the grid size, the positions and the keep decisions a run
    computes, the node list of a grid generator is the list of positions
    of the grid points it keeps, in loop order ([x] outermost, then [y],
    then [z]), one node per kept grid point: for Gyroid over
    [0 <= x < nx], for Triangular over [0 <= x <= nx] (both bounds
    included). *)
Theorem grid_generator_nodes :
  forall (keep : Z -> Z -> Z -> bool) (pos : Z -> Z -> Z -> R * R * R)
         (nx ny nz : Z),
    nodes (gyroidGraphOn keep pos nx ny nz)
    = map (posVec pos)
          (filter (keepAt keep) (cells (range nx) (range ny) (range nz)))
    /\ nodes (triangularGraphOn keep pos nx ny nz)
       = map (posVec pos)
             (filter (keepAt keep)
                     (cells (range (nx + 1)) (range (ny + 1))
                            (range (nz + 1)))).
Proof.
  intros keep pos nx ny nz. split.
  - unfold gyroidGraphOn. rewrite sampling_on_fold.
    pose proof (sampleCell_nodes keep pos nx ny
                  (cells (range nx) (range ny) (range nz))
                  (emptyNet, [])) as H.
    destruct (fold_left _ _ _) as [g m]. cbn [fst] in H.
    rewrite gyroid_connect_nodes. exact H.
  - unfold triangularGraphOn. rewrite sampling_on_fold.
    pose proof (sampleCell_nodes keep pos nx ny
                  (cells (range (nx + 1)) (range (ny + 1)) (range (nz + 1)))
                  (emptyNet, [])) as H.
    destruct (fold_left _ _ _) as [g m]. cbn [fst] in H.
    rewrite triangular_connect_nodes. exact H.
Qed.


(** ** Grid generators: ids and edges *)

(** X13. On the grid, [idx] and the coordinates recovered by the
    connection pass are inverse to each other: for [0 <= x < nx],
    [0 <= y < ny] and [0 <= z] the grid id decodes to [(x, y, z)], and the
    coordinates decoded from a non-negative id encode back to it. *)
Theorem grid_id_round_trip :
  forall nx ny x y z : Z,
    (0 <= x < nx)%Z -> (0 <= y < ny)%Z -> (0 <= z)%Z ->
    gridCoords nx ny (idx nx ny x y z) = Some (x, y, z)
    /\ (forall k x' y' z',
           (0 <= k)%Z -> gridCoords nx ny k = Some (x', y', z') ->
           idx nx ny x' y' z' = k).
Proof.
  intros nx ny x y z Hx Hy Hz. split.
  - apply gridCoords_of_idx; assumption.
  - intros k x' y' z' Hk Hc.
    apply (gridCoords_idx nx ny k x' y' z' Hc Hk); lia.
Qed.

Lemma grid_id_round_trip_witness :
  gridCoords 10 14 (idx 10 14 9 1 5) = Some (9, 1, 5)%Z.
Proof.
  apply (proj1 (grid_id_round_trip 10 14 9 1 5 ltac:(lia) ltac:(lia)
                                   ltac:(lia))).
Defined.

(** Every map entry of a sampling pass is the grid id of a kept grid point
    and the id of the node at its position. *)
Lemma sampling_entries (keep : Z -> Z -> Z -> bool)
      (pos : Z -> Z -> Z -> R * R * R) (nx ny : Z) (cs : list (Z * Z * Z)) :
  let st := fold_left (sampleCell keep pos nx ny) cs (emptyNet, []) in
  forall k v,
    In (k, v) (snd st) ->
    exists c, In c cs /\ keepAt keep c = true /\ k = idxAt nx ny c
              /\ (0 <= v < nodeCount (fst st))%Z
              /\ nodeAt (fst st) v = posVec pos c.
Proof.
  apply (fold_left_invariant
           (fun st : NetworkData * NodeMap =>
              forall k v,
                In (k, v) (snd st) ->
                exists c, In c cs /\ keepAt keep c = true
                          /\ k = idxAt nx ny c
                          /\ (0 <= v < nodeCount (fst st))%Z
                          /\ nodeAt (fst st) v = posVec pos c)).
  - intros [g m] [[x y] z] Hin Hst k v Hkv. unfold sampleCell in Hkv |- *.
    destruct (keep x y z) eqn:Hk; [|apply Hst; exact Hkv].
    destruct (pos x y z) as [[wx wy] wz] eqn:Hpos.
    cbn [fst snd] in *. rewrite nodeCount_addNode.
    apply map_set_In in Hkv. destruct Hkv as [E|Hold].
    + inversion E; subst k v. exists (x, y, z).
      pose proof (nodeCount_nonneg g).
      repeat split; auto; try lia.
      rewrite nodeAt_addNode_new. unfold posVec. rewrite Hpos. reflexivity.
    + destruct (Hst k v Hold) as [c [H1 [H2 [H3 [H4 H5]]]]].
      exists c. repeat split; auto; try lia.
      rewrite nodeAt_addNode_old by exact H4. exact H5.
  - intros k v [].
Qed.

Lemma linkNeighbors_edges (nx ny : Z) (m : NodeMap) (realIdx : Z)
      (Q : Z * Z -> Prop) :
  forall (neighbors : list (Z * Z * Z)) (g : NetworkData),
    Forall Q (edges g) ->
    (forall a b c j, In (a, b, c) neighbors ->
                     map_get m (idx nx ny a b c) = Some j -> Q (realIdx, j)) ->
    Forall Q (edges (linkNeighbors nx ny m realIdx neighbors g)).
Proof.
  unfold linkNeighbors.
  induction neighbors as [|[[a b] c] l IH]; intros g Hg Hn; cbn [fold_left];
    [exact Hg|].
  apply IH; [|intros; eapply Hn; [right; eassumption|eassumption]].
  destruct (map_get m (idx nx ny a b c)) as [j|] eqn:E; [|exact Hg].
  unfold link. cbn [edges]. apply Forall_app. split; [exact Hg|].
  constructor; [|constructor]. apply (Hn a b c j); [left; reflexivity|exact E].
Qed.

(** Each edge of the Gyroid connection pass joins two map entries whose
    grid ids differ by 1, by [nx] or by [nx * ny]. *)
Lemma gyroid_connect_edges (nx ny : Z) (m : NodeMap) (g : NetworkData) :
  entries_ok nx ny (nodeCount g) m -> edges g = [] ->
  Forall (fun e =>
            exists k k', In (k, fst e) m /\ In (k', snd e) m
                         /\ (k' = k + 1 \/ k' = k + nx \/ k' = k + nx * ny)%Z)
         (edges (fold_left (gyroidConnect nx ny m) m g)).
Proof.
  intros Hent Hg.
  apply (fold_left_invariant
           (fun g' =>
              Forall (fun e =>
                        exists k k', In (k, fst e) m /\ In (k', snd e) m
                          /\ (k' = k + 1 \/ k' = k + nx \/ k' = k + nx * ny)%Z)
                     (edges g'))).
  - intros g' [k r] Hin Hg'. unfold gyroidConnect.
    destruct (gridCoords nx ny k) as [[[x y] z]|] eqn:Hc; [|exact Hg'].
    destruct (proj1 Hent _ _ Hin) as [_ [Hk [Hnx Hny]]].
    destruct (gridCoords_idx _ _ _ _ _ _ Hc Hk Hnx Hny) as [E _].
    apply linkNeighbors_edges; [exact Hg'|].
    intros a b c j Hn Hget. apply map_get_In in Hget.
    exists k, (idx nx ny a b c). cbn [fst snd].
    split; [exact Hin|]. split; [exact Hget|].
    destruct Hn as [H|[H|[H|[]]]]; inversion H; subst a b c;
      unfold idx in *; [left|right; left|right; right]; lia.
  - rewrite Hg. constructor.
Qed.

Lemma gyroid_edges_ids :
  forall (rnd : Oracle) (type : FurnitureType) (w h d s : R),
    let params := mkParams w h d s Gyroid in
    let G := generateFurniture rnd type params in
    let nx := gyroidNx params in
    let ny := gyroidNy params in
    Forall
      (fun e =>
         exists c c',
           In c (gyroidCells params) /\ In c' (gyroidCells params)
           /\ keepAt (gyroidKeep params type) c = true
           /\ keepAt (gyroidKeep params type) c' = true
           /\ nodeAt G (fst e) = posVec (gyroidPos params) c
           /\ nodeAt G (snd e) = posVec (gyroidPos params) c'
           /\ (idxAt nx ny c' = idxAt nx ny c + 1
               \/ idxAt nx ny c' = idxAt nx ny c + nx
               \/ idxAt nx ny c' = idxAt nx ny c + nx * ny)%Z)
      (edges G).
Proof.
  intros rnd type w h d s params G nx ny.
  unfold G.
  change (generateFurniture rnd type params)
    with (generateVolumeGyroid emptyNet params type).
  unfold generateVolumeGyroid.
  change (Zceil (width params / gyroidRes) + 2)%Z with (gyroidNx params).
  change (Zceil (height params / gyroidRes) + 2)%Z with (gyroidNy params).
  change (Zceil (depth params / gyroidRes) + 2)%Z with (gyroidNz params).
  pose proof (sampling_inv (gyroidKeep params type) (gyroidPos params)
                (gyroidNx params) (gyroidNy params)
                (gyroidNx params) (gyroidNy params) (gyroidNz params)
                (gyroidCell params type (gyroidNx params) (gyroidNy params))
                (gyroidCell_sampleCell params type _ _)
                ltac:(lia) ltac:(lia)) as Hinv.
  rewrite gyroid_sampling_fold in Hinv |- *.
  pose proof (sampling_entries (gyroidKeep params type) (gyroidPos params)
                (gyroidNx params) (gyroidNy params) (gyroidCells params))
    as Hent.
  pose proof (sampleCell_nodes (gyroidKeep params type) (gyroidPos params)
                (gyroidNx params) (gyroidNy params) (gyroidCells params)
                (emptyNet, [])) as Hnodes.
  assert (Hedges : edges (fst (fold_left
                     (sampleCell (gyroidKeep params type) (gyroidPos params)
                                 (gyroidNx params) (gyroidNy params))
                     (gyroidCells params) (emptyNet, []))) = []).
  { apply (fold_left_invariant
             (fun st : NetworkData * NodeMap => edges (fst st) = []));
      [|reflexivity].
    intros [g m] [[x y] z] _ H. unfold sampleCell.
    destruct (gyroidKeep params type x y z); [|exact H].
    destruct (gyroidPos params x y z) as [[wx wy] wz]. exact H. }
  cbv zeta in Hent.
  destruct (fold_left _ (gyroidCells params) _) as [g m].
  cbn [fst snd] in *. destruct Hinv as [_ Hok].
  pose proof (gyroid_connect_edges (gyroidNx params) (gyroidNy params) m g
                Hok Hedges) as HE.
  eapply Forall_impl; [|exact HE].
  intros [i j] [k [k' [Hi [Hj Hd]]]]. cbn [fst snd] in *.
  destruct (Hent k i Hi) as [c [Hc [Hkc [Ek [_ Hn]]]]].
  destruct (Hent k' j Hj) as [c' [Hc' [Hkc' [Ek' [_ Hn']]]]].
  exists c, c'. unfold nodeAt in *. rewrite gyroid_connect_nodes.
  fold nx ny. subst k k'. repeat split; auto.
Qed.

(** X14. Whatever the grid size, the positions and the keep decisions a
    run computes, every edge of a Gyroid graph joins the nodes of two kept
    grid points whose grid ids differ by 1, by [nx] or by [nx * ny]: the
    code decides adjacency on the flattened id alone. *)
Theorem gyroid_edges_by_grid_id :
  forall (keep : Z -> Z -> Z -> bool) (pos : Z -> Z -> Z -> R * R * R)
         (nx ny nz : Z),
    let G := gyroidGraphOn keep pos nx ny nz in
    let grid := cells (range nx) (range ny) (range nz) in
    Forall
      (fun e =>
         exists c c',
           In c grid /\ In c' grid
           /\ keepAt keep c = true /\ keepAt keep c' = true
           /\ nodeAt G (fst e) = posVec pos c
           /\ nodeAt G (snd e) = posVec pos c'
           /\ (idxAt nx ny c' = idxAt nx ny c + 1
               \/ idxAt nx ny c' = idxAt nx ny c + nx
               \/ idxAt nx ny c' = idxAt nx ny c + nx * ny)%Z)
      (edges G).
Proof.
  intros keep pos nx ny nz G grid. unfold G, gyroidGraphOn.
  pose proof (sampling_inv keep pos nx ny nx ny nz
                (fun x y z st => sampleCell keep pos nx ny st (x, y, z))
                (fun x y z st => eq_refl) ltac:(lia) ltac:(lia)) as Hinv.
  rewrite sampling_on_fold in Hinv |- *. fold grid in Hinv |- *.
  pose proof (sampling_entries keep pos nx ny grid) as Hent.
  pose proof (sampling_no_edges keep pos nx ny grid) as Hedges.
  cbv zeta in Hent.
  destruct (fold_left _ grid _) as [g m].
  cbn [fst snd] in *. destruct Hinv as [_ Hok].
  pose proof (gyroid_connect_edges nx ny m g Hok Hedges) as HE.
  eapply Forall_impl; [|exact HE].
  intros [i j] [k [k' [Hi [Hj Hd]]]]. cbn [fst snd] in *.
  destruct (Hent k i Hi) as [c [Hc [Hkc [Ek [_ Hn]]]]].
  destruct (Hent k' j Hj) as [c' [Hc' [Hkc' [Ek' [_ Hn']]]]].
  exists c, c'. unfold nodeAt in *. rewrite gyroid_connect_nodes.
  subst k k'. repeat split; auto.
Qed.


(** ** The box-built classifiers *)

Ltac split_or H :=
  match type of H with
  | (_ || _) = true =>
      apply orb_prop in H; destruct H as [H|H]; [split_or H|]
  | _ => idtac
  end.

Ltac box_bounds H :=
  repeat match type of H with
         | (_ && _) = true =>
             let H' := fresh "B" in
             apply andb_prop in H; destruct H as [H H'];
             unfold geb in H'; apply leb_true_iff in H'
         end;
  unfold geb in H; apply leb_true_iff in H.

Ltac unfold_abs :=
  repeat match goal with
         | H : context [Rabs ?x] |- _ =>
             unfold Rabs in H; destruct (Rcase_abs x)
         end.

Lemma box_slab :
  forall (type : FurnitureType) (x y z : R) (params : FurnitureParams),
    type <> Stool -> type <> Vase ->
    0 <= width params -> 0 <= height params -> 0 <= seatHeight params ->
    isInsideFurniture type x y z params = true ->
    - (width params / 2) <= x <= width params / 2
    /\ 0 <= y
    /\ (type <> Chair -> y <= height params).
Proof.
  intros type x y z [w h d s p] Hs Hv Hw Hh Hsh H.
  cbn [width height seatHeight] in *.
  unfold isInsideFurniture in H. cbn [width height depth seatHeight] in H.
  destruct type; try contradiction; split_or H; box_bounds H; unfold_abs;
    (split; [lra|split; [lra|intros Hc; try contradiction; lra]]).
Qed.

(** X15. A point inside an archetype built from boxes (every archetype but
    the round Stool and Vase), for non-negative width, height and seat
    height, lies in the slab [|x| <= width / 2] and not below the ground;
    but for the Chair it is not above [height] either. *)
Theorem box_classifier_within_slab :
  forall (type : FurnitureType) (x y z : R) (params : FurnitureParams),
    type <> Stool -> type <> Vase ->
    0 <= width params -> 0 <= height params -> 0 <= seatHeight params ->
    isInsideFurniture type x y z params = true ->
    - (width params / 2) <= x <= width params / 2
    /\ 0 <= y
    /\ (type <> Chair -> y <= height params).
Proof. exact box_slab. Qed.

Lemma box_classifier_within_slab_witness :
  - (width (mkParams 1 1 1 0.5 Linear) / 2) <= 0
    <= width (mkParams 1 1 1 0.5 Linear) / 2
  /\ 0 <= 0.95
  /\ (Table <> Chair -> 0.95 <= height (mkParams 1 1 1 0.5 Linear)).
Proof.
  apply (box_classifier_within_slab Table 0 0.95 0 (mkParams 1 1 1 0.5 Linear)).
  - discriminate.
  - discriminate.
  - cbn. lra.
  - cbn. lra.
  - cbn. lra.
  - exact table_top_slab_inside.
Defined.

Lemma neighbour_from_id (nx ny x y z x' y' z' : Z) :
  (0 <= x < nx)%Z -> (0 <= y < ny)%Z ->
  (1 <= x' < nx)%Z -> (1 <= y' < ny)%Z ->
  (idx nx ny x' y' z' = idx nx ny x y z + 1
   \/ idx nx ny x' y' z' = idx nx ny x y z + nx
   \/ idx nx ny x' y' z' = idx nx ny x y z + nx * ny)%Z ->
  grid_neighbour (x, y, z) (x', y', z').
Proof.
  unfold idx, grid_neighbour. intros Hx Hy Hx' Hy' [E|[E|E]].
  - left.
    assert (E1 : ((y + z * ny) - (y' + z' * ny) = 0)%Z)
      by (apply (small_multiple_zero nx (x' - x - 1)); lia).
    assert (E2 : (z - z' = 0)%Z)
      by (apply (small_multiple_zero ny (y' - y)); lia).
    f_equal; [f_equal|]; lia.
  - right. left.
    assert (E1 : ((y + 1 + z * ny) - (y' + z' * ny) = 0)%Z)
      by (apply (small_multiple_zero nx (x' - x)); lia).
    assert (E2 : (z - z' = 0)%Z)
      by (apply (small_multiple_zero ny (y' - y - 1)); lia).
    f_equal; [f_equal|]; lia.
  - right. right.
    assert (E1 : ((y + (z + 1) * ny) - (y' + z' * ny) = 0)%Z)
      by (apply (small_multiple_zero nx (x' - x)); lia).
    assert (E2 : (z + 1 - z' = 0)%Z)
      by (apply (small_multiple_zero ny (y' - y)); lia).
    f_equal; [f_equal|]; lia.
Qed.

(** For a box-built archetype the padding column [x = 0] and the padding
    row [y = 0] of the Gyroid grid hold no kept point. *)
Lemma gyroid_padding_empty (params : FurnitureParams) (type : FurnitureType)
      (x y z : Z) :
  type <> Stool -> type <> Vase ->
  0 <= width params -> 0 <= height params -> 0 <= seatHeight params ->
  gyroidKeep params type x y z = true -> (1 <= x)%Z /\ (1 <= y)%Z.
Proof.
  intros Hs Hv Hw Hh Hsh Hk. unfold gyroidKeep, gyroidPos in Hk.
  apply andb_prop in Hk. destruct Hk as [Hin _].
  destruct (box_slab _ _ _ _ _ Hs Hv Hw Hh Hsh Hin)
    as [[Hx _] [Hy _]].
  unfold gyroidRes in *.
  split; apply le_IZR; lra.
Qed.

(** X16. For the archetypes built from boxes, with non-negative width,
    height and seat height, every edge of the Gyroid graph joins a kept
    grid point to the kept grid point that is its +x, +y or +z neighbour:
    the padding column and row are empty, so no grid id wraps. *)
Theorem gyroid_box_edges_are_neighbours :
  forall (rnd : Oracle) (type : FurnitureType) (w h d s : R),
    type <> Stool -> type <> Vase -> 0 <= w -> 0 <= h -> 0 <= s ->
    Forall
      (fun e =>
         exists c c',
           In c (gyroidCells (mkParams w h d s Gyroid))
           /\ In c' (gyroidCells (mkParams w h d s Gyroid))
           /\ keepAt (gyroidKeep (mkParams w h d s Gyroid) type) c = true
           /\ keepAt (gyroidKeep (mkParams w h d s Gyroid) type) c' = true
           /\ nodeAt (generateFurniture rnd type (mkParams w h d s Gyroid))
                     (fst e)
              = posVec (gyroidPos (mkParams w h d s Gyroid)) c
           /\ nodeAt (generateFurniture rnd type (mkParams w h d s Gyroid))
                     (snd e)
              = posVec (gyroidPos (mkParams w h d s Gyroid)) c'
           /\ grid_neighbour c c')
      (edges (generateFurniture rnd type (mkParams w h d s Gyroid))).
Proof.
  intros rnd type w h d s Hs Hv Hw Hh Hsh.
  eapply Forall_impl; [|apply (gyroid_edges_ids rnd type w h d s)].
  intros e [c [c' [Hc [Hc' [Hk [Hk' [Hn [Hn' Hid]]]]]]]].
  exists c, c'. repeat split; auto.
  destruct c as [[x y] z], c' as [[x' y'] z'].
  unfold gyroidCells in Hc, Hc'. apply In_cells in Hc, Hc'.
  rewrite !In_range in Hc, Hc'.
  destruct (gyroid_padding_empty (mkParams w h d s Gyroid) type x' y' z'
              Hs Hv Hw Hh Hsh Hk') as [H1 H2].
  apply (neighbour_from_id (gyroidNx (mkParams w h d s Gyroid))
                           (gyroidNy (mkParams w h d s Gyroid)));
    try lia.
  exact Hid.
Qed.

Lemma gyroid_box_edges_are_neighbours_witness :
  Forall
    (fun e =>
       exists c c',
         In c (gyroidCells (sceneDefaults Gyroid))
         /\ In c' (gyroidCells (sceneDefaults Gyroid))
         /\ keepAt (gyroidKeep (sceneDefaults Gyroid) Chair) c = true
         /\ keepAt (gyroidKeep (sceneDefaults Gyroid) Chair) c' = true
         /\ nodeAt (generateFurniture (fun _ => 0) Chair (sceneDefaults Gyroid))
                   (fst e)
            = posVec (gyroidPos (sceneDefaults Gyroid)) c
         /\ nodeAt (generateFurniture (fun _ => 0) Chair (sceneDefaults Gyroid))
                   (snd e)
            = posVec (gyroidPos (sceneDefaults Gyroid)) c'
         /\ grid_neighbour c c')
    (edges (generateFurniture (fun _ => 0) Chair (sceneDefaults Gyroid))).
Proof.
  apply (gyroid_box_edges_are_neighbours (fun _ => 0) Chair 0.6 0.9 0.6 0.45);
    try discriminate; lra.
Defined.


(** ** The Voronoi proximity graph *)

Lemma linkClose_all_edges (close : Vector3 -> Vector3 -> bool) :
  forall (points : list Point) (g : NetworkData),
    edges (linkClose (fun rest => rest) close points g)
    = edges g ++ closePairs close points.
Proof.
  induction points as [|p rest IH]; intros g; cbn [linkClose closePairs].
  - rewrite app_nil_r. reflexivity.
  - rewrite IH. rewrite app_assoc. f_equal.
    clear IH. revert g.
    induction rest as [|q rest IHr]; intros g; cbn [fold_left filter map].
    + rewrite app_nil_r. reflexivity.
    + rewrite IHr. destruct (close (snd p) (snd q)).
      * unfold link. cbn [edges map]. rewrite <- app_assoc. reflexivity.
      * reflexivity.
Qed.

Lemma indexedNodes_push (g : NetworkData) (v : Vector3) :
  indexedNodes (mkNet (nodes g ++ [v]) (edges g))
  = indexedNodes g ++ [(Z.of_nat (length (nodes g)), v)].
Proof.
  unfold indexedNodes. cbn [nodes].
  rewrite length_app. cbn [length]. rewrite Nat.add_1_r, seq_S, map_app.
  cbn [map Nat.add]. rewrite nth_middle.
  apply (f_equal (fun l => l ++ [(Z.of_nat (length (nodes g)), v)])).
  apply map_ext_in. intros i Hi. apply in_seq in Hi.
  rewrite app_nth1 by lia. reflexivity.
Qed.

Lemma voronoiSample_points (rnd : Oracle) (params : FurnitureParams)
      (type : FurnitureType) (count : Z) (fuel : nat) :
  forall (g : NetworkData) (points : list Point) (k : nat),
    points = indexedNodes g ->
    snd (fst (voronoiSample rnd params type count fuel (g, points, k)))
    = indexedNodes
        (fst (fst (voronoiSample rnd params type count fuel (g, points, k)))).
Proof.
  induction fuel as [|fuel IH]; intros g points k Hp; cbn [voronoiSample];
    [exact Hp|].
  destruct (Z.of_nat (length points) <? count)%Z; [|exact Hp].
  destruct (isInsideFurniture type _ _ _ params).
  - apply IH. symmetry. etransitivity; [apply indexedNodes_push|].
    rewrite Hp. reflexivity.
  - apply IH. exact Hp.
Qed.

Lemma closePairs_indexed (close : Vector3 -> Vector3 -> bool)
      (f : nat -> Point) (P : Z * Z -> Prop) :
  forall (n s : nat),
    (forall i j, (s <= i < j)%nat -> (j < s + n)%nat ->
                 close (snd (f i)) (snd (f j)) = true ->
                 P (fst (f i), fst (f j))) ->
    Forall P (closePairs close (map f (seq s n))).
Proof.
  induction n as [|n IH]; intros s H; cbn [seq map closePairs];
    [constructor|].
  apply Forall_app. split.
  - apply Forall_forall. intros e He. apply in_map_iff in He.
    destruct He as [q [E Hq]]. subst e. apply filter_In in Hq.
    destruct Hq as [Hq Hc]. apply in_map_iff in Hq.
    destruct Hq as [j [E Hj]]. subst q. apply in_seq in Hj.
    apply H; [lia|lia|exact Hc].
  - apply IH. intros i j Hij Hj Hc. apply H; [lia|lia|exact Hc].
Qed.

Lemma voronoi_close_pairs :
  forall (rnd : Oracle) (type : FurnitureType) (w h d s : R),
    let params := mkParams w h d s Voronoi in
    let G := generateFurniture rnd type params in
    edges G
    = closePairs (fun a b => below (voronoiThreshold params) (distanceTo a b))
                 (indexedNodes G)
    /\ Forall (fun e =>
                 (0 <= fst e < snd e)%Z /\ (snd e < nodeCount G)%Z
                 /\ below (voronoiThreshold params)
                          (distanceTo (nodeAt G (fst e)) (nodeAt G (snd e)))
                    = true)
              (edges G).
Proof.
  intros rnd type w h d s params G.
  assert (HE : edges G
               = closePairs
                   (fun a b => below (voronoiThreshold params)
                                     (distanceTo a b))
                   (indexedNodes G)).
  { unfold G.
    change (generateFurniture rnd type params)
      with (generateVolumeVoronoi rnd emptyNet params type).
    unfold generateVolumeVoronoi.
    pose proof (voronoiSample_points rnd params type (voronoiCount params)
                  (Z.to_nat (voronoiCount params * 10)) emptyNet [] O
                  eq_refl) as Hp.
    assert (Hedges :
      edges (fst (fst (voronoiSample rnd params type (voronoiCount params)
                         (Z.to_nat (voronoiCount params * 10))
                         (emptyNet, [], O)))) = []).
    { generalize (Z.to_nat (voronoiCount params * 10)).
      assert (Hgen : forall fuel g pts k, edges g = [] ->
                edges (fst (fst (voronoiSample rnd params type
                                   (voronoiCount params) fuel (g, pts, k))))
                = []).
      { induction fuel as [|fuel IH]; intros g pts k Hg; cbn [voronoiSample];
          [exact Hg|].
        destruct (Z.of_nat (length pts) <? voronoiCount params)%Z;
          [|exact Hg].
        destruct (isInsideFurniture type _ _ _ params); apply IH; exact Hg. }
      intros n. apply Hgen. reflexivity. }
    destruct (voronoiSample _ _ _ _ _ _) as [[g points] k].
    cbn [fst snd] in Hp, Hedges.
    rewrite linkClose_all_edges, Hedges. cbn [app].
    unfold indexedNodes at 1. rewrite linkClose_nodes.
    rewrite Hp. reflexivity. }
  split; [exact HE|].
  rewrite HE. unfold indexedNodes.
  apply closePairs_indexed.
  intros i j Hij Hj Hc. cbn [fst snd] in *.
  unfold nodeCount, nodeAt. rewrite !Nat2Z.id.
  repeat split; try lia. exact Hc.
Qed.

Lemma generateVolumeVoronoi_on (rnd : Oracle) (params : FurnitureParams)
      (type : FurnitureType) :
  generateVolumeVoronoi rnd emptyNet params type
  = voronoiGraphOn rnd params type (voronoiCount params)
      (fun a b => below (voronoiThreshold params) (distanceTo a b)).
Proof. reflexivity. Qed.

Lemma voronoiSample_no_edges (rnd : Oracle) (params : FurnitureParams)
      (type : FurnitureType) (count : Z) :
  forall (fuel : nat) (g : NetworkData) (points : list Point) (k : nat),
    edges g = [] ->
    edges (fst (fst (voronoiSample rnd params type count fuel
                                   (g, points, k)))) = [].
Proof.
  induction fuel as [|fuel IH]; intros g pts k Hg; cbn [voronoiSample];
    [exact Hg|].
  destruct (Z.of_nat (length pts) <? count)%Z; [|exact Hg].
  destruct (isInsideFurniture type _ _ _ params); apply IH; exact Hg.
Qed.

(** X17. Whatever the target count and the closeness test a run computes
    (in the code [a.distanceTo(b) < threshold]), the edges of a Voronoi
    graph are, in loop order, the pairs [(i, j)] with [i < j] of node ids
    whose nodes pass the test: each such pair once, and no other edge. *)
Theorem voronoi_edges_are_close_pairs :
  forall (rnd : Oracle) (type : FurnitureType) (params : FurnitureParams)
         (count : Z) (close : Vector3 -> Vector3 -> bool),
    let G := voronoiGraphOn rnd params type count close in
    edges G = closePairs close (indexedNodes G)
    /\ Forall (fun e =>
                 (0 <= fst e < snd e)%Z /\ (snd e < nodeCount G)%Z
                 /\ close (nodeAt G (fst e)) (nodeAt G (snd e)) = true)
              (edges G).
Proof.
  intros rnd type params count close G.
  assert (HE : edges G = closePairs close (indexedNodes G)).
  { unfold G, voronoiGraphOn.
    pose proof (voronoiSample_points rnd params type count
                  (Z.to_nat (count * 10)) emptyNet [] O eq_refl) as Hp.
    pose proof (voronoiSample_no_edges rnd params type count
                  (Z.to_nat (count * 10)) emptyNet [] O eq_refl) as Hedges.
    destruct (voronoiSample _ _ _ _ _ _) as [[g points] k].
    cbn [fst snd] in Hp, Hedges.
    rewrite linkClose_all_edges, Hedges. cbn [app].
    unfold indexedNodes at 1. rewrite linkClose_nodes.
    rewrite Hp. reflexivity. }
  split; [exact HE|].
  rewrite HE. unfold indexedNodes.
  apply closePairs_indexed.
  intros i j Hij Hj Hc. cbn [fst snd] in *.
  unfold nodeCount, nodeAt. rewrite !Nat2Z.id.
  repeat split; try lia. exact Hc.
Qed.

Lemma closePairs_none (close : Vector3 -> Vector3 -> bool) :
  (forall a b, close a b = false) ->
  forall points, closePairs close points = [].
Proof.
  intros H. induction points as [|p rest IH]; [reflexivity|].
  cbn [closePairs]. rewrite IH, app_nil_r. clear IH.
  induction rest as [|q rest IHr]; [reflexivity|].
  cbn [filter]. rewrite H. exact IHr.
Qed.

(** X18. When the product of the three dimensions is not positive the
    Voronoi graph has no edge: the threshold is 0 or [NaN] and no distance
    is below it. *)
Theorem voronoi_degenerate_volume_no_edges :
  forall (rnd : Oracle) (type : FurnitureType) (w h d s : R),
    w * h * d <= 0 ->
    edges (generateFurniture rnd type (mkParams w h d s Voronoi)) = [].
Proof.
  intros rnd type w h d s Hvol.
  rewrite (proj1 (voronoi_close_pairs rnd type w h d s)).
  apply closePairs_none. intros a b.
  unfold voronoiThreshold, pow_third. cbn [width height depth].
  set (count := voronoiCount (mkParams w h d s Voronoi)).
  assert (Hc : 0 < IZR count).
  { apply IZR_lt. pose proof (voronoiCount_at_least_50
                                (mkParams w h d s Voronoi)). fold count in H.
    lia. }
  assert (Hq : w * h * d / IZR count <= 0).
  { pose proof (Rinv_0_lt_compat _ Hc) as Hi. unfold Rdiv.
    set (v := w * h * d) in *. set (r := / IZR count) in *. nra. }
  rewrite (proj2 (ltb_false_iff 0 (w * h * d / IZR count))) by exact Hq.
  destruct (ltb (w * h * d / IZR count) 0); cbn [option_map below];
    [reflexivity|].
  apply ltb_false_iff. pose proof (distanceTo_nonneg a b). lra.
Qed.

Lemma voronoi_degenerate_volume_no_edges_witness :
  edges (generateFurniture (fun _ => 0.5) Shelf (mkParams 0 1 1 0.5 Voronoi))
  = [].
Proof.
  apply (voronoi_degenerate_volume_no_edges (fun _ => 0.5) Shelf 0 1 1 0.5).
  lra.
Defined.


(** ** Sizes of the skeletal graphs *)

Lemma fold_left_grows {S A : Type} (m : S -> nat) (f : S -> A -> S) (c : nat)
      (l : list A) :
  (forall st a, m (f st a) = (m st + c)%nat) ->
  forall st, m (fold_left f l st) = (m st + c * length l)%nat.
Proof.
  intros H. induction l as [|a l IH]; intros st; cbn [fold_left length].
  - lia.
  - rewrite IH, H. lia.
Qed.

Lemma reclinerLeg_count (rnd : Oracle) (height : R) (st : NetworkData * nat)
      (p : Point) :
  (length (nodes (fst st))
   <= length (nodes (fst (reclinerLeg rnd height st p)))
   <= S (length (nodes (fst st))))%nat.
Proof.
  destruct st as [g k]. unfold reclinerLeg.
  destruct (gtb (rnd k) 0.97 && ltb (vy (snd p)) (height * 0.5)).
  - unfold addNode, link. cbn [fst nodes]. rewrite length_app. cbn. lia.
  - cbn [fst]. lia.
Qed.

Lemma reclinerLegs_count (rnd : Oracle) (height : R) :
  forall (points : list Point) (st : NetworkData * nat),
    (length (nodes (fst st))
     <= length (nodes (fst (fold_left (reclinerLeg rnd height) points st)))
     <= length (nodes (fst st)) + length points)%nat.
Proof.
  induction points as [|p points IH]; intros st; cbn [fold_left length].
  - lia.
  - specialize (IH (reclinerLeg rnd height st p)).
    pose proof (reclinerLeg_count rnd height st p). lia.
Qed.

(** X19. The Recliner surface has 31 x 13 = 403 nodes, and each surface
    point gets at most one leg node: for all dimensions and every outcome of
    the random draws the graph has between 403 and 806 nodes. *)
Theorem recliner_node_count :
  forall (rnd : Oracle) (w h d s : R),
    (403 <= length (nodes (generateFurniture rnd Recliner
                             (mkParams w h d s Linear))) <= 806)%nat.
Proof.
  intros rnd w h d s.
  change (generateFurniture rnd Recliner (mkParams w h d s Linear))
    with (generateVoronoiReclinerOriginal rnd emptyNet
            (mkParams w h d s Linear)).
  unfold generateVoronoiReclinerOriginal. cbv zeta.
  match goal with
  | |- context [fold_left ?f (seq 0 (30 + 1)) (emptyNet, [], O)] =>
      pose proof (fold_left_grows
                    (fun st : NetworkData * list Point * nat =>
                       length (nodes (fst (fst st))))
                    f 13 (seq 0 (30 + 1))) as Hn;
      pose proof (fold_left_grows
                    (fun st : NetworkData * list Point * nat =>
                       length (snd (fst st)))
                    f 13 (seq 0 (30 + 1))) as Hp
  end.
  match type of Hn with
  | ?A -> _ =>
      assert (Hbody : A); [|specialize (Hn Hbody (emptyNet, [], O)); clear Hbody]
  end.
  { intros [[g pts] k] i. cbv beta.
    match goal with
    | |- context [fold_left ?f (seq 0 (12 + 1)) ?st0] =>
        rewrite (fold_left_grows
                   (fun st : NetworkData * list Point * nat =>
                      length (nodes (fst (fst st)))) f 1 (seq 0 (12 + 1)))
    end.
    - reflexivity.
    - intros [[g' pts'] k'] j. unfold addNode. cbn [fst snd nodes].
      rewrite length_app. reflexivity. }
  match type of Hp with
  | ?A -> _ =>
      assert (Hbody : A); [|specialize (Hp Hbody (emptyNet, [], O)); clear Hbody]
  end.
  { intros [[g pts] k] i. cbv beta.
    match goal with
    | |- context [fold_left ?f (seq 0 (12 + 1)) ?st0] =>
        rewrite (fold_left_grows
                   (fun st : NetworkData * list Point * nat =>
                      length (snd (fst st))) f 1 (seq 0 (12 + 1)))
    end.
    - reflexivity.
    - intros [[g' pts'] k'] j. unfold addNode. cbn [fst snd].
      rewrite length_app. reflexivity. }
  destruct (fold_left _ (seq 0 (30 + 1)) _) as [[g pts] k].
  cbn [fst snd] in Hn, Hp. cbn in Hn, Hp.
  pose proof (reclinerLegs_count rnd (height (mkParams w h d s Linear)) pts
                (linkClose (firstn (12 * 3 - 1))
                   (fun a b => ltb (distanceTo a b)
                                   (width (mkParams w h d s Linear) / INR 12
                                    * 1.8)) pts g, k)) as HL.
  cbn [fst] in HL. rewrite linkClose_nodes in HL. lia.
Qed.

(** X20. The sizes of the other skeletal graphs do not depend on the
    dimensions: (nodes, edges) is (14, 17) for the Chair, (13, 20) for the
    Table, (16, 16) for the Stool, (12, 17) for the Bench, (16, 36) for the
    Shelf, (48, 132) for the Vase, (153, 441) for the Lamp and (320, 828)
    for the Mobius strip. *)
Theorem skeletal_graph_sizes :
  forall (rnd : Oracle) (w h d s : R),
    let size type :=
      (length (nodes (generateFurniture rnd type (mkParams w h d s Linear))),
       length (edges (generateFurniture rnd type (mkParams w h d s Linear))))
    in
    size Chair = (14, 17)%nat /\ size Table = (13, 20)%nat
    /\ size Stool = (16, 16)%nat /\ size Bench = (12, 17)%nat
    /\ size Shelf = (16, 36)%nat /\ size Vase = (48, 132)%nat
    /\ size Lamp = (153, 441)%nat /\ size Mobius = (320, 828)%nat.
Proof. intros rnd w h d s. repeat split; reflexivity. Qed.

(** X21. No node of the Mobius strip is below the ground: the final pass
    lifts every node with negative [y] to [y = 0]. *)
Theorem mobius_nodes_above_ground :
  forall (rnd : Oracle) (w h d s : R),
    Forall (fun n => 0 <= vy n)
           (nodes (generateFurniture rnd Mobius (mkParams w h d s Linear))).
Proof.
  intros rnd w h d s.
  change (generateFurniture rnd Mobius (mkParams w h d s Linear))
    with (generateLinearMobius emptyNet (mkParams w h d s Linear)).
  unfold generateLinearMobius. cbv zeta.
  destruct (fold_left _ (seq 0 64) (emptyNet, [])) as [g grid].
  cbn [nodes]. apply Forall_forall. intros n Hn.
  apply in_map_iff in Hn. destruct Hn as [n0 [E _]]. subst n.
  destruct (ltb (vy n0) 0) eqn:El.
  - cbn [vy]. lra.
  - apply ltb_false_iff in El. exact El.
Qed.


(** ** The Triangular lattice: edges *)

Lemma triangular_connect_edges (nx ny : Z) (m : NodeMap) (g : NetworkData) :
  entries_ok nx ny (nodeCount g) m -> edges g = [] ->
  Forall (fun e =>
            exists k k' dx dy dz,
              In (k, fst e) m /\ In (k', snd e) m
              /\ In (dx, dy, dz) neighborOffsets
              /\ (k' = k + dx + dy * nx + dz * nx * ny)%Z)
         (edges (fold_left (triangularConnect nx ny m) m g)).
Proof.
  intros Hent Hg.
  apply (fold_left_invariant
           (fun g' =>
              Forall (fun e =>
                        exists k k' dx dy dz,
                          In (k, fst e) m /\ In (k', snd e) m
                          /\ In (dx, dy, dz) neighborOffsets
                          /\ (k' = k + dx + dy * nx + dz * nx * ny)%Z)
                     (edges g'))).
  - intros g' [k r] Hin Hg'. unfold triangularConnect.
    destruct (gridCoords nx ny k) as [[[x y] z]|] eqn:Hc; [|exact Hg'].
    destruct (proj1 Hent _ _ Hin) as [_ [Hk [Hnx Hny]]].
    destruct (gridCoords_idx _ _ _ _ _ _ Hc Hk Hnx Hny) as [E _].
    apply linkNeighbors_edges; [exact Hg'|].
    intros a b c j Hn Hget. apply map_get_In in Hget.
    apply in_map_iff in Hn. destruct Hn as [[[dx dy] dz] [Eo Ho]].
    inversion Eo; subst a b c.
    exists k, (idx nx ny (x + dx) (y + dy) (z + dz)), dx, dy, dz.
    cbn [fst snd]. repeat split; auto.
    unfold idx in *. lia.
  - rewrite Hg. constructor.
Qed.

(** X22. Whatever the cell counts, the positions and the keep decisions a
    run computes, every edge of a Triangular graph joins the nodes of two
    kept grid points whose grid ids differ by
    [dx + dy * nx + dz * nx * ny] for one of the seven forward offsets
    [(dx, dy, dz)]; the sampled grid includes [x = nx], [y = ny] and
    [z = nz]. *)
Theorem triangular_edges_by_grid_id :
  forall (keep : Z -> Z -> Z -> bool) (pos : Z -> Z -> Z -> R * R * R)
         (nx ny nz : Z),
    let G := triangularGraphOn keep pos nx ny nz in
    let grid := cells (range (nx + 1)) (range (ny + 1)) (range (nz + 1)) in
    Forall
      (fun e =>
         exists c c' dx dy dz,
           In c grid /\ In c' grid
           /\ keepAt keep c = true /\ keepAt keep c' = true
           /\ nodeAt G (fst e) = posVec pos c
           /\ nodeAt G (snd e) = posVec pos c'
           /\ In (dx, dy, dz) neighborOffsets
           /\ (idxAt nx ny c' = idxAt nx ny c + dx + dy * nx + dz * nx * ny)%Z)
      (edges G).
Proof.
  intros keep pos nx ny nz G grid. unfold G, triangularGraphOn.
  pose proof (sampling_inv keep pos nx ny (nx + 1) (ny + 1) (nz + 1)
                (fun x y z st => sampleCell keep pos nx ny st (x, y, z))
                (fun x y z st => eq_refl) ltac:(lia) ltac:(lia)) as Hinv.
  rewrite sampling_on_fold in Hinv |- *. fold grid in Hinv |- *.
  pose proof (sampling_entries keep pos nx ny grid) as Hent.
  pose proof (sampling_no_edges keep pos nx ny grid) as Hedges.
  cbv zeta in Hent.
  destruct (fold_left _ grid _) as [g m].
  cbn [fst snd] in *. destruct Hinv as [_ Hok].
  pose proof (triangular_connect_edges nx ny m g Hok Hedges) as HE.
  eapply Forall_impl; [|exact HE].
  intros [i j] [k [k' [dx [dy [dz [Hi [Hj [Ho Hd]]]]]]]]. cbn [fst snd] in *.
  destruct (Hent k i Hi) as [c [Hc [Hkc [Ek [_ Hn]]]]].
  destruct (Hent k' j Hj) as [c' [Hc' [Hkc' [Ek' [_ Hn']]]]].
  exists c, c', dx, dy, dz. unfold nodeAt in *.
  rewrite triangular_connect_nodes.
  subst k k'. repeat split; auto.
Qed.

(** ** Voronoi nodes and the shape *)

Lemma voronoiSample_near_shape (rnd : Oracle) (params : FurnitureParams)
      (type : FurnitureType) (count : Z) :
  (forall k : nat, 0 <= rnd k < 1) ->
  forall (fuel : nat) (g : NetworkData) (points : list Point) (k : nat),
    Forall (fun v =>
              exists x y z,
                isInsideFurniture type x y z params = true
                /\ Rabs (vx v - x) <= 0.025 /\ Rabs (vy v - y) <= 0.025
                /\ Rabs (vz v - z) <= 0.025)
           (nodes g) ->
    Forall (fun v =>
              exists x y z,
                isInsideFurniture type x y z params = true
                /\ Rabs (vx v - x) <= 0.025 /\ Rabs (vy v - y) <= 0.025
                /\ Rabs (vz v - z) <= 0.025)
           (nodes (fst (fst (voronoiSample rnd params type count fuel
                                           (g, points, k))))).
Proof.
  intros Hrnd. induction fuel as [|fuel IH]; intros g points k Hg;
    cbn [voronoiSample]; [exact Hg|].
  destruct (Z.of_nat (length points) <? count)%Z; [|exact Hg].
  destruct (isInsideFurniture type _ _ _ params) eqn:Hin.
  - apply IH. cbn [fst nodes]. apply Forall_app. split; [exact Hg|].
    constructor; [|constructor].
    eexists _, _, _. split; [exact Hin|]. cbn [vx vy vz].
    pose proof (Hrnd (k + 3)%nat). pose proof (Hrnd (k + 4)%nat).
    pose proof (Hrnd (k + 5)%nat).
    repeat split; apply Rabs_le; lra.
  - apply IH. exact Hg.
Qed.

(** X23. With draws in [0, 1), every node of a Voronoi graph is an
    accepted sample moved by the jitter: it lies within 0.025 along each
    axis of a point inside the archetype's classifier. *)
Theorem voronoi_nodes_near_shape :
  forall (rnd : Oracle) (type : FurnitureType) (w h d s : R),
    (forall k : nat, 0 <= rnd k < 1) ->
    Forall (fun v =>
              exists x y z,
                isInsideFurniture type x y z (mkParams w h d s Voronoi) = true
                /\ Rabs (vx v - x) <= 0.025 /\ Rabs (vy v - y) <= 0.025
                /\ Rabs (vz v - z) <= 0.025)
           (nodes (generateFurniture rnd type (mkParams w h d s Voronoi))).
Proof.
  intros rnd type w h d s Hrnd.
  change (generateFurniture rnd type (mkParams w h d s Voronoi))
    with (generateVolumeVoronoi rnd emptyNet (mkParams w h d s Voronoi) type).
  unfold generateVolumeVoronoi.
  pose proof (voronoiSample_near_shape rnd (mkParams w h d s Voronoi) type
                (voronoiCount (mkParams w h d s Voronoi)) Hrnd
                (Z.to_nat (voronoiCount (mkParams w h d s Voronoi) * 10))
                emptyNet [] O (Forall_nil _)) as H.
  destruct (voronoiSample _ _ _ _ _ _) as [[g points] k].
  cbn [fst] in H. rewrite linkClose_nodes. exact H.
Qed.

Lemma voronoi_nodes_near_shape_witness :
  Forall (fun v =>
            exists x y z,
              isInsideFurniture Shelf x y z (mkParams 1 1 1 0.5 Voronoi) = true
              /\ Rabs (vx v - x) <= 0.025 /\ Rabs (vy v - y) <= 0.025
              /\ Rabs (vz v - z) <= 0.025)
         (nodes (generateFurniture (fun _ => 0.5) Shelf
                   (mkParams 1 1 1 0.5 Voronoi))).
Proof.
  apply (voronoi_nodes_near_shape (fun _ => 0.5) Shelf 1 1 1 0.5).
  intros k. lra.
Defined.
